(** * MemoryAnalysis: the telemetry decoders, the trigger engine and the
      snapshot differencing engine, embedded from

      - [lib/cuckoo/common/netlog.py]       (module [Netlog] below)
      - [modules/processing/memoryanalysis.py] (module [MemoryAnalysis] below)

    The Python code is embedded shallowly: dictionaries are [gmap]s, lists are
    lists, exceptions are an explicit error result, and mutable objects
    (the result handler, the parser, the snapshot under construction) are
    threaded as explicit state. *)

From Stdlib Require Import ZArith String Ascii List Lia.
From Stdlib.Strings Require Import Byte.
From stdpp Require Import base decidable option list gmap strings fin_maps.

Local Open Scope string_scope.
Local Open Scope list_scope.
Local Open Scope Z_scope.

(** ** Python values, exceptions and dictionaries *)

Module Py.

(** Scalar values carried by decoded arguments and by snapshot records.
    Booleans and floats are outside the model; on the values kept here
    Python's [==] is structural equality. *)
Inductive value : Type :=
| VNone
| VInt (z : Z)
| VStr (s : string).

#[global] Instance value_eq_dec : EqDecision value.
Proof. solve_decision. Defined.

(** The exceptions the embedded code can raise. *)
Inductive exn : Type :=
| KeyError (k : string)
| IndexError
| TypeError
| ValueError
| AttributeError
| CuckooResultError     (* lib.cuckoo.common.exceptions.CuckooResultError *)
| Disconnect            (* the byte source closed before the read completed *)
| ExternalError.        (* raised inside an external collaborator *)

Inductive res (A : Type) : Type :=
| Ok (a : A)
| Raise (e : exn).
Arguments Ok {A} a.
Arguments Raise {A} e.

#[global] Instance exn_eq_dec : EqDecision exn.
Proof. solve_decision. Defined.

#[global] Instance res_eq_dec {A} `{EqDecision A} : EqDecision (res A).
Proof. solve_decision. Defined.

Definition res_bind {A B} (r : res A) (k : A -> res B) : res B :=
  match r with
  | Ok a => k a
  | Raise e => Raise e
  end.

(** [d[k]] on a dictionary with string keys. *)
Definition getitem {A} (d : gmap string A) (k : string) : res A :=
  match d !! k with
  | Some v => Ok v
  | None => Raise (KeyError k)
  end.

(** State-and-exception monad: a Python method that mutates [St] and either
    returns or raises.  The state reached is kept in both cases. *)
Definition M (St A : Type) : Type := St -> res A * St.

Definition ret {St A} (a : A) : M St A := fun s => (Ok a, s).

Definition raise {St A} (e : exn) : M St A := fun s => (Raise e, s).

Definition bind {St A B} (m : M St A) (k : A -> M St B) : M St B :=
  fun s =>
    match m s with
    | (Ok a, s') => k a s'
    | (Raise e, s') => (Raise e, s')
    end.

Definition lift {St A} (r : res A) : M St A := fun s => (r, s).

Definition get {St} : M St St := fun s => (Ok s, s).

Definition modify {St} (f : St -> St) : M St unit := fun s => (Ok tt, f s).

(** [needle in haystack] on strings. *)
Fixpoint contains (needle haystack : string) : bool :=
  String.prefix needle haystack ||
  match haystack with
  | EmptyString => false
  | String _ rest => contains needle rest
  end.

(** [s.lower()] on a byte string: the ASCII capitals are mapped. *)
Definition lower_ascii (c : ascii) : ascii :=
  let n := N_of_ascii c in
  if ((65 <=? n) && (n <=? 90))%N then ascii_of_N (n + 32) else c.

Fixpoint lower (s : string) : string :=
  match s with
  | EmptyString => EmptyString
  | String c rest => String (lower_ascii c) (lower rest)
  end.

(** Hexadecimal output. *)
Definition hex_digit (n : Z) : ascii :=
  nth (Z.to_nat n)
      ["0"; "1"; "2"; "3"; "4"; "5"; "6"; "7"; "8"; "9";
       "a"; "b"; "c"; "d"; "e"; "f"]%char "f"%char.

(** The digit of weight [16 ^ i] of [n]. *)
Definition nibble (n : Z) (i : nat) : ascii :=
  hex_digit ((n / 16 ^ Z.of_nat i) mod 16).

(** How many digits ["%x"] prints for [n >= 0]: at least one. *)
Definition hex_len (n : Z) : nat := Z.to_nat (Z.log2 n / 4 + 1).

(** ["%x" % n] for [n >= 0], most significant digit first. *)
Definition hex_of (n : Z) : string :=
  string_of_list_ascii (map (nibble n) (rev (seq 0 (hex_len n)))).

Definition zeros (k : nat) : string :=
  string_of_list_ascii (repeat "0"%char k).

(** ["%08x" % n]: zeros fill up to a total width of eight, after the sign. *)
Definition format_08x (n : Z) : string :=
  if n <? 0 then
    let d := hex_of (- n) in
    String.append "-" (String.append (zeros (7 - String.length d)) d)
  else
    let d := hex_of n in
    String.append (zeros (8 - String.length d)) d.

(** [s.encode("hex")]: two digits per byte. *)
Fixpoint encode_hex (s : string) : string :=
  match s with
  | EmptyString => EmptyString
  | String c rest =>
      let n := Z.of_N (N_of_ascii c) in
      String (nibble n 1) (String (nibble n 0) (encode_hex rest))
  end.

End Py.

Export Py.

Declare Scope py_scope.
Delimit Scope py_scope with py.
Notation "x <- m ;; k" := (bind m (fun x => k))
  (at level 100, m at next level, right associativity) : py_scope.
Notation "m ;;; k" := (bind m (fun _ => k))
  (at level 100, right associativity) : py_scope.
Notation "x <~ r ;; k" := (res_bind r (fun x => k))
  (at level 100, r at next level, right associativity) : py_scope.

(** ** conf/triggers.conf

    One section per trigger name, read through
    [lib.cuckoo.common.config.Config] (an external collaborator): the
    configuration is the table of the sections present. *)

Module TriggersConf.

Record trigger_options : Type := TriggerOptions {
  enabled : bool;
  dump_memory : bool;
  break_on_volshell : bool;
  breakpoint : bool;
  run_plugins : string;
  run_smart_plugins : bool
}.

End TriggersConf.

(** ** modules/processing/memoryanalysis.py *)

Module MemoryAnalysis.

Local Open Scope py_scope.

(** *** The facet resolver: [run_dependencies] *)

Section RunDependencies.

(** [V] is what a Volatility plugin returns, [VolManager] the state of
    [self.vol_manager], [Attrs] the keyword arguments passed through. *)
Context {V VolManager Attrs : Type}.

(** [getattr(self.vol_manager, dep)] called with the keyword arguments
    [attrs]: an external computation that may raise and may change the
    manager. *)
Variable plugin : string -> Attrs -> M VolManager V.

(** The mutable objects [run_dependencies] touches: the [results] dictionary
    (updated in place and returned), the manager, and a ghost log of the
    plugins that were invoked, most recent last. *)
Record resolver : Type := Resolver {
  results : gmap string V;
  vol_manager : VolManager;
  invoked : list string
}.

Definition call_plugin (dep : string) (attrs : Attrs) : M resolver V :=
  fun st =>
    let '(r, vm) := plugin dep attrs (vol_manager st) in
    (r, {| results := results st; vol_manager := vm;
           invoked := invoked st ++ [dep] |}).

Definition store (dep : string) (v : V) : M resolver unit :=
  modify (fun st => {| results := <[dep := v]> (results st);
                       vol_manager := vol_manager st;
                       invoked := invoked st |}).

(** [[
    for dep in dependencies:
        if not results.has_key(dep):
            results[dep] = getattr(self.vol_manager, dep)( **attrs )
    return results
    ]] *)
Fixpoint run_dependencies (dependencies : list string) (attrs : Attrs)
  : M resolver unit :=
  match dependencies with
  | [] => ret tt
  | dep :: rest =>
      st <- get ;;
      (match results st !! dep with
       | Some _ => ret tt
       | None => v <- call_plugin dep attrs ;; store dep v
       end) ;;;
      run_dependencies rest attrs
  end.

End RunDependencies.

Arguments resolver : clear implicits.

(** *** Snapshots *)

(** A record of a facet's [data] list: a dictionary whose keys hold scalars,
    except the key [loaded_modules] of a [dlllist] record, which holds a list
    of module dictionaries and is kept apart ([None]: the dictionary has no
    such key). *)
Record record : Type := Rec {
  fields : gmap string value;
  loaded_modules : option (list (gmap string value))
}.

(** What a Volatility plugin returns: [{"config": ..., "data": [...]}]. *)
Record facet : Type := Facet {
  config : gmap string value;
  data : list record
}.

(** A snapshot maps facet names to facets; [old] and [new] below. *)
Abbreviation snapshot := (gmap string facet).

(** *** The generic identity-set diff: [get_new_objects] *)

(** [hashabledict(d)] placed in a set: hashing sorts and hashes the items, so
    a record holding a list raises [TypeError]; equal dictionaries are one
    element whatever the order of their keys. *)
Definition hashabledict (d : record) : res (gmap string value) :=
  match loaded_modules d with
  | None => Ok (fields d)
  | Some _ => Raise TypeError
  end.

(** A Python [set] of hashable dictionaries is a duplicate-free list.  The
    iteration order of a set is unspecified; the model fixes one, and the
    theorems speak of membership only. *)
Fixpoint set_of (ds : list record) : res (list (gmap string value)) :=
  match ds with
  | [] => Ok []
  | d :: rest =>
      h <~ hashabledict d ;;
      s <~ set_of rest ;;
      Ok (if decide (h ∈ s) then s else h :: s)
  end.

Definition set_union (a b : list (gmap string value)) := list_union a b.

Definition set_difference (a b : list (gmap string value)) :=
  list_difference a b.

(** The loop of [get_new_objects]: both accumulators grow per dependency,
    [old] is read before [new]. *)
Fixpoint united (old new : snapshot) (deps : list string)
    (hashable_united_old hashable_united_new : list (gmap string value))
  : res (list (gmap string value) * list (gmap string value)) :=
  match deps with
  | [] => Ok (hashable_united_old, hashable_united_new)
  | dep :: rest =>
      fo <~ getitem old dep ;;
      so <~ set_of (data fo) ;;
      fn <~ getitem new dep ;;
      sn <~ set_of (data fn) ;;
      united old new rest (set_union hashable_united_old so)
                          (set_union hashable_united_new sn)
  end.

Definition get_new_objects (old new : snapshot) (deps : list string)
  : res (list (gmap string value)) :=
  p <~ united old new deps [] [] ;;
  Ok (set_difference (snd p) (fst p)).

(** *** The connection diff: [get_new_connections] *)

(** The condition under [not]: [or] evaluates left to right and stops at the
    first true disjunct, so a later key is looked up only when needed. *)
Definition excluded (c : gmap string value) : res bool :=
  lp <~ getitem c "local_port" ;;
  if decide (lp = VInt 8000) then Ok true else
  rp <~ getitem c "remote_port" ;;
  if decide (rp = VInt 2042) then Ok true else
  ra <~ getitem c "remote_address" ;;
  Ok (bool_decide (ra = VStr "293.268.122.1")).

Fixpoint keep_connections (found_connections new_connections
                           : list (gmap string value))
  : res (list (gmap string value)) :=
  match found_connections with
  | [] => Ok new_connections
  | c :: rest =>
      b <~ excluded c ;;
      keep_connections rest
        (if b then new_connections else new_connections ++ [c])
  end.

Definition get_new_connections (old new : snapshot) (deps : list string)
  : res (list (gmap string value)) :=
  found_connections <~ get_new_objects old new deps ;;
  keep_connections found_connections [].

(** *** The DLL-list diff: [get_new_dlllist] *)

(** [for p in old['dlllist']['data']: if pid == p['process_id']: old_p = p; break] *)
Fixpoint find_old_p (pid : value) (old_data : list record)
  : res (option record) :=
  match old_data with
  | [] => Ok None
  | p :: rest =>
      ppid <~ getitem (fields p) "process_id" ;;
      if decide (pid = ppid) then Ok (Some p) else find_old_p pid rest
  end.

(** [proc['loaded_modules']] *)
Definition modules_of (p : record) : res (list (gmap string value)) :=
  match loaded_modules p with
  | Some l => Ok l
  | None => Raise (KeyError "loaded_modules")
  end.

(** [for m in old_p['loaded_modules']: if m['dll_full_name'] == module['dll_full_name']: found = True; break] *)
Fixpoint module_found (old_modules : list (gmap string value))
    (module : gmap string value) : res bool :=
  match old_modules with
  | [] => Ok false
  | m :: rest =>
      a <~ getitem m "dll_full_name" ;;
      b <~ getitem module "dll_full_name" ;;
      if decide (a = b) then Ok true else module_found rest module
  end.

(** [module['process_id'] = pid; module['process_name'] = pname] *)
Definition annotate (pid pname : value) (module : gmap string value)
  : gmap string value :=
  <["process_name" := pname]> (<["process_id" := pid]> module).

(** The loop over [proc['loaded_modules']].  [old_p['loaded_modules']] is
    evaluated once per module of [proc]. *)
Fixpoint scan_modules (old_p : record) (pid pname : value)
    (modules new_dlls : list (gmap string value))
  : res (list (gmap string value)) :=
  match modules with
  | [] => Ok new_dlls
  | module :: rest =>
      old_modules <~ modules_of old_p ;;
      found <~ module_found old_modules module ;;
      scan_modules old_p pid pname rest
        (if found then new_dlls else new_dlls ++ [annotate pid pname module])
  end.

(** The outer loop.  [old['dlllist']['data']] is evaluated anew for every
    process of [new], after that process's id and name were read. *)
Fixpoint scan_procs (old : snapshot) (new_data : list record)
    (new_dlls : list (gmap string value)) : res (list (gmap string value)) :=
  match new_data with
  | [] => Ok new_dlls
  | proc :: rest =>
      pid <~ getitem (fields proc) "process_id" ;;
      pname <~ getitem (fields proc) "process_name" ;;
      fo <~ getitem old "dlllist" ;;
      old_p <~ find_old_p pid (data fo) ;;
      new_dlls' <~ match old_p with
                   | Some op =>
                       modules <~ modules_of proc ;;
                       scan_modules op pid pname modules new_dlls
                   | None => Ok new_dlls
                   end ;;
      scan_procs old rest new_dlls'
  end.

(** The returned modules are the annotated dictionaries themselves, which in
    Python also sit, annotated, in [new]; the snapshots are trees here (no
    dictionary object is shared between two lists). *)
Definition get_new_dlllist (old new : snapshot) (deps : list string)
  : res (list (gmap string value)) :=
  fn <~ getitem new "dlllist" ;;
  scan_procs old (data fn) [].

(** *** The escalation policy: the tail of [run_memory_analysis] *)

(** An entry of [mem_analysis["diffs"]]. [diff_extra] holds the keys some
    entries carry besides the four common ones ("value", "disassembly"). *)
Record diff_entry : Type := DiffEntry {
  diff_desc : string;
  diff_new : list (gmap string value);
  diff_deleted : list (gmap string value);
  diff_star : string;
  diff_extra : gmap string value
}.

Definition with_star (st : string) (e : diff_entry) : diff_entry :=
  {| diff_desc := diff_desc e; diff_new := diff_new e;
     diff_deleted := diff_deleted e; diff_star := st;
     diff_extra := diff_extra e |}.

Definition append_new (o : gmap string value) (e : diff_entry) : diff_entry :=
  {| diff_desc := diff_desc e; diff_new := diff_new e ++ [o];
     diff_deleted := diff_deleted e; diff_star := diff_star e;
     diff_extra := diff_extra e |}.

Definition append_deleted (o : gmap string value) (e : diff_entry)
  : diff_entry :=
  {| diff_desc := diff_desc e; diff_new := diff_new e;
     diff_deleted := diff_deleted e ++ [o]; diff_star := diff_star e;
     diff_extra := diff_extra e |}.

(** The external collaborators of the follow-ups: the Volatility API bound
    to the infected dump, the tables of [memoryanalysisconsts] and of
    Volatility's [vadinfo], and the Python builtins [int] and [str].  Each
    Volatility field is the part of the answer the code reads, with the
    exceptions of reading it folded in. *)
Record volatility : Type := Volatility {
  (* [vol.patcher(...)["patches"]], each patch through [int(p)] *)
  patcher : res (list Z);
  (* [vol.moddump(dump_dir, base)["data"][0]["module_name"]] *)
  moddump : Z -> res value;
  (* for a message hook [mh]: the first pid [re.findall] finds in
     [mh["thread"]], the module name split off [mh["module"]], and
     [vol.dlldump(dump_dir, pid, regex)["data"]]; [None] when no pid is
     found or the data is empty, otherwise [data[0]] *)
  hook_dlldump : gmap string value -> res (option (gmap string value));
  (* [vol.malfind(dump_dir, pid, add_data, ignore_protect, address)["data"][0]];
     the boolean tells whether a dump directory is passed *)
  malfind : bool -> string -> Z -> res (gmap string value);
  (* [vol.dlldump(dump_dir, pid, base)["data"]] *)
  dlldump : string -> Z -> res (list (gmap string value));
  (* [vol.threads(pid)["data"]] *)
  threads : string -> res (list (gmap string value));
  (* [disasm_from_memory(self.memfile, int(pid), start, 100)]; [None] when
     it raised, which the [try] swallows *)
  disasm_from_memory : string -> Z -> option string
}.

Record tables : Type := Tables {
  TRIGGER_PLUGINS : gmap string (list string);
  PAGE_PROTECTIONS : gmap Z string;
  PROTECT_FLAGS : list (Z * string);
  py_int : value -> res Z;       (* [int(x)] *)
  py_int16 : value -> res Z;     (* [int(x, 16)] *)
  py_str : value -> string       (* [str(x)] *)
}.

Section Escalation.

Variable conf : gmap string TriggersConf.trigger_options.
Variable tbl : tables.
Variable vol : volatility.

(** [parse_trigger_plugins], its first component. *)
Definition parse_trigger_plugins (trigger : string) : bool :=
  match conf !! trigger with
  | Some trig_opts => TriggersConf.run_smart_plugins trig_opts
  | None => false
  end.

Definition fresh_entry (st d : string) (n : list (gmap string value))
    (extra : gmap string value) : diff_entry :=
  {| diff_desc := d; diff_new := n; diff_deleted := []; diff_star := st;
     diff_extra := extra |}.

(** [if diffs.has_key(plugin): diffs[plugin]["star"] = "yes"] *)
Definition star_if_present (plugin : string) (diffs : gmap string diff_entry)
  : gmap string diff_entry :=
  match diffs !! plugin with
  | Some e => <[plugin := with_star "yes" e]> diffs
  | None => diffs
  end.

(** [for plugin in TRIGGER_PLUGINS[trigger]: ...] *)
Fixpoint star_plugins (plugins : list string) (diffs : gmap string diff_entry)
  : gmap string diff_entry :=
  match plugins with
  | [] => diffs
  | plugin :: rest => star_plugins rest (star_if_present plugin diffs)
  end.

(** The [ZwLoadDriver] loop over the patches. *)
Fixpoint dump_new_drivers (patches : list Z) (diffs : gmap string diff_entry)
  : res (gmap string diff_entry) :=
  match patches with
  | [] => Ok diffs
  | p :: rest =>
      let base := p + 0x7fe00000 in
      name <~ moddump vol base ;;
      e <~ getitem diffs "diff_moddump" ;;
      dump_new_drivers rest
        (<["diff_moddump" :=
             append_new (<["module_base" := VInt base]>
                           {["module_name" := name]}) e]> diffs)
  end.

(** The [SetWindowsHookEx] loop over the new message hooks. *)
Fixpoint dump_hook_modules (hooks : list (gmap string value))
    (diffs : gmap string diff_entry) : res (gmap string diff_entry) :=
  match hooks with
  | [] => Ok diffs
  | mh :: rest =>
      d <~ hook_dlldump vol mh ;;
      match d with
      | None => dump_hook_modules rest diffs
      | Some dll =>
          e <~ getitem diffs "injected_dll" ;;
          dump_hook_modules rest
            (<["injected_dll" := with_star "yes" (append_new dll e)]> diffs)
      end
  end.

(** [for t in threads: if t["TID"] == tid: diffs["injected_thread"]["new"].append(t)] *)
Fixpoint record_thread (tid : Z) (ts : list (gmap string value))
    (diffs : gmap string diff_entry) : res (gmap string diff_entry) :=
  match ts with
  | [] => Ok diffs
  | t :: rest =>
      t_tid <~ getitem t "TID" ;;
      if decide (t_tid = VInt tid) then
        e <~ getitem diffs "injected_thread" ;;
        record_thread tid rest (<["injected_thread" := append_new t e]> diffs)
      else record_thread tid rest diffs
  end.

(** The [VirtualProtectEx] follow-up. *)
Definition rerun_malfind (args : gmap string value)
    (diffs : gmap string diff_entry) : res (gmap string diff_entry) :=
  protection <~ getitem args "Protection" ;;
  code <~ py_int16 tbl protection ;;
  verbal_protect <~ match PAGE_PROTECTIONS tbl !! code with
                    | Some v => Ok v
                    | None => Raise (KeyError "PAGE_PROTECTIONS")
                    end ;;
  _ <~ match filter (fun kv => snd kv = verbal_protect) (PROTECT_FLAGS tbl) with
       | kv :: _ => Ok (fst kv)
       | [] => Raise IndexError
       end ;;
  let execute := contains "EXECUTE" verbal_protect in
  e <~ getitem diffs "diff_malfind" ;;
  pid <~ getitem args "ProcessId" ;;
  address <~ getitem args "Address" ;;
  address <~ py_int16 tbl address ;;
  m <~ malfind vol execute (py_str tbl pid) address ;;
  let diffs := <["diff_malfind" :=
                   (if execute then append_new m e else append_deleted m e)]>
                 diffs in
  e <~ getitem diffs "diff_malfind" ;;
  Ok (<["diff_malfind" := with_star "yes" e]> diffs).

(** The [if trigger == "ZwLoadDriver": ... elif ...] chain. *)
Definition follow_up (trigger : string) (args : gmap string value)
    (diffs : gmap string diff_entry) : res (gmap string diff_entry) :=
  if decide (trigger = "ZwLoadDriver") then
    patches <~ patcher vol ;;
    dump_new_drivers patches diffs
  else if bool_decide (trigger = "SetWindowsHookExA")
          || bool_decide (trigger = "SetWindowsHookExW") then
    match diffs !! "diff_messagehooks" with
    | Some e => dump_hook_modules (diff_new e) diffs
    | None => Ok diffs
    end
  else if decide (trigger = "VirtualProtectEx") then
    rerun_malfind args diffs
  else if decide
            (trigger = "WriteProcessMemory -> CreateRemoteThread -> LoadLibrary")
  then
    pid <~ getitem args "ProcessId" ;;
    base <~ getitem args "BaseAddress" ;;
    base <~ py_int16 tbl base ;;
    new_dlldump <~ dlldump vol (py_str tbl pid) base ;;
    Ok (<["injected_dll" :=
            fresh_entry "yes" "Finds the injected dll and dumps it"
                        new_dlldump ∅]> diffs)
  else if decide (trigger = "NtSetContextThread -> NtResumeThread") then
    pid <~ getitem args "ProcessId" ;;
    tid <~ getitem args "ThreadId" ;;
    tid <~ py_int tbl tid ;;
    let diffs := <["injected_thread" :=
                     fresh_entry "yes" "Shows the injected thread" [] ∅]>
                   diffs in
    ts <~ threads vol (py_str tbl pid) ;;
    record_thread tid ts diffs
  else if decide (trigger = "WriteProcessMemory -> CreateRemoteThread") then
    start <~ getitem args "StartRoutine" ;;
    start <~ py_int16 tbl start ;;
    pid <~ getitem args "ProcessId" ;;
    tid <~ getitem args "ThreadId" ;;
    tid <~ py_int tbl tid ;;
    let dis := match disasm_from_memory vol (py_str tbl pid) start with
               | Some d => VStr d
               | None => VNone
               end in
    let diffs := <["injected_thread" :=
                     fresh_entry "yes" "Shows the injected thread" []
                                 {["disassembly" := dis]}]> diffs in
    ts <~ threads vol (py_str tbl pid) ;;
    record_thread tid ts diffs
  else Ok diffs.

(** The part of [run_memory_analysis] after the baseline loop, on the
    [mem_analysis["diffs"]] that loop produced.  [info] is
    [self.info["trigger"]], name and arguments; [None] when no [info.json]
    was found, and subscripting [None] raises [TypeError]. *)
Definition escalate (is_clean : bool)
    (info : option (string * gmap string value))
    (diffs : gmap string diff_entry) : res (gmap string diff_entry) :=
  if is_clean then Ok diffs else
  match info with
  | None => Raise TypeError
  | Some (trigger, args) =>
      let smart_analysis := parse_trigger_plugins trigger in
      let diffs := <["injected_thread" :=
                       fresh_entry "no" "Shows the injected thread" [] ∅]>
                     diffs in
      let diffs := <["injected_dll" :=
                       fresh_entry "no" "Finds the injected dll and dumps it"
                                   [] ∅]> diffs in
      if smart_analysis then
        let diffs := match TRIGGER_PLUGINS tbl !! trigger with
                     | Some plugins => star_plugins plugins diffs
                     | None => diffs
                     end in
        let diffs := if decide (trigger = "monitorCPU")
                     then star_if_present "diff_heap_entropy" diffs
                     else diffs in
        follow_up trigger args diffs
      else Ok diffs
  end.

End Escalation.

(** *** Vocabulary of the properties *)

(** [c] is the dictionary of a record listed, for one of [deps], in [s]. *)
Definition listed (s : snapshot) (deps : list string) (c : gmap string value)
  : Prop :=
  exists dep f d, dep ∈ deps /\ s !! dep = Some f /\ d ∈ data f /\ fields d = c.

(** A [dlllist] record with the keys the diff reads. *)
Definition dll_record (p : record) : Prop :=
  is_Some (fields p !! "process_id") /\
  is_Some (fields p !! "process_name") /\
  exists modules, loaded_modules p = Some modules /\
    forall m, m ∈ modules -> is_Some (m !! "dll_full_name").

(** [r] is a module of a process of [new_data] whose id is also the id of a
    process of [old]; [old_p] is the first such process of [old], and no
    module of [old_p] has the full name of [r]; [r] carries the id and the
    name of its process. *)
Definition new_dll (old : snapshot) (new_data : list record)
    (r : gmap string value) : Prop :=
  exists proc fo old_p before after pid pname modules old_modules module,
    proc ∈ new_data /\
    fields proc !! "process_id" = Some pid /\
    fields proc !! "process_name" = Some pname /\
    old !! "dlllist" = Some fo /\
    data fo = before ++ old_p :: after /\
    fields old_p !! "process_id" = Some pid /\
    (forall p, p ∈ before -> fields p !! "process_id" <> Some pid) /\
    loaded_modules proc = Some modules /\ module ∈ modules /\
    loaded_modules old_p = Some old_modules /\
    (forall m, m ∈ old_modules ->
       m !! "dll_full_name" <> module !! "dll_full_name") /\
    r = <["process_name" := pname]> (<["process_id" := pid]> module).

(** [d'] keeps the entries of [d] and their stars, and has no entry [d]
    lacks, except for the two injection entries. *)
Definition extends (d d' : gmap string diff_entry) : Prop :=
  (forall k e, d !! k = Some e ->
     exists e', d' !! k = Some e' /\
                (diff_star e = "yes" -> diff_star e' = "yes")) /\
  (forall k, d !! k = None -> k <> "injected_thread" -> k <> "injected_dll" ->
             d' !! k = None).

(** *** The field diffs: [get_new_by_field] and its instances *)

#[global] Instance record_eq_dec : EqDecision record.
Proof. solve_decision. Defined.

(** [o2[f]] on a record of a [data] list: a scalar, or the module list under
    [loaded_modules] ([None]: a value that no scalar equals). *)
Definition record_getitem (o2 : record) (f : string) : res (option value) :=
  match MemoryAnalysis.fields o2 !! f with
  | Some v => Ok (Some v)
  | None =>
      if decide (f = "loaded_modules") then
        match loaded_modules o2 with
        | Some _ => Ok None
        | None => Raise (KeyError f)
        end
      else Raise (KeyError f)
  end.

(** [for f in fields: if not o[f] == o2[f]: similar = False; break] *)
Fixpoint similar (o : gmap string value) (o2 : record) (fields : list string)
  : res bool :=
  match fields with
  | [] => Ok true
  | f :: rest =>
      a <~ getitem o f ;;
      b <~ record_getitem o2 f ;;
      if decide (Some a = b) then similar o o2 rest else Ok false
  end.

(** [for o2 in old[deps[0]]['data']: ... if similar: exist = True; break] *)
Fixpoint exists_similar (o : gmap string value) (old_data : list record)
    (fields : list string) : res bool :=
  match old_data with
  | [] => Ok false
  | o2 :: rest =>
      s <~ similar o o2 fields ;;
      if s then Ok true else exists_similar o rest fields
  end.

(** [deps[0]] *)
Definition first_dep (deps : list string) : res string :=
  match deps with
  | dep :: _ => Ok dep
  | [] => Raise IndexError
  end.

(** The loop over [found_objs]; [old[deps[0]]['data']] is evaluated anew for
    every found object. *)
Fixpoint keep_new_by_field (old : snapshot) (deps fields : list string)
    (found_objs new_objs : list (gmap string value))
  : res (list (gmap string value)) :=
  match found_objs with
  | [] => Ok new_objs
  | o :: rest =>
      dep <~ first_dep deps ;;
      fo <~ getitem old dep ;;
      exist <~ exists_similar o (data fo) fields ;;
      keep_new_by_field old deps fields rest
        (if exist then new_objs else new_objs ++ [o])
  end.

Definition get_new_by_field (old new : snapshot) (deps fields : list string)
  : res (list (gmap string value)) :=
  found_objs <~ get_new_objects old new deps ;;
  keep_new_by_field old deps fields found_objs [].

Definition get_new_handles (old new : snapshot) (deps : list string) :=
  get_new_by_field old new deps ["process_id"; "handle_value"].

Definition get_new_timers (old new : snapshot) (deps : list string) :=
  get_new_by_field old new deps ["offset"].

Definition get_new_mutants (old new : snapshot) (deps : list string) :=
  get_new_by_field old new deps ["mutant_name"].

Definition get_new_processes (old new : snapshot) (deps : list string) :=
  get_new_by_field old new deps ["process_id"].

Definition get_new_services (old new : snapshot) (deps : list string) :=
  get_new_by_field old new deps ["service_name"].

(** *** The injected-code diff: [get_new_malfind] *)

(** ["{0:#x}".format(n)] *)
Definition format_sharp_x (n : Z) : string :=
  if n <? 0 then String.append "-0x" (hex_of (- n))
  else String.append "0x" (hex_of n).

(** [for m in found_mals: if not (m["process_name"] == "python.exe"): ...] *)
Fixpoint keep_mals (found_mals new_mals : list (gmap string value))
  : res (list (gmap string value)) :=
  match found_mals with
  | [] => Ok new_mals
  | m :: rest =>
      name <~ getitem m "process_name" ;;
      keep_mals rest
        (if decide (name = VStr "python.exe") then new_mals
         else new_mals ++ [m])
  end.

(** The name of the dump file of a finding: computed outside the [try], so
    a finding without the two keys, or with an offset that is no number,
    raises. *)
Definition dump_name (t : tables) (new_mal : gmap string value) : res string :=
  offset <~ getitem new_mal "offset" ;;
  vad_start <~ getitem new_mal "vad_start" ;;
  vad_start <~ py_int16 t vad_start ;;
  match offset with
  | VInt offset =>
      Ok (String.append "process."
            (String.append (format_sharp_x offset)
               (String.append "."
                  (String.append (format_sharp_x vad_start) ".dmp"))))
  | _ => Raise ValueError
  end.

(** The copies of the dump files, as [(source, destination)]; a copy that
    fails is swallowed, and so is the removal of the two dump directories
    that follows, so that they show in the file system only. *)
Fixpoint copy_dumps (t : tables) (dump_dir malfinds_dir : string)
    (new_mals : list (gmap string value)) (copies : list (string * string))
  : res (list (string * string)) :=
  match new_mals with
  | [] => Ok copies
  | new_mal :: rest =>
      name <~ dump_name t new_mal ;;
      copy_dumps t dump_dir malfinds_dir rest
        (copies ++ [(String.append dump_dir (String.append "//" name),
                     String.append malfinds_dir name)])
  end.

(** [malfinds_dir] is [os.path.join(os.path.dirname(self.memfile),
    "malfinds//")]; the result pairs the returned findings with the copies
    asked of the file system. *)
Definition get_new_malfind (t : tables) (malfinds_dir : string)
    (old new : snapshot) (deps : list string) (dump_dir : option string)
  : res (list (gmap string value) * list (string * string)) :=
  found_mals <~ get_new_objects old new deps ;;
  new_mals <~ keep_mals found_mals [] ;;
  match dump_dir with
  | Some dump_dir =>
      copies <~ copy_dumps t dump_dir malfinds_dir new_mals [] ;;
      Ok (new_mals, copies)
  | None => Ok (new_mals, [])
  end.

(** *** The hidden-process diff: [get_new_hidden_processes] *)

(** [for (attr, val) in rule.iteritems(): if proc[attr] != val: ...]; a rule
    is given by its items in the order of the iteration. *)
Fixpoint rule_holds (proc : gmap string value) (rule : list (string * value))
  : res bool :=
  match rule with
  | [] => Ok true
  | (attr, val) :: rest =>
      v <~ getitem proc attr ;;
      if decide (v <> val) then Ok false else rule_holds proc rest
  end.

(** [for rule in PSXSCAN_RULES: ... if should_add and
    proc['process_name'] != "python.exe": hidden.append(proc); break] *)
Fixpoint matches_rule (proc : gmap string value)
    (rules : list (list (string * value))) : res bool :=
  match rules with
  | [] => Ok false
  | rule :: rest =>
      should_add <~ rule_holds proc rule ;;
      if should_add then
        name <~ getitem proc "process_name" ;;
        if decide (name <> VStr "python.exe") then Ok true
        else matches_rule proc rest
      else matches_rule proc rest
  end.

Fixpoint keep_hidden (PSXSCAN_RULES : list (list (string * value)))
    (proclist hidden : list (gmap string value))
  : res (list (gmap string value)) :=
  match proclist with
  | [] => Ok hidden
  | proc :: rest =>
      b <~ matches_rule proc PSXSCAN_RULES ;;
      keep_hidden PSXSCAN_RULES rest (if b then hidden ++ [proc] else hidden)
  end.

(** [PSXSCAN_RULES] is the table of [memoryanalysisconsts]. *)
Definition get_new_hidden_processes
    (PSXSCAN_RULES : list (list (string * value)))
    (old new : snapshot) (deps : list string)
  : res (list (gmap string value)) :=
  proclist <~ get_new_processes old new deps ;;
  keep_hidden PSXSCAN_RULES proclist [].

(** *** The device diff: [get_new_devices] *)

(** A record of the [devicetree] facet: a driver with the list of its
    devices under [devices] ([None]: no such key). *)
Record driver : Type := Driver {
  driver_fields : gmap string value;
  devices : option (list (gmap string value))
}.

(** A snapshot of driver facets, each by its [data] list. *)
Abbreviation driver_snapshot := (gmap string (list driver)).

(** [new_driver["devices"]] *)
Definition devices_of (d : driver) : res (list (gmap string value)) :=
  match devices d with
  | Some l => Ok l
  | None => Raise (KeyError "devices")
  end.

(** The loop over [old_devices]: [and] reads the types only when the names
    are equal. *)
Fixpoint device_among (old_devices : list (gmap string value))
    (new_device : gmap string value) : res bool :=
  match old_devices with
  | [] => Ok false
  | old_device :: rest =>
      a <~ getitem old_device "device_name" ;;
      b <~ getitem new_device "device_name" ;;
      if decide (a = b) then
        c <~ getitem old_device "device_type" ;;
        e <~ getitem new_device "device_type" ;;
        if decide (c = e) then Ok true else device_among rest new_device
      else device_among rest new_device
  end.

(** The loop over [old_drivers]; [true] stands for [is_new = False]. *)
Fixpoint device_known (old_drivers : list driver)
    (new_device : gmap string value) : res bool :=
  match old_drivers with
  | [] => Ok false
  | old_driver :: rest =>
      old_devices <~ devices_of old_driver ;;
      known <~ device_among old_devices new_device ;;
      if known then Ok true else device_known rest new_device
  end.

Fixpoint scan_devices (old_drivers : list driver)
    (new_devices found_devs : list (gmap string value))
  : res (list (gmap string value)) :=
  match new_devices with
  | [] => Ok found_devs
  | new_device :: rest =>
      known <~ device_known old_drivers new_device ;;
      scan_devices old_drivers rest
        (if known then found_devs else found_devs ++ [new_device])
  end.

Fixpoint scan_drivers (old_drivers new_drivers : list driver)
    (found_devs : list (gmap string value)) : res (list (gmap string value)) :=
  match new_drivers with
  | [] => Ok found_devs
  | new_driver :: rest =>
      new_devices <~ devices_of new_driver ;;
      found_devs <~ scan_devices old_drivers new_devices found_devs ;;
      scan_drivers old_drivers rest found_devs
  end.

Definition get_new_devices (old new : driver_snapshot) (deps : list string)
  : res (list (gmap string value)) :=
  dep <~ first_dep deps ;;
  old_drivers <~ getitem old dep ;;
  dep <~ first_dep deps ;;
  new_drivers <~ getitem new dep ;;
  scan_drivers old_drivers new_drivers [].

(** *** The autostart keys: [get_autostart_reg_keys] *)

(** A string method called on a value. *)
Definition str_of (v : value) (e : exn) : res string :=
  match v with
  | VStr s => Ok s
  | _ => Raise e
  end.

(** [for k in AUTOSTART_REG_KEYS: if k in new_handle["handle_value"].lower():
    is_autostart = True; break] *)
Fixpoint is_autostart (keys : list string) (new_handle : record) : res bool :=
  match keys with
  | [] => Ok false
  | k :: rest =>
      v <~ getitem (fields new_handle) "handle_value" ;;
      s <~ str_of v AttributeError ;;
      if contains k (lower s) then Ok true else is_autostart rest new_handle
  end.

Fixpoint scan_handles (AUTOSTART_REG_KEYS : list string)
    (handles autostart : list record) : res (list record) :=
  match handles with
  | [] => Ok autostart
  | new_handle :: rest =>
      typ <~ getitem (fields new_handle) "handle_type" ;;
      if decide (typ = VStr "Key") then
        b <~ is_autostart AUTOSTART_REG_KEYS new_handle ;;
        scan_handles AUTOSTART_REG_KEYS rest
          (if b then autostart ++ [new_handle] else autostart)
      else scan_handles AUTOSTART_REG_KEYS rest autostart
  end.

(** [AUTOSTART_REG_KEYS] is the table of [memoryanalysisconsts]; [old] is
    not read. *)
Definition get_autostart_reg_keys (AUTOSTART_REG_KEYS : list string)
    (old new : snapshot) (deps : list string) : res (list record) :=
  dep <~ first_dep deps ;;
  fn <~ getitem new dep ;;
  scan_handles AUTOSTART_REG_KEYS (data fn) [].

(** *** The sample's process: [get_malware_proc] *)

(** [for new_proc in processes: if "m.exe" in new_proc["process_name"]: ...];
    [in] on anything but a string raises [TypeError]. *)
Fixpoint first_mal_exe (processes : list record) : res (option record) :=
  match processes with
  | [] => Ok None
  | new_proc :: rest =>
      name <~ getitem (fields new_proc) "process_name" ;;
      name <~ str_of name TypeError ;;
      if contains "m.exe" name then Ok (Some new_proc) else first_mal_exe rest
  end.

Definition get_malware_proc (old new : snapshot) (deps : list string)
  : res (option record) :=
  fn <~ getitem new "psxview" ;;
  first_mal_exe (data fn).

(** *** Sections and resources: [get_new_pe_objects] *)

(** What the static analysis of an executable returns, by object type. *)
Abbreviation static := (gmap string (list (gmap string value))).

(** [for new_ob in static_from_memory[object_type]: if new_ob["name"] ==
    ob_name: ...; break] *)
Fixpoint find_named (ob_name : value) (new_obs : list (gmap string value))
  : res (option (gmap string value)) :=
  match new_obs with
  | [] => Ok None
  | new_ob :: rest =>
      name <~ getitem new_ob "name" ;;
      if decide (name = ob_name) then Ok (Some new_ob)
      else find_named ob_name rest
  end.

(** The first loop; [static_from_memory[object_type]] is evaluated anew for
    every old object. *)
Fixpoint match_obs (object_type : string) (static_from_memory : static)
    (old_obs : list (gmap string value))
    (matched_obs : list (gmap string value * gmap string value))
    (deleted_obs : list (gmap string value))
  : res (list (gmap string value * gmap string value)
         * list (gmap string value)) :=
  match old_obs with
  | [] => Ok (matched_obs, deleted_obs)
  | old_ob :: rest =>
      ob_name <~ getitem old_ob "name" ;;
      new_obs <~ getitem static_from_memory object_type ;;
      m <~ find_named ob_name new_obs ;;
      match m with
      | Some new_ob =>
          match_obs object_type static_from_memory rest
                    (matched_obs ++ [(old_ob, new_ob)]) deleted_obs
      | None =>
          match_obs object_type static_from_memory rest
                    matched_obs (deleted_obs ++ [old_ob])
      end
  end.

Definition get_new_pe_objects (object_type : string)
    (static_from_exe static_from_memory : static)
  : res (list (gmap string value * gmap string value)
         * list (gmap string value) * list (gmap string value)) :=
  old_obs <~ getitem static_from_exe object_type ;;
  p <~ match_obs object_type static_from_memory old_obs [] [] ;;
  let '(matched_obs, deleted_obs) := p in
  let new_matched_obs := map snd matched_obs in
  all_new <~ getitem static_from_memory object_type ;;
  let new_obs :=
    filter (fun new_ob => new_ob ∉ new_matched_obs) all_new in
  Ok (matched_obs, new_obs, deleted_obs).

(** *** One diff of the baseline loop: [run_memory_plugin] *)

(** An entry of [mem_analysis["diffs"]] while it is built: the keys are set
    one after the other, and an analysis function that raises leaves the
    entry with the keys set so far. *)
Record plugin_entry : Type := PluginEntry {
  entry_desc : string;
  entry_new : option (list (gmap string value));
  entry_deleted : option (list (gmap string value));
  entry_star : option string
}.

(** The keyword arguments of a call, [**attrs]. *)
Definition keywords : Type := gmap string value.

(** A method declared [def f(self, old, new, deps)] and called as
    [f(old, new, deps, **attrs)]: it takes no keyword, so any keyword is a
    TypeError, raised before the body runs. *)
Definition without_keywords {A} (attrs : keywords) (body : res A) : res A :=
  if decide (attrs = ∅) then body else Raise TypeError.

(** A diff method of the class, as [run_memory_plugin] calls it. *)
Definition analysis_func : Type :=
  snapshot -> snapshot -> list string -> keywords ->
  res (list (gmap string value)).

Section RunMemoryPlugin.

(** [getattr(conf, memfunc).desc] of [conf/memory.conf]. *)
Variable desc_of : string -> res string.

(** The two tables of [memoryanalysisconsts]. *)
Variable MEMORY_ANALYSIS_DEPENDENCIES : gmap string (list string).
Variable MEMORY_ANALYSIS_FUNCTIONS : gmap string string.

(** [getattr(self, name)]; [None]: no such method. *)
Variable method : string -> option analysis_func.

(** [[
    if memoryanalysisconsts.MEMORY_ANALYSIS_FUNCTIONS.has_key(memfunc):
        analysis_func = getattr(self, memoryanalysisconsts.MEMORY_ANALYSIS_FUNCTIONS[memfunc])
    else:
        analysis_func = self.get_new_objects
    ]] *)
Definition analysis_func_of (memfunc : string) : res analysis_func :=
  match MEMORY_ANALYSIS_FUNCTIONS !! memfunc with
  | Some name =>
      match method name with
      | Some f => Ok f
      | None => Raise AttributeError
      end
  | None =>
      Ok (fun old new deps attrs =>
            without_keywords attrs (get_new_objects old new deps))
  end.

Definition set_entry (memfunc : string) (e : plugin_entry)
  : M (gmap string plugin_entry) unit :=
  modify (fun diffs => <[memfunc := e]> diffs).

Definition run_memory_plugin (memfunc : string) (clean new_results : snapshot)
    (attrs : keywords) : M (gmap string plugin_entry) unit :=
  desc <- lift (desc_of memfunc) ;;
  deps <- lift (getitem MEMORY_ANALYSIS_DEPENDENCIES memfunc) ;;
  analysis_func <- lift (analysis_func_of memfunc) ;;
  diffs <- get ;;
  match diffs !! memfunc with
  | Some _ => ret tt
  | None =>
      set_entry memfunc {| entry_desc := desc; entry_new := None;
                           entry_deleted := None; entry_star := None |} ;;;
      new <- lift (analysis_func clean new_results deps attrs) ;;
      set_entry memfunc {| entry_desc := desc; entry_new := Some new;
                           entry_deleted := None; entry_star := None |} ;;;
      deleted <- lift (analysis_func new_results clean deps attrs) ;;
      set_entry memfunc {| entry_desc := desc; entry_new := Some new;
                           entry_deleted := Some deleted;
                           entry_star := None |} ;;;
      set_entry memfunc {| entry_desc := desc; entry_new := Some new;
                           entry_deleted := Some deleted;
                           entry_star := Some "no" |}
  end.

End RunMemoryPlugin.

(** *** Vocabulary of the field diffs *)

(** [o] and the record [o2] hold equal values under every one of [fields]. *)
Definition agree (o : gmap string value) (o2 : record) (fields : list string)
  : Prop :=
  forall f, f ∈ fields ->
    exists v, o !! f = Some v /\ MemoryAnalysis.fields o2 !! f = Some v.

(** [proc] has every value the rule asks for. *)
Definition satisfies (proc : gmap string value) (rule : list (string * value))
  : Prop :=
  forall attr val, (attr, val) ∈ rule -> proc !! attr = Some val.

(** [a] and [b] have the same name and the same type, as devices. *)
Definition same_device (a b : gmap string value) : Prop :=
  exists n t,
    a !! "device_name" = Some n /\ b !! "device_name" = Some n /\
    a !! "device_type" = Some t /\ b !! "device_type" = Some t.

(** The devices of all drivers, in order. *)
Fixpoint all_devices (drivers : list driver) : list (gmap string value) :=
  match drivers with
  | [] => []
  | d :: rest => default [] (devices d) ++ all_devices rest
  end.

#[global] Instance same_device_dec a b : Decision (same_device a b).
Proof.
  destruct (decide (is_Some (a !! "device_name") /\
                    a !! "device_name" = b !! "device_name" /\
                    is_Some (a !! "device_type") /\
                    a !! "device_type" = b !! "device_type"))
    as [Hyes|Hno]; [left|right].
  - destruct Hyes as ([n Hn] & Hnb & [t Ht] & Htb). exists n, t.
    rewrite <- Hnb, <- Htb. done.
  - intros (n & t & Hn & Hnb & Ht & Htb). apply Hno.
    rewrite Hn, Hnb, Ht, Htb. done.
Defined.

(** [x] has the name and the type of none of [old_devices]. *)
Definition device_is_new (old_devices : list (gmap string value))
    (x : gmap string value) : Prop :=
  Forall (fun y => ~ same_device y x) old_devices.

#[global] Instance device_is_new_dec old_devices x :
  Decision (device_is_new old_devices x).
Proof. unfold device_is_new. apply _. Defined.

(** Decidable equality of diff entries, for the evaluation of examples. *)
#[global] Instance diff_entry_eq_dec : EqDecision diff_entry.
Proof. solve_decision. Defined.

End MemoryAnalysis.

(** ** lib/cuckoo/common/netlog.py *)

Module Netlog.

Local Open Scope py_scope.

(** *** Decoded values *)

(** An element of a decoded argument list: a scalar or a list of scalars.
    Deeper nesting is outside the model. *)
Inductive element : Type :=
| Scalar (v : value)
| Seq (l : list value).

#[global] Instance element_eq_dec : EqDecision element.
Proof. solve_decision. Defined.

#[global] Instance value_countable : Countable value.
Proof.
  refine (inj_countable'
            (fun v => match v with
                      | VNone => inl tt
                      | VInt z => inr (inl z)
                      | VStr s => inr (inr s)
                      end)
            (fun x => match x with
                      | inl _ => VNone
                      | inr (inl z) => VInt z
                      | inr (inr s) => VStr s
                      end) _).
  intros []; reflexivity.
Defined.

(** An argument dictionary: argument names (any scalar) to converted values. *)
Abbreviation argdict := (gmap value element).

(** [argdict["name"]] *)
Definition arg (d : argdict) (name : string) : res element :=
  match d !! VStr name with
  | Some v => Ok v
  | None => Raise (KeyError name)
  end.

(** A decoded BSON value as a field of a message holds it: a scalar, an
    array, or an embedded document, given by its items in the order of
    iteration (the keys of a BSON document are strings).  Only a scalar can
    be a key of a dictionary: arrays and documents are unhashable. *)
Inductive bson : Type :=
| BVal (v : value)
| BArray (l : list element)
| BDoc (items : list (string * element)).

#[global] Instance bson_eq_dec : EqDecision bson.
Proof. solve_decision. Defined.

(** An argument value where a field value is expected. *)
Definition of_element (e : element) : bson :=
  match e with
  | Scalar v => BVal v
  | Seq l => BArray (map Scalar l)
  end.

(** [for i in x]: what a loop over the value sees.  A string yields its
    characters and a document its keys; a number or [None] is not
    iterable. *)
Definition py_iter (x : bson) : res (list element) :=
  match x with
  | BArray l => Ok l
  | BDoc items => Ok (map (fun kv => Scalar (VStr (fst kv))) items)
  | BVal (VStr s) =>
      Ok (map (fun c => Scalar (VStr (String c EmptyString)))
              (list_ascii_of_string s))
  | BVal _ => Raise TypeError
  end.

(** [len(x)] *)
Definition py_len (x : bson) : res nat :=
  match x with
  | BArray l => Ok (length l)
  | BDoc items => Ok (length items)
  | BVal (VStr s) => Ok (String.length s)
  | BVal _ => Raise TypeError
  end.

(** [x.items()]: only a document has the method. *)
Definition py_items (x : bson) : res (list (value * element)) :=
  match x with
  | BDoc items => Ok (map (fun kv => (VStr (fst kv), snd kv)) items)
  | _ => Raise AttributeError
  end.

(** [x] as a key of a dictionary, or in a membership test on one. *)
Definition hashable (x : bson) : res value :=
  match x with
  | BVal v => Ok v
  | _ => Raise TypeError
  end.

(** *** The result handler *)

(** The calls the decoders make on [self.handler] that change something or
    reach the outside, in the order made; [VolshellSession] and
    [DebuggerSession] stand for the two waits of the parser itself. *)
Inductive event : Type :=
| LogProcess (context : list bson) (vmtime : value) (pid ppid : element)
             (modulepath : element) (procname : string)
| LogThread (context : list bson) (pid : element)
| LogCall (context : list bson) (apiname category : string)
          (arguments : list (value * element))
| DumpMemory (apiname : string) (args : argdict)
| ReduceTimes (apiname : string)
| SetApis (l : list (string * argdict))
| RemoveFromApis (x : string * argdict)
| SuspendMachine
| ResumeMachine
| VolshellSession       (* the wait for the marker file of [call_volshell] *)
| DebuggerSession.      (* the [pdb] prompt of [breakpoint] *)

(** What the operator types at a debugger prompt. *)
Inductive console_cmd : Type :=
| SetBp (api : string)
| SetVolshellBp (api : string).

(** Modelled from the spec: the handler class (the connection handler of the
    result server) is not among the sources.  Its state is the byte source
    of the spec's Byte Source contract, the Call History, the remaining fire
    counts of the TriggerRules, the two breakpoint lists and what the
    operator will type; [reads] and [evaluated] are ghost logs and [events]
    is the trace of its calls. *)
Record handler : Type := Handler {
  stream : list byte;                  (* the bytes not read yet *)
  reads : list Z;                      (* ghost: the sizes asked of [read] *)
  server : bool;                       (* [hasattr(handler, "server")] *)
  has_set_apis : bool;                 (* [hasattr(handler, "set_apis")] *)
  apis : list (string * argdict);      (* the call history, oldest first *)
  times : gmap string Z;               (* remaining fire counts *)
  bps : list string;
  volshell_bps : list string;
  console : list (list console_cmd);   (* the debugger sessions to come *)
  evaluated : list (string * argdict); (* ghost: trigger evaluations *)
  events : list event
}.

Definition set_stream (s : list byte) (rs : list Z) (h : handler) : handler :=
  {| stream := s; reads := rs; server := server h;
     has_set_apis := has_set_apis h; apis := apis h; times := times h;
     bps := bps h; volshell_bps := volshell_bps h; console := console h;
     evaluated := evaluated h; events := events h |}.

Definition with_apis (l : list (string * argdict)) (h : handler) : handler :=
  {| stream := stream h; reads := reads h; server := server h;
     has_set_apis := has_set_apis h; apis := l; times := times h;
     bps := bps h; volshell_bps := volshell_bps h; console := console h;
     evaluated := evaluated h; events := events h |}.

Definition with_times (t : gmap string Z) (h : handler) : handler :=
  {| stream := stream h; reads := reads h; server := server h;
     has_set_apis := has_set_apis h; apis := apis h; times := t;
     bps := bps h; volshell_bps := volshell_bps h; console := console h;
     evaluated := evaluated h; events := events h |}.

Definition with_bps (b vb : list string) (c : list (list console_cmd))
    (h : handler) : handler :=
  {| stream := stream h; reads := reads h; server := server h;
     has_set_apis := has_set_apis h; apis := apis h; times := times h;
     bps := b; volshell_bps := vb; console := c;
     evaluated := evaluated h; events := events h |}.

Definition with_evaluated (l : list (string * argdict)) (h : handler)
  : handler :=
  {| stream := stream h; reads := reads h; server := server h;
     has_set_apis := has_set_apis h; apis := apis h; times := times h;
     bps := bps h; volshell_bps := volshell_bps h; console := console h;
     evaluated := l; events := events h |}.

Definition with_events (l : list event) (h : handler) : handler :=
  {| stream := stream h; reads := reads h; server := server h;
     has_set_apis := has_set_apis h; apis := apis h; times := times h;
     bps := bps h; volshell_bps := volshell_bps h; console := console h;
     evaluated := evaluated h; events := l |}.

(** Modelled from the spec: [handler.read(n)] returns exactly [n] bytes, or
    the stream has ended, which is fatal.  A request for no bytes (or fewer)
    returns at once. *)
Definition read (n : Z) : M handler (list byte) :=
  fun h =>
    let rs := reads h ++ [n] in
    if n <=? Z.of_nat (length (stream h)) then
      (Ok (take (Z.to_nat n) (stream h)),
       set_stream (drop (Z.to_nat n) (stream h)) rs h)
    else (Raise Disconnect, set_stream [] rs h).

(** A call that only leaves its trace. *)
Definition emit (e : event) : M handler unit :=
  modify (fun h => with_events (events h ++ [e]) h).

(** Modelled from the spec: [set_apis(l)] appends [l] to the Call History. *)
Definition set_apis (l : list (string * argdict)) : M handler unit :=
  emit (SetApis l) ;;;
  modify (fun h => with_apis (apis h ++ l) h).

(** Modelled from the spec: [get_apis()] returns the Call History. *)
Definition get_apis : M handler (list (string * argdict)) :=
  fun h => (Ok (apis h), h).

Fixpoint remove_first (x : string * argdict) (l : list (string * argdict))
  : option (list (string * argdict)) :=
  match l with
  | [] => None
  | y :: rest =>
      if decide (y = x) then Some rest
      else match remove_first x rest with
           | Some rest' => Some (y :: rest')
           | None => None
           end
  end.

(** Modelled from the spec: [remove_from_apis(x)] removes from the Call
    History the first entry equal to [x], as [list.remove] does, with
    [ValueError] when there is none. *)
Definition remove_from_apis (x : string * argdict) : M handler unit :=
  emit (RemoveFromApis x) ;;;
  fun h =>
    match remove_first x (apis h) with
    | Some l => (Ok tt, with_apis l h)
    | None => (Raise ValueError, h)
    end.

(** Modelled from the spec: [get_times(api)] is the remaining fire count of
    the rule for [api], none left when no count is kept for it. *)
Definition get_times (api : string) (h : handler) : Z :=
  default 0 (times h !! api).

(** Modelled from the spec: [reduce_times(api)] takes one off the remaining
    fire count. *)
Definition reduce_times (api : string) : M handler unit :=
  emit (ReduceTimes api) ;;;
  modify (fun h => with_times (<[api := get_times api h - 1]> (times h)) h).

(** Modelled from the spec: [set_bp(api)] and [set_volshell_bp(api)] arm a
    breakpoint for [api]; [get_bps()] and [get_volshell_bps()] return the
    lists. *)
Definition set_bp (api : string) (h : handler) : handler :=
  with_bps (bps h ++ [api]) (volshell_bps h) (console h) h.

Definition set_volshell_bp (api : string) (h : handler) : handler :=
  with_bps (bps h) (volshell_bps h ++ [api]) (console h) h.

(** *** The external collaborators of the decoders *)

(** A decoded BSON document, by the keys the decoder reads. *)
Record document : Type := Document {
  doc_type : option string;        (* "type" *)
  doc_I : option bson;             (* "I" *)
  doc_T : option value;            (* "T" *)
  doc_t : option value;            (* "t" *)
  doc_name : option string;        (* "name" *)
  doc_args : option bson;          (* "args" *)
  doc_category : option string;    (* "category" *)
  doc_msg : option string;         (* "msg" *)
  doc_starttime : option value;    (* "starttime" *)
  doc_aux : option bson            (* "aux" *)
}.

Record environment : Type := Env {
  (* [lib.cuckoo.common.logtbl.table]: (apiname, modulename, parseinfo),
     parseinfo being the format string followed by the argument names *)
  LOGTBL : list (string * string * (string * list string));
  (* [lib.cuckoo.common.defines] *)
  REG_SZ : Z;
  REG_EXPAND_SZ : Z;
  REG_DWORD_BIG_ENDIAN : Z;
  REG_DWORD_LITTLE_ENDIAN : Z;
  (* [lib.cuckoo.common.utils.get_filename_from_path] *)
  get_filename_from_path : string -> string;
  (* [bson_decode]; [None] when it raises *)
  bson_decode : list byte -> option document;
  (* whether [datetime.fromtimestamp] accepts the Unix time of a FILETIME
     (the floating-point conversion itself is not modelled) *)
  filetime_ok : Z -> bool;
  (* whether [datetime.fromtimestamp] accepts a "starttime" *)
  starttime_ok : value -> bool;
  (* conf/triggers.conf, and [cuckoo.triggered_dumps] of conf/cuckoo.conf *)
  triggers : gmap string TriggersConf.trigger_options;
  triggered_dumps : bool
}.

(** *** [struct.unpack] on unsigned fields, little-endian *)

Fixpoint le (bs : list byte) : Z :=
  match bs with
  | [] => 0
  | b :: rest => Z.of_N (Byte.to_N b) + 256 * le rest
  end.

(** ["I"] *)
Definition unpack_I (bs : list byte) : Z := le (take 4 bs).

(** ["II"] *)
Definition unpack_II (bs : list byte) : Z * Z :=
  (le (take 4 bs), le (take 4 (drop 4 bs))).

(** *** The legacy decoder: [NetlogParser] *)

(** [[
    def expand_format(fs):
        out = ""
        i = 0
        while i<len(fs):
            x = fs[i]
            if x in string.digits:
                out += fs[i+1] * int(x)
                i += 1
            else:
                out += x
            i += 1
        return out
    ]] *)
Definition digit_of (x : ascii) : option nat :=
  let n := N_of_ascii x in
  if ((48 <=? n) && (n <=? 57))%N then Some (N.to_nat (n - 48)) else None.

Fixpoint expand_format (fs : string) : res string :=
  match fs with
  | EmptyString => Ok EmptyString
  | String x rest =>
      match digit_of x with
      | Some k =>
          match rest with
          | EmptyString => Raise IndexError
          | String y rest' =>
              out <~ expand_format rest' ;;
              Ok (String.append (string_of_list_ascii (repeat y k)) out)
          end
      | None =>
          out <~ expand_format rest ;;
          Ok (String x out)
      end
  end.

Definition read_int32 : M handler Z :=
  bs <- read 4 ;; ret (unpack_I bs).

Definition read_ptr : M handler string :=
  value <- read_int32 ;; ret (String.append "0x" (format_08x value)).

Definition read_string : M handler string :=
  hdr <- read 8 ;;
  let '(length, maxlength) := unpack_II hdr in
  if (length <? 0) || (length >? 0x10000) then raise CuckooResultError
  else
    s <- read length ;;
    let s := string_of_list_byte s in
    ret (if maxlength >? length then String.append s "... (truncated)" else s).

Definition read_buffer : M handler string :=
  hdr <- read 8 ;;
  let '(length, maxlength) := unpack_II hdr in
  buf <- read length ;;
  let buf := string_of_list_byte buf in
  ret (if maxlength >? length then String.append buf " ... (truncated)"
       else buf).

Section Legacy.

Variable env : environment.

Definition read_registry : M handler element :=
  typ <- read_int32 ;;
  if bool_decide (typ = REG_DWORD_BIG_ENDIAN env)
     || bool_decide (typ = REG_DWORD_LITTLE_ENDIAN env) then
    value <- read_int32 ;; ret (Scalar (VInt value))
  else if bool_decide (typ = REG_SZ env)
          || bool_decide (typ = REG_EXPAND_SZ env) then
    value <- read_string ;; ret (Scalar (VStr value))
  else ret (Scalar (VStr "(unable to dump buffer content)")).

(** [read_list(fn)]: [count] calls of [fn], collected in order. *)
Fixpoint read_items {A} (fn : M handler A) (count : nat) : M handler (list A) :=
  match count with
  | O => ret []
  | S k => item <- fn ;; ret_ <- read_items fn k ;; ret (item :: ret_)
  end.

Definition read_list {A} (fn : M handler A) : M handler (list A) :=
  count <- read_int32 ;; read_items fn (Z.to_nat count).

Definition read_argv : M handler element :=
  l <- read_list read_string ;; ret (Seq (map VStr l)).

(** [self.formatmap.get(fs, None)] *)
Definition formatmap (fs : ascii) : option (M handler element) :=
  let str := bind read_string (fun s => ret (Scalar (VStr s))) in
  let buf := bind read_buffer (fun s => ret (Scalar (VStr s))) in
  let int := bind read_int32 (fun z => ret (Scalar (VInt z))) in
  let ptr := bind read_ptr (fun s => ret (Scalar (VStr s))) in
  if bool_decide (fs ∈ ["s"; "S"; "u"; "U"; "o"; "O"]%char) then Some str
  else if bool_decide (fs ∈ ["b"; "B"]%char) then Some buf
  else if bool_decide (fs ∈ ["i"; "l"; "L"]%char) then Some int
  else if bool_decide (fs ∈ ["p"; "P"]%char) then Some ptr
  else if bool_decide (fs ∈ ["a"; "A"]%char) then Some read_argv
  else if bool_decide (fs ∈ ["r"; "R"]%char) then Some read_registry
  else None.

(** [try: ... except: return False]: any exception of the body ends the
    message with [False]. *)
Definition try_or_false {A} (body : M handler A)
    (k : A -> M handler bool) : M handler bool :=
  fun h =>
    match body h with
    | (Ok a, h') => k a h'
    | (Raise _, h') => (Ok false, h')
    end.

(** The loop over the expanded format of an API call. *)
Fixpoint read_arguments (formatspecifiers : list ascii)
    (argnames : list string) (arguments : list (value * element))
    (k : list (value * element) -> M handler bool) : M handler bool :=
  match formatspecifiers with
  | [] => k arguments
  | fs :: rest =>
      match argnames with
      | [] => raise IndexError
      | argname :: names =>
          match formatmap fs with
          | Some fn =>
              try_or_false fn (fun r =>
                read_arguments rest names
                               (arguments ++ [(VStr argname, r)]) k)
          | None => read_arguments rest names arguments k
          end
      end
  end.

Definition legacy_read_next_message : M handler bool :=
  hd <- read 2 ;;
  let apiindex := le (take 1 hd) in
  let status := le (take 1 (drop 1 hd)) in
  hd <- read 12 ;;
  let returnval := le (take 4 hd) in
  let tid := le (take 4 (drop 4 hd)) in
  let timediff := le (take 4 (drop 8 hd)) in
  let context := map (fun z => BVal (VInt z))
                     [apiindex; status; returnval; tid; timediff] in
  if decide (apiindex = 0) then
    timelow <- read_int32 ;;
    timehigh <- read_int32 ;;
    let filetime := timelow + Z.shiftl timehigh 32 in
    if negb (filetime_ok env filetime) then ret false else
    pid <- read_int32 ;;
    ppid <- read_int32 ;;
    try_or_false read_string (fun modulepath =>
      let procname := get_filename_from_path env modulepath in
      if (255 <? Z.of_nat (String.length procname)) then ret false else
      emit (LogProcess context (VInt filetime) (Scalar (VInt pid))
                       (Scalar (VInt ppid)) (Scalar (VStr modulepath))
                       procname) ;;;
      ret true)
  else if decide (apiindex = 1) then
    pid <- read_int32 ;;
    emit (LogThread context (Scalar (VInt pid))) ;;;
    ret true
  else
    match LOGTBL env !! Z.to_nat apiindex with
    | None => ret false
    | Some (apiname, modulename, (format, argnames)) =>
        formatspecifiers <- lift (expand_format format) ;;
        read_arguments (list_ascii_of_string formatspecifiers) argnames []
          (fun arguments =>
             emit (LogCall context apiname modulename arguments) ;;;
             ret true)
    end.

End Legacy.

(** *** The self-describing decoder: [BsonParser] *)

Definition MAX_MESSAGE_LENGTH : Z := 20 * 1024 * 1024.

(** [[
    def default_converter(v):
        if type(v) in (int, long) and v < 0:
            return v + 0x100000000
        return v
    ]] *)
Definition default_converter (v : element) : element :=
  match v with
  | Scalar (VInt z) => if z <? 0 then Scalar (VInt (z + 0x100000000)) else v
  | _ => v
  end.

(** [TYPECONVERTERS["p"]]: [lambda v: "0x%08x" % default_converter(v)];
    formatting anything but a number raises [TypeError]. *)
Definition pointer_converter (v : element) : res element :=
  match default_converter v with
  | Scalar (VInt z) => Ok (Scalar (VStr (String.append "0x" (format_08x z))))
  | _ => Raise TypeError
  end.

Inductive converter : Type :=
| DefaultConverter
| PointerConverter.

(** [TYPECONVERTERS.get(k, None)] *)
Definition TYPECONVERTERS (k : value) : option converter :=
  if decide (k = VStr "p") then Some PointerConverter else None.

Definition convert (c : converter) (v : element) : res element :=
  match c with
  | DefaultConverter => Ok (default_converter v)
  | PointerConverter => pointer_converter v
  end.

(** [[i[0] if type(i) in (list, tuple) else i for i in arginfo]] *)
Fixpoint names_of (arginfo : list element) : res (list value) :=
  match arginfo with
  | [] => Ok []
  | i :: rest =>
      n <~ match i with
           | Scalar v => Ok v
           | Seq (v :: _) => Ok v
           | Seq [] => Raise IndexError
           end ;;
      ns <~ names_of rest ;;
      Ok (n :: ns)
  end.

Fixpoint converters_of (arginfo : list element) : res (list converter) :=
  match arginfo with
  | [] => Ok []
  | i :: rest =>
      r <~ match i with
           | Scalar _ => Ok DefaultConverter
           | Seq (_ :: k :: _) =>
               Ok (match TYPECONVERTERS k with
                   | Some r => r
                   | None => DefaultConverter
                   end)
           | Seq _ => Raise IndexError
           end ;;
      rs <~ converters_of rest ;;
      Ok (r :: rs)
  end.

Definition check_names_for_typeinfo (arginfo : list element)
  : res (list value * list converter) :=
  argnames <~ names_of arginfo ;;
  converters <~ converters_of arginfo ;;
  Ok (argnames, converters).

(** An entry of [self.infomap]. *)
Record schema : Type := Schema {
  schema_name : string;
  schema_arginfo : bson;
  schema_argnames : list value;
  schema_converters : list converter;
  schema_category : string
}.

Record parser : Type := Parser {
  handler_of : handler;
  infomap : gmap value schema
}.

(** A method of [self.handler] called from the parser. *)
Definition on_handler {A} (m : M handler A) : M parser A :=
  fun p =>
    let '(r, h) := m (handler_of p) in
    (r, {| handler_of := h; infomap := infomap p |}).

Definition as_int (v : element) : res Z :=
  match v with
  | Scalar (VInt z) => Ok z
  | _ => Raise TypeError
  end.

(** A string method called on a value: [AttributeError] on anything else. *)
Definition as_str (v : element) : res string :=
  match v with
  | Scalar (VStr s) => Ok s
  | _ => Raise AttributeError
  end.

(** [dict((argnames[i], converters[i](args[i])) for i in range(len(args)))] *)
Fixpoint build_argdict (argnames : list value) (converters : list converter)
    (args : list element) (acc : argdict) : res argdict :=
  match args with
  | [] => Ok acc
  | a :: args' =>
      match argnames, converters with
      | n :: argnames', c :: converters' =>
          v <~ convert c a ;;
          build_argdict argnames' converters' args' (<[n := v]> acc)
      | _, _ => Raise IndexError
      end
  end.

(** The first history entry of the given name, as the scans with [break]
    find it. *)
Fixpoint first_named (name : string) (l : list (string * argdict))
  : option argdict :=
  match l with
  | [] => None
  | (n, args) :: rest =>
      if decide (n = name) then Some args else first_named name rest
  end.

(** The second scan of the [LdrLoadDll] branch: the first
    [CreateRemoteThread] entry with the handle of [write_proc_args] and the
    process id of the current call. *)
Fixpoint find_remote_thread (write_proc_args d : argdict)
    (l : list (string * argdict)) : res (option (string * argdict)) :=
  match l with
  | [] => Ok None
  | (name, args) :: rest =>
      if decide (name = "CreateRemoteThread") then
        a <~ arg args "ProcessHandle" ;;
        b <~ arg write_proc_args "ProcessHandle" ;;
        if decide (a = b) then
          c <~ arg d "ProcessId" ;;
          e <~ arg args "ProcessId" ;;
          if decide (c = e) then Ok (Some (name, args))
          else find_remote_thread write_proc_args d rest
        else find_remote_thread write_proc_args d rest
      else find_remote_thread write_proc_args d rest
  end.

(** The dictionary of the current call is the object the history holds as
    its last entry (when the handler has [set_apis]); a later change of the
    dictionary shows there. *)
Definition update_alias (apiname : string) (d : argdict) : M handler unit :=
  modify (fun h =>
    if has_set_apis h
    then with_apis (take (length (apis h) - 1)%nat (apis h) ++ [(apiname, d)]) h
    else h).

Section Bson.

Variable env : environment.

(** [set_event()] and [clear_event()] build a fresh [threading.Event] and
    drop it: no effect. *)
Definition call_volshell : M handler unit :=
  emit SuspendMachine ;;;
  emit VolshellSession ;;;
  emit ResumeMachine.

Definition run_console (cmds : list console_cmd) (h : handler) : handler :=
  fold_left (fun h c => match c with
                        | SetBp api => set_bp api h
                        | SetVolshellBp api => set_volshell_bp api h
                        end) cmds h.

Definition breakpoint : M handler unit :=
  emit SuspendMachine ;;;
  emit DebuggerSession ;;;
  modify (fun h =>
    match console h with
    | [] => h
    | cmds :: later =>
        run_console cmds (with_bps (bps h) (volshell_bps h) later h)
    end) ;;;
  emit ResumeMachine.

Definition execute_trigger_parameters (apiname : string) (d : argdict)
  : M handler unit :=
  modify (fun h => with_evaluated (evaluated h ++ [(apiname, d)]) h) ;;;
  h <- get ;;
  match triggers env !! apiname with
  | Some trig_options =>
      if triggered_dumps env && TriggersConf.enabled trig_options
         && server h && (0 <? get_times apiname h) then
        reduce_times apiname ;;;
        (if TriggersConf.dump_memory trig_options
         then emit (DumpMemory apiname d) else ret tt) ;;;
        h <- get ;;
        (if TriggersConf.break_on_volshell trig_options
            || bool_decide (apiname ∈ volshell_bps h)
         then call_volshell else ret tt) ;;;
        h <- get ;;
        (if TriggersConf.breakpoint trig_options
            || bool_decide (apiname ∈ bps h)
         then breakpoint else ret tt)
      else ret tt
  | None => ret tt
  end.

(** How a branch of the [apiname] chain ends: a [return], or falling through
    to the code after the chain with the dictionary as it then is. *)
Inductive flow : Type :=
| Return (b : bool)
| Continue (d : argdict).

Definition on___process__ (context : list bson) (apiname : string)
    (d : argdict) : M handler flow :=
  timelow <- lift (arg d "TimeLow") ;;
  timehigh <- lift (arg d "TimeHigh") ;;
  timehigh <- lift (as_int timehigh) ;;
  timelow <- lift (as_int timelow) ;;
  let filetime := timelow + Z.shiftl timehigh 32 in
  if negb (filetime_ok env filetime) then raise ValueError else
  pid <- lift (arg d "ProcessIdentifier") ;;
  ppid <- lift (arg d "ParentProcessIdentifier") ;;
  modulepath <- lift (arg d "ModulePath") ;;
  path <- lift (as_str modulepath) ;;
  let procname := get_filename_from_path env path in
  emit (LogProcess context (VInt filetime) pid ppid modulepath procname) ;;;
  execute_trigger_parameters apiname d ;;;
  ret (Return true).

Definition on_NtCreateFile (apiname : string) (d : argdict) : M handler unit :=
  filename <- lift (arg d "FileName") ;;
  filename <- lift (as_str filename) ;;
  let filename := lower filename in
  h <- get ;;
  if server h
     && (contains ".sys" filename || negb (contains ":\" filename))
     && negb (contains "system32" filename)
  then execute_trigger_parameters apiname d
  else ret tt.

Definition on_WriteProcessMemory (apiname : string) (d : argdict)
  : M handler argdict :=
  buffer <- lift (arg d "Buffer") ;;
  buffer <- lift (as_str buffer) ;;
  let d := <[VStr "Buffer" := Scalar (VStr (encode_hex buffer))]> d in
  update_alias apiname d ;;;
  pid <- lift (arg d "ProcessId") ;;
  cur <- lift (arg d "CurrProcessId") ;;
  (if decide (pid <> cur) then execute_trigger_parameters apiname d
   else ret tt) ;;;
  ret d.

Definition on_NtResumeThread (d : argdict) : M handler unit :=
  h <- get ;;
  if server h then
    l <- get_apis ;;
    match first_named "NtSetContextThread" l with
    | Some set_thread_args =>
        a <- lift (arg set_thread_args "ThreadHandle") ;;
        b <- lift (arg d "ThreadHandle") ;;
        if decide (a = b)
        then execute_trigger_parameters
               "NtSetContextThread -> NtResumeThread" d
        else ret tt
    | None => ret tt
    end
  else ret tt.

Definition on_CreateRemoteThread (d : argdict) : M handler unit :=
  h <- get ;;
  if server h then
    l <- get_apis ;;
    match first_named "WriteProcessMemory" l with
    | Some _ =>
        execute_trigger_parameters "WriteProcessMemory -> CreateRemoteThread" d
    | None => ret tt
    end
  else ret tt.

Definition on_LdrLoadDll (d : argdict) : M handler unit :=
  h <- get ;;
  if server h then
    l <- get_apis ;;
    match first_named "WriteProcessMemory" l with
    | Some write_proc_args =>
        m <- lift (find_remote_thread write_proc_args d l) ;;
        match m with
        | Some (name, args) =>
            execute_trigger_parameters
              "WriteProcessMemory -> CreateRemoteThread -> LoadLibrary" d ;;;
            remove_from_apis ("WriteProcessMemory", write_proc_args) ;;;
            remove_from_apis (name, args)
        | None => ret tt
        end
    | None => ret tt
    end
  else ret tt.

(** The [if apiname == ...: ... elif ...] chain of a regular call. *)
Definition dispatch (context : list bson) (apiname : string) (d : argdict)
  : M handler flow :=
  let continue (m : M handler unit) := (m ;;; ret (Continue d)) in
  if decide (apiname = "__process__") then on___process__ context apiname d
  else if decide (apiname = "__thread__") then
    pid <- lift (arg d "ProcessIdentifier") ;;
    emit (LogThread context pid) ;;;
    ret (Return true)
  else if decide (apiname = "VirtualProtectEx") then
    h <- get ;;
    if server h then
      cur <- lift (arg d "CurrentProcessId") ;;
      pid <- lift (arg d "ProcessId") ;;
      continue (if decide (cur <> pid)
                then execute_trigger_parameters apiname d else ret tt)
    else ret (Continue d)
  else if bool_decide
            (apiname ∈ ["monitorCPU"; "NtCreateProcess"; "monitorUnpacking";
                        "UnhookWindowsHookEx"; "StartServiceA";
                        "StartServiceW"; "SetWinEventHook"; "socket";
                        "SetWindowsHookExW"; "SetWindowsHookExA";
                        "ZwLoadDriver"]) then
    continue (execute_trigger_parameters apiname d)
  else if decide (apiname = "NtCreateFile") then
    continue (on_NtCreateFile apiname d)
  else if decide (apiname = "NtCreateMutant") then
    continue (execute_trigger_parameters apiname d)
  else if decide (apiname = "WriteProcessMemory") then
    d <- on_WriteProcessMemory apiname d ;; ret (Continue d)
  else if decide (apiname = "NtResumeThread") then
    continue (on_NtResumeThread d)
  else if decide (apiname = "CreateRemoteThread") then
    continue (on_CreateRemoteThread d)
  else if decide (apiname = "LdrLoadDll") then
    continue (on_LdrLoadDll d)
  else ret (Continue d).

(** [d.pop(k, dflt)] *)
Definition pop (k : string) (dflt : element) (d : argdict)
  : element * argdict :=
  match d !! VStr k with
  | Some v => (v, delete (VStr k) d)
  | None => (dflt, d)
  end.

(** [dict((argnames[i], converters[i](args[i])) for i in range(len(args)))]
    on the [args] field as it came: the characters of a string are its
    items, and on a document [args[0]] finds no number among the keys, once
    [argnames[0]] and [converters[0]] were found. *)
Definition build_call_argdict (argnames : list value)
    (converters : list converter) (args : bson) : res argdict :=
  match args with
  | BDoc [] => Ok ∅
  | BDoc (_ :: _) =>
      match argnames, converters with
      | _ :: _, _ :: _ => Raise (KeyError "0")
      | _, _ => Raise IndexError
      end
  | _ =>
      items <~ py_iter args ;;
      build_argdict argnames converters items ∅
  end.

(** The [else] branch of [read_next_message]: a regular API call. *)
Definition regular_call (dec : document) (index : bson) (tid time : value)
  : M parser bool :=
  p <- get ;;
  key <- lift (hashable index) ;;
  match infomap p !! key with
  | None => ret true
  | Some sch =>
      let apiname := schema_name sch in
      let args := default (BArray []) (doc_args dec) in
      n <- lift (py_len args) ;;
      if negb (bool_decide (n = length (schema_argnames sch)))
      then ret true
      else
        d <- lift (build_call_argdict (schema_argnames sch)
                                      (schema_converters sch) args) ;;
        on_handler (h <- get ;;
                    if has_set_apis h then set_apis [(apiname, d)]
                    else ret tt) ;;;
        let context := [index; BVal (VInt 1); BVal (VInt 0); BVal tid;
                        BVal time] in
        f <- on_handler (dispatch context apiname d) ;;
        match f with
        | Return b => ret b
        | Continue d =>
            let '(is_success, d) := pop "is_success" (Scalar (VInt 1)) d in
            let '(retval, d) := pop "retval" (Scalar (VInt 0)) d in
            on_handler (update_alias apiname d) ;;;
            let context := [index; of_element is_success; of_element retval;
                            BVal tid; BVal time] in
            aux <- lift (py_items (default (BDoc []) (doc_aux dec))) ;;
            let arguments := map_to_list d ++ aux in
            on_handler (emit (LogCall context apiname (schema_category sch)
                                      arguments)) ;;;
            ret true
        end
  end.

(** What follows a successful [bson_decode]. *)
Definition handle_document (dec : document) : M parser bool :=
  let mtype := default "none" (doc_type dec) in
  let index := default (BVal (VInt (-1))) (doc_I dec) in
  let tid := default (VInt 0) (doc_T dec) in
  let time := default (VInt 0) (doc_t dec) in
  let context := [index; BVal (VInt 1); BVal (VInt 0); BVal tid; BVal time] in
  if decide (mtype = "info") then
    let name := default "NONAME" (doc_name dec) in
    let arginfo := default (BArray []) (doc_args dec) in
    let category :=
      match doc_category dec with
      | Some c => if decide (c = "") then None else Some c
      | None => None
      end in
    let category :=
      match category with
      | Some c => c
      | None =>
          match filter (fun e => fst (fst e) = name) (LOGTBL env) with
          | e :: _ => snd (fst e)
          | [] => "unknown"
          end
      end in
    items <- lift (py_iter arginfo) ;;
    r <- lift (check_names_for_typeinfo items) ;;
    key <- lift (hashable index) ;;
    modify (fun p =>
      {| handler_of := handler_of p;
         infomap := <[key := {| schema_name := name;
                                schema_arginfo := arginfo;
                                schema_argnames := fst r;
                                schema_converters := snd r;
                                schema_category := category |}]>
                      (infomap p) |}) ;;;
    ret true
  else if decide (mtype = "debug") then ret true
  else if decide (mtype = "new_process") then
    let starttime := default (VInt 0) (doc_starttime dec) in
    if negb (starttime_ok env starttime) then raise ValueError else
    let procname := default "NONAME" (doc_name dec) in
    on_handler (emit (LogProcess context starttime (Scalar VNone)
                                 (Scalar (VInt 0)) (Scalar (VStr "DUMMY"))
                                 procname)) ;;;
    ret true
  else regular_call dec index tid time.

(** [BsonParser.read_next_message] *)
Definition read_next_message : M parser bool :=
  data <- on_handler (read 4) ;;
  let blen := unpack_I data in
  if blen >? MAX_MESSAGE_LENGTH then ret false else
  rest <- on_handler (read (blen - 4)) ;;
  let data := data ++ rest in
  match bson_decode env data with
  | None => ret false
  | Some dec => handle_document dec
  end.

End Bson.

(** *** Vocabulary of the properties *)

(** The parser after [rest] is what remains of the stream and the reads of
    [sizes] were made; nothing else differs. *)
Definition consumed (rest : list byte) (sizes : list Z) (p : parser) : parser :=
  {| handler_of := set_stream rest (reads (handler_of p) ++ sizes)
                              (handler_of p);
     infomap := infomap p |}.

(** What a firing rule does, in order: the memory dump, the interactive
    session, the breakpoint, each when configured or armed. *)
Definition actions (apiname : string) (d : argdict)
    (o : TriggersConf.trigger_options) (h : handler) : list event :=
  (if TriggersConf.dump_memory o then [DumpMemory apiname d] else []) ++
  (if TriggersConf.break_on_volshell o
      || bool_decide (apiname ∈ volshell_bps h)
   then [SuspendMachine; VolshellSession; ResumeMachine] else []) ++
  (if TriggersConf.breakpoint o || bool_decide (apiname ∈ bps h)
   then [SuspendMachine; DebuggerSession; ResumeMachine] else []).

(** The name of the three-step trigger. *)
Definition chain : string :=
  "WriteProcessMemory -> CreateRemoteThread -> LoadLibrary".

(** [c] is a [CreateRemoteThread] entry with the process handle of the
    [WriteProcessMemory] arguments [w] and the process id of the call [d]. *)
Definition chain_pair (w d : argdict) (c : string * argdict) : Prop :=
  fst c = "CreateRemoteThread" /\
  exists hv pv,
    snd c !! VStr "ProcessHandle" = Some hv /\
    w !! VStr "ProcessHandle" = Some hv /\
    d !! VStr "ProcessId" = Some pv /\
    snd c !! VStr "ProcessId" = Some pv.

(** Every [CreateRemoteThread] entry carries the two keys the scan reads. *)
Definition keyed (l : list (string * argdict)) : Prop :=
  forall e, e ∈ l -> fst e = "CreateRemoteThread" ->
    is_Some (snd e !! VStr "ProcessHandle") /\
    is_Some (snd e !! VStr "ProcessId").

(** [advanced k sizes h] is [h] further along its byte source: [k] bytes
    on, after reads of the sizes [sizes]; nothing else differs. *)
Definition advanced (k : nat) (sizes : list Z) (h : handler) : handler :=
  set_stream (drop k (stream h)) (reads h ++ sizes) h.

(** [m] reads from the byte source and does nothing else. *)
Definition reader {A} (m : M handler A) : Prop :=
  forall h, exists k sizes, snd (m h) = advanced k sizes h.

(** The context of the legacy message that starts [bytes]: the five fields
    of its two header reads. *)
Definition legacy_context (bytes : list byte) : list bson :=
  let hd := take 2 bytes in
  let hd2 := take 12 (drop 2 bytes) in
  map (fun z => BVal (VInt z))
      [le (take 1 hd); le (take 1 (drop 1 hd));
       le (take 4 hd2); le (take 4 (drop 4 hd2)); le (take 4 (drop 8 hd2))].

(** What [read_string] returns at the head of [bytes]. *)
Definition string_at (bytes : list byte) : string :=
  let '(length, maxlength) := unpack_II (take 8 bytes) in
  let s := string_of_list_byte (take (Z.to_nat length) (drop 8 bytes)) in
  if maxlength >? length then String.append s "... (truncated)" else s.

(** The names the argument loop gives out: one per format character that
    has a reader. *)
Fixpoint named_by (env : environment) (formatspecifiers : list ascii)
    (argnames : list string) : list string :=
  match formatspecifiers, argnames with
  | fs :: rest, argname :: names =>
      match formatmap env fs with
      | Some _ => argname :: named_by env rest names
      | None => named_by env rest names
      end
  | _, _ => []
  end.

(** [e] is the logging call of the legacy message that starts [bytes]:
    index 0 is a process, index 1 a thread and any other index the call
    of that row of the table. *)
Definition legacy_event (env : environment) (bytes : list byte) (e : event)
  : Prop :=
  let apiindex := le (take 1 (take 2 bytes)) in
  let context := legacy_context bytes in
  if decide (apiindex = 0) then
    let timelow := unpack_I (take 4 (drop 14 bytes)) in
    let timehigh := unpack_I (take 4 (drop 18 bytes)) in
    let pid := unpack_I (take 4 (drop 22 bytes)) in
    let ppid := unpack_I (take 4 (drop 26 bytes)) in
    let modulepath := string_at (drop 30 bytes) in
    e = LogProcess context (VInt (timelow + Z.shiftl timehigh 32))
                   (Scalar (VInt pid)) (Scalar (VInt ppid))
                   (Scalar (VStr modulepath))
                   (get_filename_from_path env modulepath)
  else if decide (apiindex = 1) then
    e = LogThread context (Scalar (VInt (unpack_I (take 4 (drop 14 bytes)))))
  else
    exists apiname modulename format argnames formatspecifiers arguments,
      LOGTBL env !! Z.to_nat apiindex
        = Some (apiname, modulename, (format, argnames)) /\
      expand_format format = Ok formatspecifiers /\
      e = LogCall context apiname modulename arguments /\
      map fst arguments
        = map VStr (named_by env (list_ascii_of_string formatspecifiers)
                             argnames).

(** The outcome of a message: [True] with exactly one event logged, an
    event that [P] describes, or anything else with none; the byte source
    apart, nothing else changes. *)
Definition one_event (h : handler) (P : event -> Prop)
    (out : res bool * handler) : Prop :=
  exists k sizes,
    match fst out with
    | Ok true => exists e, P e /\
                           snd out = with_events (events h ++ [e])
                                                 (advanced k sizes h)
    | _ => snd out = advanced k sizes h
    end.

(** The names the [if apiname == ...: ... elif ...] chain of a regular call
    tests, in its order. *)
Definition branch_names : list string :=
  ["__process__"; "__thread__"; "VirtualProtectEx"; "monitorCPU";
   "NtCreateProcess"; "monitorUnpacking"; "UnhookWindowsHookEx";
   "StartServiceA"; "StartServiceW"; "SetWinEventHook"; "socket";
   "SetWindowsHookExW"; "SetWindowsHookExA"; "ZwLoadDriver"; "NtCreateFile";
   "NtCreateMutant"; "WriteProcessMemory"; "NtResumeThread";
   "CreateRemoteThread"; "LdrLoadDll"].

(** The names of the two-step triggers. *)
Definition resume_chain : string := "NtSetContextThread -> NtResumeThread".

Definition thread_chain : string := "WriteProcessMemory -> CreateRemoteThread".

(** [m] evaluates no trigger. *)
Definition keeps_evaluated {A} (m : M handler A) : Prop :=
  forall h, evaluated (snd (m h)) = evaluated h.

(** [m] evaluates at most one trigger, and one of [rules]. *)
Definition evaluates_once {A} (rules : list string) (m : M handler A) : Prop :=
  forall h,
    evaluated (snd (m h)) = evaluated h \/
    exists rule d, rule ∈ rules /\
                   evaluated (snd (m h)) = evaluated h ++ [(rule, d)].

Definition is_log_call (e : event) : bool :=
  match e with
  | LogCall _ _ _ _ => true
  | _ => false
  end.

(** The outcome of a branch that announces a process or a thread: whatever
    it logged is no call, and when it returns it ends the message with
    [True]. *)
Definition announced (h : handler) (out : res flow * handler) : Prop :=
  (exists acts, events (snd out) = events h ++ acts /\
                Forall (fun e => is_log_call e = false) acts) /\
  (forall f, fst out = Ok f -> f = Return true).

End Netlog.

(** ** Concrete inputs used by the examples below *)

Module Examples.

Import MemoryAnalysis.

(** A plugin that returns the length of its name and counts its calls in the
    manager. *)
Definition count_plugin (dep : string) (attrs : unit) : M nat nat :=
  fun calls => (Ok (String.length dep), S calls).

Definition resolver0 : resolver nat nat :=
  {| results := {["dlllist" := 7%nat]}; vol_manager := 0%nat; invoked := [] |}.

Definition resolver1 : resolver nat nat :=
  {| results := <["pslist" := 6%nat]> {["dlllist" := 7%nat]};
     vol_manager := 1%nat; invoked := ["pslist"] |}.

(** A connection through the sandbox's own port and an ordinary one. *)
Definition conn_noisy : gmap string value :=
  <["local_port" := VInt 49152]>
    (<["remote_port" := VInt 2042]>
       {["remote_address" := VStr "10.0.0.1"]}).

Definition conn_plain : gmap string value :=
  <["local_port" := VInt 49153]>
    (<["remote_port" := VInt 443]>
       {["remote_address" := VStr "10.0.0.2"]}).

Definition flat (d : gmap string value) : record :=
  {| fields := d; loaded_modules := None |}.

Definition old_connections : snapshot :=
  {["connections" := {| config := ∅; data := [] |}]}.

Definition new_connections : snapshot :=
  {["connections" :=
      {| config := ∅; data := [flat conn_noisy; flat conn_plain] |}]}.

(** The DLL lists of the end-to-end scenario: process 4 loads [B.dll] next
    to [A.dll]; process 8 exists in the new snapshot only. *)
Definition dll (name : string) : gmap string value :=
  {["dll_full_name" := VStr name]}.

Definition proc (pid : Z) (name : string) (mods : list (gmap string value))
  : record :=
  {| fields := <["process_id" := VInt pid]> {["process_name" := VStr name]};
     loaded_modules := Some mods |}.

Definition old_dlllist : snapshot :=
  {["dlllist" := {| config := ∅;
                    data := [proc 4 "System" [dll "A.dll"]] |}]}.

Definition new_dlllist : snapshot :=
  {["dlllist" := {| config := ∅;
                    data := [proc 4 "System" [dll "A.dll"; dll "B.dll"];
                             proc 8 "m.exe" [dll "C.dll"]] |}]}.

Definition dll_B_of_4 : gmap string value :=
  <["process_name" := VStr "System"]>
    (<["process_id" := VInt 4]> (dll "B.dll")).

(** An escalation pass for the [socket] trigger: smart escalation is on, the
    escalation list names the connection diff and the process diff, and the
    baseline loop produced the process diff only. *)
Definition smart_conf : gmap string TriggersConf.trigger_options :=
  {["socket" := {| TriggersConf.enabled := true;
                   TriggersConf.dump_memory := true;
                   TriggersConf.break_on_volshell := false;
                   TriggersConf.breakpoint := false;
                   TriggersConf.run_plugins := "";
                   TriggersConf.run_smart_plugins := true |}]}.

Definition socket_tables : tables :=
  {| TRIGGER_PLUGINS := {["socket" := ["diff_connections"; "diff_processes"]]};
     PAGE_PROTECTIONS := ∅;
     PROTECT_FLAGS := [];
     py_int := fun _ => Raise ValueError;
     py_int16 := fun _ => Raise ValueError;
     py_str := fun _ => "" |}.

Definition no_volatility : volatility :=
  {| patcher := Raise ExternalError;
     moddump := fun _ => Raise ExternalError;
     hook_dlldump := fun _ => Raise ExternalError;
     malfind := fun _ _ _ => Raise ExternalError;
     dlldump := fun _ _ => Raise ExternalError;
     threads := fun _ => Raise ExternalError;
     disasm_from_memory := fun _ _ => None |}.

Definition baseline_diffs : gmap string diff_entry :=
  {["diff_processes" := {| diff_desc := "New processes"; diff_new := [];
                           diff_deleted := []; diff_star := "no";
                           diff_extra := ∅ |}]}.

Definition escalated_diffs : gmap string diff_entry :=
  <["diff_processes" := {| diff_desc := "New processes"; diff_new := [];
                           diff_deleted := []; diff_star := "yes";
                           diff_extra := ∅ |}]>
    (<["injected_dll" := {| diff_desc := "Finds the injected dll and dumps it";
                            diff_new := []; diff_deleted := [];
                            diff_star := "no"; diff_extra := ∅ |}]>
       {["injected_thread" := {| diff_desc := "Shows the injected thread";
                                 diff_new := []; diff_deleted := [];
                                 diff_star := "no"; diff_extra := ∅ |}]}).

(** Process lists: process 4 is in both snapshots with another thread
    count, process 8 in the new one only. *)
Definition ps (pid threads : Z) : gmap string value :=
  <["process_id" := VInt pid]> {["num_threads" := VInt threads]}.

Definition old_pslist : snapshot :=
  {["pslist" := {| config := ∅; data := [flat (ps 4 10)] |}]}.

Definition new_pslist : snapshot :=
  {["pslist" := {| config := ∅; data := [flat (ps 4 11); flat (ps 8 1)] |}]}.

(** Findings of the injected-code scan: one in the sandbox's own agent and
    one in a sample, absent from the clean snapshot. *)
Definition finding (name : string) (offset : Z) : gmap string value :=
  <["process_name" := VStr name]>
    (<["offset" := VInt offset]> {["vad_start" := VStr "0x400000"]}).

Definition old_malfind : snapshot :=
  {["malfind" := {| config := ∅; data := [] |}]}.

Definition new_malfind : snapshot :=
  {["malfind" := {| config := ∅;
                    data := [flat (finding "python.exe" 1);
                             flat (finding "m.exe" 2)] |}]}.

(** Tables whose [int(x, 16)] knows the one address of the findings. *)
Definition malfind_tables : tables :=
  {| TRIGGER_PLUGINS := ∅; PAGE_PROTECTIONS := ∅; PROTECT_FLAGS := [];
     py_int := fun _ => Raise ValueError;
     py_int16 := fun v => if decide (v = VStr "0x400000") then Ok 0x400000
                          else Raise ValueError;
     py_str := fun _ => "" |}.

(** A rule of the cross-view scan: absent from the process list. *)
Definition not_in_pslist : list (string * value) :=
  [("pslist", VStr "False")].

Definition view (pid : Z) (name pslist : string) : gmap string value :=
  <["process_id" := VInt pid]>
    (<["process_name" := VStr name]> {["pslist" := VStr pslist]}).

Definition old_psxview : snapshot :=
  {["psxview" := {| config := ∅; data := [flat (view 4 "System" "True")] |}]}.

Definition new_psxview : snapshot :=
  {["psxview" := {| config := ∅;
                    data := [flat (view 4 "System" "True");
                             flat (view 8 "python.exe" "False");
                             flat (view 9 "m.exe" "False")] |}]}.

(** Device trees: the new snapshot has one more device under the driver. *)
Definition device (name : string) : gmap string value :=
  <["device_name" := VStr name]> {["device_type" := VStr "FILE_DEVICE_DISK"]}.

Definition driver_with (devs : list (gmap string value)) : driver :=
  {| driver_fields := {["driver_name" := VStr "disk"]}; devices := Some devs |}.

Definition old_devicetree : driver_snapshot :=
  {["devicetree" := [driver_with [device "DR0"]]]}.

Definition new_devicetree : driver_snapshot :=
  {["devicetree" := [driver_with [device "DR0"; device "DR1"]]]}.

(** The new snapshot with a second driver that holds [DR1] as well. *)
Definition twin_devicetree : driver_snapshot :=
  {["devicetree" := [driver_with [device "DR0"; device "DR1"];
                     driver_with [device "DR1"]]]}.

(** Handles of the new snapshot: a registry key under the Run key, a file of
    the same name, and a key elsewhere. *)
Definition handle (typ val : string) : record :=
  flat (<["handle_type" := VStr typ]> {["handle_value" := VStr val]}).

Definition new_handles : snapshot :=
  {["handles" :=
      {| config := ∅;
         data := [handle "Key" "MACHINE\SOFTWARE\MICROSOFT\WINDOWS\CURRENTVERSION\RUN";
                  handle "File" "\Device\run";
                  handle "Key" "MACHINE\SYSTEM\SETUP"] |}]}.

(** Sections of the executable on disk and of its image in memory: [.text]
    is in both, [.rsrc] on disk only, and the image has a second section
    named [.text] and a section [UPX0]. *)
Definition section (name : string) (size : Z) : gmap string value :=
  <["name" := VStr name]> {["size_of_data" := VInt size]}.

Definition exe_static : static :=
  {["pe_sections" := [section ".text" 1; section ".rsrc" 2]]}.

Definition memory_static : static :=
  {["pe_sections" := [section ".text" 1; section ".text" 3;
                      section "UPX0" 4]]}.

(** The baseline loop's collaborators for one diff, [diff_connections],
    which has no method of its own. *)
Definition memory_conf (memfunc : string) : res string :=
  if decide (memfunc = "diff_connections") then Ok "New connections"
  else Raise AttributeError.

Definition dependencies : gmap string (list string) :=
  {["diff_connections" := ["connections"]]}.

Definition no_method (name : string) : option analysis_func := None.

(** A diff with a method of its own; the class has that method, which
    takes no keyword. *)
Definition functions : gmap string string :=
  {["diff_connections" := "get_new_connections"]}.

Definition class_method (name : string) : option analysis_func :=
  if decide (name = "get_new_connections") then
    Some (fun old new deps attrs =>
            without_keywords attrs (get_new_connections old new deps))
  else None.

(** A snapshot whose one connection carries no port, and a keyword. *)
Definition torn_connections : snapshot :=
  {["connections" :=
      {| config := ∅; data := [flat {["pid" := VInt 4]}] |}]}.

Definition dump_dir_attrs : keywords := {["dump_dir" := VStr "dumps"]}.

(** An entry of a diff that was run before. *)
Definition stale_entry : plugin_entry :=
  {| entry_desc := "Old connections"; entry_new := None;
     entry_deleted := None; entry_star := None |}.

(** The collaborators of the follow-ups: the patcher reports one patch, every
    module dumps as [evil.sys], and process 9 has three threads, two of them
    numbered 7. *)
Definition int_tables : tables :=
  {| TRIGGER_PLUGINS := ∅; PAGE_PROTECTIONS := ∅; PROTECT_FLAGS := [];
     py_int := fun v => match v with
                        | VInt z => Ok z
                        | _ => Raise ValueError
                        end;
     py_int16 := fun _ => Raise ValueError;
     py_str := fun _ => "9" |}.

Definition thread (tid : Z) (state : string) : gmap string value :=
  <["TID" := VInt tid]> {["State" := VStr state]}.

Definition busy_volatility : volatility :=
  {| patcher := Ok [0x1000];
     moddump := fun _ => Ok (VStr "evil.sys");
     hook_dlldump := fun _ => Raise ExternalError;
     malfind := fun _ _ _ => Raise ExternalError;
     dlldump := fun _ _ => Raise ExternalError;
     threads := fun _ => Ok [thread 7 "Waiting"; thread 8 "Running";
                             thread 7 "Ready"];
     disasm_from_memory := fun _ _ => None |}.

Definition resume_args : gmap string value :=
  <["ProcessId" := VInt 9]> {["ThreadId" := VInt 7]}.

Definition injected_threads : gmap string diff_entry :=
  {["injected_thread" :=
      {| diff_desc := "Shows the injected thread";
         diff_new := [thread 7 "Waiting"; thread 7 "Ready"];
         diff_deleted := []; diff_star := "yes"; diff_extra := ∅ |}]}.

(** A baseline result with the driver diff. *)
Definition driver_diffs : gmap string diff_entry :=
  {["diff_moddump" := {| diff_desc := "New drivers"; diff_new := [];
                         diff_deleted := []; diff_star := "no";
                         diff_extra := ∅ |}]}.

(** The same after the follow-up of a [ZwLoadDriver] trigger. *)
Definition dumped_driver_diffs : gmap string diff_entry :=
  {["diff_moddump" :=
      {| diff_desc := "New drivers";
         diff_new := [<["module_base" := VInt 0x7fe01000]>
                        {["module_name" := VStr "evil.sys"]}];
         diff_deleted := []; diff_star := "no"; diff_extra := ∅ |}]}.

Import Netlog.

(** A handler with nothing read, nothing logged and no history. *)
Definition idle_handler (bytes : list byte) : handler :=
  {| stream := bytes; reads := []; server := true; has_set_apis := true;
     apis := []; times := ∅; bps := []; volshell_bps := []; console := [];
     evaluated := []; events := [] |}.

(** A legacy field that declares 0x10001 bytes, one more than the guard of
    [read_string] admits, and carries them. *)
Definition oversized_header : list byte :=
  [x01; x00; x01; x00; x01; x00; x01; x00]%byte.

Definition oversized_payload : list byte :=
  repeat x41%byte (Z.to_nat 0x10001).

Definition oversized_field : list byte := oversized_header ++ oversized_payload.

(** A decoder environment with empty tables whose [bson_decode] yields the
    given document for every frame. *)
Definition fixed_env (dec : option document)
    (conf : gmap string TriggersConf.trigger_options) (dumps : bool)
  : environment :=
  {| LOGTBL := []; REG_SZ := 1; REG_EXPAND_SZ := 2;
     REG_DWORD_BIG_ENDIAN := 5; REG_DWORD_LITTLE_ENDIAN := 4;
     get_filename_from_path := fun s => s;
     bson_decode := fun _ => dec;
     filetime_ok := fun _ => true; starttime_ok := fun _ => true;
     triggers := conf; triggered_dumps := dumps |}.

(** A call message for index 7 with two arguments. *)
Definition call_7 : document :=
  {| doc_type := None; doc_I := Some (BVal (VInt 7)); doc_T := Some (VInt 1);
     doc_t := Some (VInt 2); doc_name := None;
     doc_args := Some (BArray [Scalar (VInt 1); Scalar (VInt 2)]);
     doc_category := None; doc_msg := None; doc_starttime := None;
     doc_aux := None |}.

(** The same message with an array where the [aux] document is
    expected. *)
Definition call_7_array_aux : document :=
  {| doc_type := None; doc_I := Some (BVal (VInt 7)); doc_T := Some (VInt 1);
     doc_t := Some (VInt 2); doc_name := None;
     doc_args := Some (BArray [Scalar (VInt 1); Scalar (VInt 2)]);
     doc_category := None; doc_msg := None; doc_starttime := None;
     doc_aux := Some (BArray []) |}.


Definition fresh_parser (bytes : list byte) : parser :=
  {| handler_of := idle_handler bytes; infomap := ∅ |}.

(** A length field of 20 MiB + 1. *)
Definition too_long : list byte := [x01; x00; x40; x01]%byte.


(** A handler with three fires left for the [socket] rule. *)
Definition armed_handler : handler :=
  with_times {["socket" := 3]} (idle_handler []).

(** History entries and a [LdrLoadDll] call for the chain rule. *)
Definition wpm (handle : Z) : string * argdict :=
  ("WriteProcessMemory", {[VStr "ProcessHandle" := Scalar (VInt handle)]}).

Definition crt (handle pid : Z) : string * argdict :=
  ("CreateRemoteThread",
   <[VStr "ProcessHandle" := Scalar (VInt handle)]>
     {[VStr "ProcessId" := Scalar (VInt pid)]}).

(** A remote thread with its thread identifier. *)
Definition crt_thread (handle pid tid : Z) : string * argdict :=
  ("CreateRemoteThread",
   <[VStr "ThreadId" := Scalar (VInt tid)]> (snd (crt handle pid))).

Definition ldr (pid : Z) : argdict :=
  {[VStr "ProcessId" := Scalar (VInt pid)]}.

Definition with_history (l : list (string * argdict)) : handler :=
  with_apis l (idle_handler []).

Definition quiet_env : environment := fixed_env None ∅ true.

(** The same handler when it has no [server] attribute. *)
Definition without_server (h : handler) : handler :=
  {| stream := stream h; reads := reads h; server := false;
     has_set_apis := has_set_apis h; apis := apis h; times := times h;
     bps := bps h; volshell_bps := volshell_bps h; console := console h;
     evaluated := evaluated h; events := events h |}.

(** A legacy table whose entry 2 is a call with one string argument, and a
    message for it whose string declares 0x10001 bytes. *)
Definition legacy_env : environment :=
  {| LOGTBL := [("__process__", "__notification__", ("", []));
                ("__thread__", "__notification__", ("", []));
                ("NtDeleteFile", "filesystem", ("u", ["FileName"]))];
     REG_SZ := 1; REG_EXPAND_SZ := 2;
     REG_DWORD_BIG_ENDIAN := 5; REG_DWORD_LITTLE_ENDIAN := 4;
     get_filename_from_path := fun s => s;
     bson_decode := fun _ => None;
     filetime_ok := fun _ => true; starttime_ok := fun _ => true;
     triggers := ∅; triggered_dumps := false |}.

Definition legacy_header : list byte :=
  [x02; x01]%byte ++ repeat x00%byte 12.

(** A parser that was taught index 7: [NtClose] with a handle and the
    success flag. *)
Definition close_schema : schema :=
  {| schema_name := "NtClose";
     schema_arginfo := BArray [Scalar (VStr "Handle");
                               Scalar (VStr "is_success")];
     schema_argnames := [VStr "Handle"; VStr "is_success"];
     schema_converters := [DefaultConverter; DefaultConverter];
     schema_category := "system" |}.

Definition taught_parser : parser :=
  {| handler_of := idle_handler []; infomap := {[VInt 7 := close_schema]} |}.

Definition close_args : argdict :=
  <[VStr "Handle" := Scalar (VInt 1)]>
    {[VStr "is_success" := Scalar (VInt 2)]}.

(** Two [NtSetContextThread] entries, on thread handles 5 and 6, and a call
    whose thread handle is the given one. *)
Definition sct (handle : Z) : string * argdict :=
  ("NtSetContextThread", {[VStr "ThreadHandle" := Scalar (VInt handle)]}).

Definition resume (handle : Z) : argdict :=
  {[VStr "ThreadHandle" := Scalar (VInt handle)]}.


(** A parser that was taught index 7 as the thread announcement. *)
Definition thread_schema : schema :=
  {| schema_name := "__thread__";
     schema_arginfo := BArray [Scalar (VStr "ProcessIdentifier");
                               Scalar (VStr "ThreadIdentifier")];
     schema_argnames := [VStr "ProcessIdentifier"; VStr "ThreadIdentifier"];
     schema_converters := [DefaultConverter; DefaultConverter];
     schema_category := "unknown" |}.

Definition announcing_parser : parser :=
  {| handler_of := idle_handler [];
     infomap := {[VInt 7 := thread_schema]} |}.


End Examples.

(** * Properties *)

Module MemoryAnalysisFacts.

Import MemoryAnalysis.
Local Open Scope py_scope.

(** ** The facet resolver *)

Section RunDependencies.

Context {V VolManager Attrs : Type}.
Variable plugin : string -> Attrs -> M VolManager V.

Lemma run_dependencies_cons dep rest attrs (st : resolver V VolManager) :
  run_dependencies plugin (dep :: rest) attrs st =
  match results st !! dep with
  | Some _ => run_dependencies plugin rest attrs st
  | None =>
      match plugin dep attrs (vol_manager st) with
      | (Ok v, vm) =>
          run_dependencies plugin rest attrs
            {| results := <[dep := v]> (results st); vol_manager := vm;
               invoked := invoked st ++ [dep] |}
      | (Raise e, vm) =>
          (Raise e, {| results := results st; vol_manager := vm;
                       invoked := invoked st ++ [dep] |})
      end
  end.
Proof.
  cbn [run_dependencies]. unfold bind at 1. cbn [get].
  destruct (results st !! dep) as [v|] eqn:E.
  - unfold bind, ret. reflexivity.
  - unfold bind at 1. unfold bind at 1. unfold call_plugin.
    destruct (plugin dep attrs (vol_manager st)) as [[v|e] vm]; reflexivity.
Qed.

(** Entries present before a run are kept with their value, whatever the
    outcome. *)
Lemma run_dependencies_keeps deps attrs : forall (st : resolver V VolManager) r st',
  run_dependencies plugin deps attrs st = (r, st') ->
  forall dep v, results st !! dep = Some v -> results st' !! dep = Some v.
Proof.
  induction deps as [|d deps IH]; intros st r st' Hrun dep v Hv.
  - cbn in Hrun. unfold ret in Hrun. by simplify_eq.
  - rewrite run_dependencies_cons in Hrun.
    destruct (results st !! d) as [w|] eqn:E; [by eapply IH|].
    destruct (plugin d attrs (vol_manager st)) as [[w|e] vm].
    + eapply IH; [exact Hrun|]. cbn.
      rewrite lookup_insert_ne; [done|]. intros ->. congruence.
    + by simplify_eq.
Qed.

(** The plugins a run invokes: each at most once, each a listed dependency
    that was absent. *)
Lemma run_dependencies_invokes deps attrs : forall (st : resolver V VolManager) r st',
  run_dependencies plugin deps attrs st = (r, st') ->
  exists calls,
    invoked st' = invoked st ++ calls /\ NoDup calls /\
    forall d, d ∈ calls -> d ∈ deps /\ results st !! d = None.
Proof.
  induction deps as [|d deps IH]; intros st r st' Hrun.
  - cbn in Hrun. unfold ret in Hrun. simplify_eq. exists [].
    rewrite app_nil_r. split; [done|]. split; [constructor|]. by intros d ?%elem_of_nil.
  - rewrite run_dependencies_cons in Hrun.
    destruct (results st !! d) as [w|] eqn:E.
    + destruct (IH _ _ _ Hrun) as (calls & Hc & Hnd & Hin).
      exists calls. repeat split; try done.
      * apply elem_of_cons. right. by apply Hin.
      * by apply Hin.
    + destruct (plugin d attrs (vol_manager st)) as [[w|e] vm].
      * destruct (IH _ _ _ Hrun) as (calls & Hc & Hnd & Hin). cbn in Hc, Hin.
        exists (d :: calls). rewrite Hc, <- app_assoc. split; [done|]. split.
        -- constructor; [|done]. intros Hd. apply Hin in Hd as [_ Hd].
           by rewrite lookup_insert_eq in Hd.
        -- intros x [->|Hx]%elem_of_cons.
           ++ split; [apply elem_of_cons; by left|done].
           ++ apply Hin in Hx as [Hx1 Hx2]. split; [apply elem_of_cons; by right|].
              destruct (decide (d = x)) as [->|Hne]; [done|].
              by rewrite lookup_insert_ne in Hx2.
      * simplify_eq. exists [d]. cbn. split; [done|]. split.
        -- apply NoDup_singleton.
        -- intros x ->%list_elem_of_singleton. split; [apply elem_of_cons; by left|done].
Qed.

(** After a run that returned, every listed dependency is stored. *)
Lemma run_dependencies_complete deps attrs : forall (st : resolver V VolManager) st',
  run_dependencies plugin deps attrs st = (Ok tt, st') ->
  forall dep, dep ∈ deps -> is_Some (results st' !! dep).
Proof.
  induction deps as [|d deps IH]; intros st st' Hrun dep Hin.
  - by apply elem_of_nil in Hin.
  - rewrite run_dependencies_cons in Hrun.
    apply elem_of_cons in Hin as [->|Hin].
    + destruct (results st !! d) as [w|] eqn:E.
      * exists w. by eapply run_dependencies_keeps.
      * destruct (plugin d attrs (vol_manager st)) as [[w|e] vm]; [|done].
        exists w. eapply run_dependencies_keeps; [exact Hrun|].
        cbn. by rewrite lookup_insert_eq.
    + destruct (results st !! d) as [w|] eqn:E; [by eapply IH|].
      destruct (plugin d attrs (vol_manager st)) as [[w|e] vm]; [|done].
      by eapply IH.
Qed.

(** A run over dependencies that are all stored invokes nothing and changes
    nothing. *)
Lemma run_dependencies_noop deps attrs (st : resolver V VolManager) :
  (forall dep, dep ∈ deps -> is_Some (results st !! dep)) ->
  run_dependencies plugin deps attrs st = (Ok tt, st).
Proof.
  induction deps as [|d deps IH]; intros Hall; [done|].
  rewrite run_dependencies_cons.
  destruct (Hall d) as [w Hw]; [apply elem_of_cons; by left|]. rewrite Hw.
  apply IH. intros dep Hdep. apply Hall, elem_of_cons. by right.
Qed.

(** A run returns when no plugin raises. *)
Lemma run_dependencies_returns deps attrs :
  (forall dep vm, exists v vm', plugin dep attrs vm = (Ok v, vm')) ->
  forall st : resolver V VolManager,
  exists st', run_dependencies plugin deps attrs st = (Ok tt, st').
Proof.
  intros Hok. induction deps as [|d deps IH]; intros st.
  - by exists st.
  - rewrite run_dependencies_cons.
    destruct (results st !! d) as [w|]; [apply IH|].
    destruct (Hok d (vol_manager st)) as (v & vm' & ->). apply IH.
Qed.

End RunDependencies.

(** C4. [run_dependencies] computes a dependency only when its key is absent:
    the plugins a run invokes ([calls]) are listed dependencies that were
    absent, each invoked once; every entry stored before the run keeps its
    value; when the run returns, every listed dependency is stored and a
    second run over the same list (with any arguments) invokes nothing and
    leaves the mapping as it is; and the run returns whenever no plugin
    raises. *)
Theorem run_dependencies_memoizes {V VolManager Attrs : Type}
    (plugin : string -> Attrs -> M VolManager V) (deps : list string)
    (attrs attrs' : Attrs) (st st1 : resolver V VolManager) (r : res unit) :
  run_dependencies plugin deps attrs st = (r, st1) ->
  (exists calls,
      invoked st1 = invoked st ++ calls /\ NoDup calls /\
      forall d, d ∈ calls -> d ∈ deps /\ results st !! d = None) /\
  (forall dep v, results st !! dep = Some v -> results st1 !! dep = Some v) /\
  (r = Ok tt ->
     (forall dep, dep ∈ deps -> is_Some (results st1 !! dep)) /\
     run_dependencies plugin deps attrs' st1 = (Ok tt, st1)) /\
  ((forall dep vm, exists v vm', plugin dep attrs vm = (Ok v, vm')) ->
     r = Ok tt).
Proof.
  intros Hrun. split; [by eapply run_dependencies_invokes|].
  split; [by eapply run_dependencies_keeps|]. split.
  - intros ->. split; [by eapply run_dependencies_complete|].
    apply run_dependencies_noop. by eapply run_dependencies_complete.
  - intros Hok. destruct (run_dependencies_returns plugin deps attrs Hok st)
      as [st' Hst']. congruence.
Qed.

Lemma run_dependencies_memoizes_witness :
  (exists calls,
      invoked Examples.resolver1 = invoked Examples.resolver0 ++ calls /\
      NoDup calls /\
      forall d, d ∈ calls ->
        d ∈ ["pslist"; "dlllist"; "pslist"] /\
        results Examples.resolver0 !! d = None) /\
  (forall dep v, results Examples.resolver0 !! dep = Some v ->
                 results Examples.resolver1 !! dep = Some v) /\
  (Ok tt = Ok tt ->
     (forall dep, dep ∈ ["pslist"; "dlllist"; "pslist"] ->
                  is_Some (results Examples.resolver1 !! dep)) /\
     run_dependencies Examples.count_plugin ["pslist"; "dlllist"; "pslist"]
                      tt Examples.resolver1 = (Ok tt, Examples.resolver1)) /\
  ((forall dep vm, exists v vm',
       Examples.count_plugin dep tt vm = (Ok v, vm')) -> Ok tt = Ok tt).
Proof.
  apply (run_dependencies_memoizes Examples.count_plugin
           ["pslist"; "dlllist"; "pslist"] tt tt
           Examples.resolver0 Examples.resolver1 (Ok tt)).
  vm_compute. reflexivity.
Defined.

(** ** The identity-set diff and the connection diff *)

Lemma set_of_spec ds : forall s,
  set_of ds = Ok s ->
  NoDup s /\ forall x, x ∈ s <-> exists d, d ∈ ds /\ fields d = x.
Proof.
  induction ds as [|d ds IH]; intros s Hs.
  - cbn in Hs. simplify_eq. split; [constructor|].
    intros x. split; [by intros ?%elem_of_nil|].
    by intros (d & ?%elem_of_nil & _).
  - cbn in Hs. unfold hashabledict in Hs.
    destruct (loaded_modules d); [done|]. cbn in Hs.
    destruct (set_of ds) as [s0|] eqn:E; [|done]. cbn in Hs.
    destruct (IH s0 eq_refl) as [Hnd Hin].
    destruct (decide (fields d ∈ s0)) as [Hd|Hd]; simplify_eq.
    + split; [done|]. intros x. rewrite Hin. split.
      * intros (d' & ? & ?). exists d'. split; [apply elem_of_cons; by right|done].
      * intros (d' & [->|?]%elem_of_cons & <-); [by apply Hin|]. by exists d'.
    + split; [by constructor|]. intros x. rewrite elem_of_cons, Hin. split.
      * intros [->|(d' & ? & ?)].
        -- exists d. split; [apply elem_of_cons; by left|done].
        -- exists d'. split; [apply elem_of_cons; by right|done].
      * intros (d' & [->|?]%elem_of_cons & <-); [by left|]. right. by exists d'.
Qed.

Lemma set_of_returns ds :
  (forall d, d ∈ ds -> loaded_modules d = None) -> exists s, set_of ds = Ok s.
Proof.
  induction ds as [|d ds IH]; intros Hflat; [by exists []|].
  destruct IH as [s Hs].
  { intros d' ?. apply Hflat, elem_of_cons. by right. }
  cbn. unfold hashabledict. rewrite (Hflat d) by (apply elem_of_cons; by left).
  cbn. rewrite Hs. cbn. eauto.
Qed.

Lemma united_spec old new deps : forall ao an o n,
  united old new deps ao an = Ok (o, n) ->
  NoDup ao -> NoDup an ->
  NoDup o /\ NoDup n /\
  (forall x, x ∈ o <-> x ∈ ao \/ listed old deps x) /\
  (forall x, x ∈ n <-> x ∈ an \/ listed new deps x).
Proof.
  induction deps as [|dep deps IH]; intros ao an o n Hu Hao Han.
  - cbn in Hu. simplify_eq. repeat split; try done; try (by left).
    + intros [?|(dep & f & d & ?%elem_of_nil & _)]; done.
    + intros [?|(dep & f & d & ?%elem_of_nil & _)]; done.
  - cbn in Hu. unfold getitem in Hu.
    destruct (old !! dep) as [fo|] eqn:Eo; [|done]. cbn in Hu.
    destruct (set_of (data fo)) as [so|] eqn:Eso; [|done]. cbn in Hu.
    destruct (new !! dep) as [fn|] eqn:En; [|done]. cbn in Hu.
    destruct (set_of (data fn)) as [sn|] eqn:Esn; [|done]. cbn in Hu.
    destruct (set_of_spec _ _ Eso) as [Hndo Hso].
    destruct (set_of_spec _ _ Esn) as [Hndn Hsn].
    destruct (IH _ _ _ _ Hu) as (Ho & Hn & Hio & Hin).
    { by apply NoDup_list_union. } { by apply NoDup_list_union. }
    split; [done|]. split; [done|]. split.
    + intros x. rewrite Hio. unfold set_union. rewrite list_elem_of_union, Hso.
      split.
      * intros [[?|(d & ? & ?)]|(dep' & f & d & ? & ? & ? & ?)].
        -- by left.
        -- right. exists dep, fo, d. split; [apply elem_of_cons; by left|done].
        -- right. exists dep', f, d. split; [apply elem_of_cons; by right|done].
      * intros [?|(dep' & f & d & [->|?]%elem_of_cons & ? & ? & ?)].
        -- left. by left.
        -- left. right. simplify_eq. by exists d.
        -- right. by exists dep', f, d.
    + intros x. rewrite Hin. unfold set_union. rewrite list_elem_of_union, Hsn.
      split.
      * intros [[?|(d & ? & ?)]|(dep' & f & d & ? & ? & ? & ?)].
        -- by left.
        -- right. exists dep, fn, d. split; [apply elem_of_cons; by left|done].
        -- right. exists dep', f, d. split; [apply elem_of_cons; by right|done].
      * intros [?|(dep' & f & d & [->|?]%elem_of_cons & ? & ? & ?)].
        -- left. by left.
        -- left. right. simplify_eq. by exists d.
        -- right. by exists dep', f, d.
Qed.

(** [get_new_objects] returns, without repetition, the dictionaries listed in
    [new] and not in [old]. *)
Lemma get_new_objects_spec old new deps found :
  get_new_objects old new deps = Ok found ->
  NoDup found /\
  forall c, c ∈ found <-> listed new deps c /\ ~ listed old deps c.
Proof.
  unfold get_new_objects. intros H.
  destruct (united old new deps [] []) as [[o n]|] eqn:E; [|done].
  cbn in H. simplify_eq.
  destruct (united_spec _ _ _ _ _ _ _ E) as (Ho & Hn & Hio & Hin);
    [constructor..|].
  split; [by apply NoDup_list_difference|].
  intros c. unfold set_difference. rewrite list_elem_of_difference, Hio, Hin.
  split.
  - intros [[?%elem_of_nil|?] Hno]; [done|]. split; [done|]. intros ?. apply Hno. by right.
  - intros [? Hno]. split; [by right|]. intros [?%elem_of_nil|?]; [done|]. by apply Hno.
Qed.

(** When a record is kept: all three keys are there and none has an excluded
    value. *)
Lemma excluded_false c :
  excluded c = Ok false <->
  exists lp rp ra,
    c !! "local_port" = Some lp /\ c !! "remote_port" = Some rp /\
    c !! "remote_address" = Some ra /\
    lp <> VInt 8000 /\ rp <> VInt 2042 /\ ra <> VStr "293.268.122.1".
Proof.
  unfold excluded, getitem. split.
  - intros H.
    destruct (c !! "local_port") as [lp|]; [|done]. cbn in H.
    destruct (decide (lp = VInt 8000)); [done|].
    destruct (c !! "remote_port") as [rp|]; [|done]. cbn in H.
    destruct (decide (rp = VInt 2042)); [done|].
    destruct (c !! "remote_address") as [ra|]; [|done]. cbn in H.
    exists lp, rp, ra. repeat split; try done.
    intros ->. by rewrite bool_decide_eq_true_2 in H.
  - intros (lp & rp & ra & -> & -> & -> & ? & ? & ?). cbn.
    rewrite decide_False by done. cbn. rewrite decide_False by done. cbn.
    by rewrite bool_decide_eq_false_2.
Qed.

(** When a record is dropped: one of the excluded values is there. *)
Lemma excluded_true c :
  excluded c = Ok true ->
  c !! "local_port" = Some (VInt 8000) \/
  c !! "remote_port" = Some (VInt 2042) \/
  c !! "remote_address" = Some (VStr "293.268.122.1").
Proof.
  unfold excluded, getitem. intros H.
  destruct (c !! "local_port") as [lp|]; [|done]. cbn in H.
  destruct (decide (lp = VInt 8000)) as [->|]; [by left|].
  destruct (c !! "remote_port") as [rp|]; [|done]. cbn in H.
  destruct (decide (rp = VInt 2042)) as [->|]; [right; by left|].
  destruct (c !! "remote_address") as [ra|]; [|done]. cbn in H.
  right. right. simplify_eq. by apply bool_decide_eq_true_1 in H as ->.
Qed.

Lemma keep_connections_spec found : forall acc cs,
  keep_connections found acc = Ok cs ->
  (forall c, c ∈ found -> exists b, excluded c = Ok b) /\
  cs = acc ++ filter (fun c => excluded c = Ok false) found.
Proof.
  induction found as [|c found IH]; intros acc cs H.
  - cbn in H. simplify_eq. split; [by intros c ?%elem_of_nil|].
    by rewrite filter_nil, app_nil_r.
  - cbn in H. destruct (excluded c) as [b|] eqn:E; [|done]. cbn in H.
    destruct (IH _ _ H) as [Hall ->]. split.
    + intros c' [->|?]%elem_of_cons; [by exists b|by apply Hall].
    + destruct b.
      * rewrite filter_cons_False; [done|]. rewrite E. congruence.
      * rewrite filter_cons_True by done. by rewrite <- app_assoc.
Qed.

(** C7. [get_new_connections] returns exactly the records of the raw
    new-object diff (the dictionaries listed in [new] and not in [old],
    compared as wholes whatever the order of their keys) that are not on the
    exclusion list: a returned record has neither [local_port] 8000 nor
    [remote_port] 2042 nor [remote_address] "293.268.122.1", so a record
    with [remote_port] 2042 is left out although [old] does not have it. *)
Theorem get_new_connections_spec (old new : snapshot) (deps : list string)
    (cs : list (gmap string value)) :
  get_new_connections old new deps = Ok cs ->
  exists found,
    get_new_objects old new deps = Ok found /\
    (forall c, c ∈ found <-> listed new deps c /\ ~ listed old deps c) /\
    NoDup cs /\
    (forall c, c ∈ cs <->
       c ∈ found /\
       c !! "local_port" <> Some (VInt 8000) /\
       c !! "remote_port" <> Some (VInt 2042) /\
       c !! "remote_address" <> Some (VStr "293.268.122.1")) /\
    (forall c, listed new deps c -> ~ listed old deps c ->
       c !! "remote_port" = Some (VInt 2042) -> c ∉ cs).
Proof.
  unfold get_new_connections. intros H.
  destruct (get_new_objects old new deps) as [found|] eqn:E; [|done].
  cbn in H. exists found.
  destruct (get_new_objects_spec _ _ _ _ E) as [Hnd Hfound].
  destruct (keep_connections_spec _ _ _ H) as [Hall ->]. cbn.
  assert (Hmem : forall c,
    c ∈ filter (fun c => excluded c = Ok false) found <->
    c ∈ found /\
    c !! "local_port" <> Some (VInt 8000) /\
    c !! "remote_port" <> Some (VInt 2042) /\
    c !! "remote_address" <> Some (VStr "293.268.122.1")).
  { intros c. rewrite list_elem_of_filter. split.
    - intros [(lp & rp & ra & Hl & Hr & Ha & ? & ? & ?)%excluded_false ?].
      rewrite Hl, Hr, Ha. repeat split; congruence.
    - intros (Hc & Hl & Hr & Ha). split; [|done].
      destruct (Hall c Hc) as [[] Hb]; [|done].
      apply excluded_true in Hb. tauto. }
  split; [done|]. split; [done|]. split; [by apply NoDup_filter|].
  split; [done|].
  intros c ? ? Hport Hc. apply Hmem in Hc. tauto.
Qed.

Lemma get_new_connections_spec_witness :
  exists found,
    get_new_objects Examples.old_connections Examples.new_connections
                    ["connections"] = Ok found /\
    (forall c, c ∈ found <->
       listed Examples.new_connections ["connections"] c /\
       ~ listed Examples.old_connections ["connections"] c) /\
    NoDup [Examples.conn_plain] /\
    (forall c, c ∈ [Examples.conn_plain] <->
       c ∈ found /\
       c !! "local_port" <> Some (VInt 8000) /\
       c !! "remote_port" <> Some (VInt 2042) /\
       c !! "remote_address" <> Some (VStr "293.268.122.1")) /\
    (forall c, listed Examples.new_connections ["connections"] c ->
       ~ listed Examples.old_connections ["connections"] c ->
       c !! "remote_port" = Some (VInt 2042) -> c ∉ [Examples.conn_plain]).
Proof.
  apply (get_new_connections_spec Examples.old_connections
           Examples.new_connections ["connections"] [Examples.conn_plain]).
  vm_compute. reflexivity.
Defined.

(** The connection diff returns when every dependency is a facet of flat
    records in both snapshots and every new record has the three keys. *)
Lemma united_returns old new deps :
  (forall dep, dep ∈ deps ->
     exists fo fn, old !! dep = Some fo /\ new !! dep = Some fn /\
       (forall d, d ∈ data fo -> loaded_modules d = None) /\
       (forall d, d ∈ data fn -> loaded_modules d = None)) ->
  forall ao an, exists p, united old new deps ao an = Ok p.
Proof.
  induction deps as [|dep deps IH]; intros Hwf ao an; [by eexists|].
  destruct (Hwf dep) as (fo & fn & Ho & Hn & Hfo & Hfn);
    [apply elem_of_cons; by left|].
  destruct (set_of_returns _ Hfo) as [so Hso].
  destruct (set_of_returns _ Hfn) as [sn Hsn].
  cbn. unfold getitem. rewrite Ho. cbn. rewrite Hso. cbn. rewrite Hn. cbn.
  rewrite Hsn. cbn. apply IH. intros dep' ?. apply Hwf, elem_of_cons. by right.
Qed.

Lemma keep_connections_returns found :
  (forall c, c ∈ found -> exists b, excluded c = Ok b) ->
  forall acc, exists cs, keep_connections found acc = Ok cs.
Proof.
  induction found as [|c found IH]; intros Hall acc; [by eexists|].
  destruct (Hall c) as [b Hb]; [apply elem_of_cons; by left|].
  cbn. rewrite Hb. cbn. apply IH. intros c' ?. apply Hall, elem_of_cons. by right.
Qed.

Lemma excluded_returns c :
  is_Some (c !! "local_port") -> is_Some (c !! "remote_port") ->
  is_Some (c !! "remote_address") -> exists b, excluded c = Ok b.
Proof.
  intros [lp Hl] [rp Hr] [ra Ha]. unfold excluded, getitem.
  rewrite Hl. cbn. destruct (decide (lp = VInt 8000)); [by eexists|].
  rewrite Hr. cbn. destruct (decide (rp = VInt 2042)); [by eexists|].
  rewrite Ha. cbn. by eexists.
Qed.

Lemma get_new_connections_returns old new deps :
  (forall dep, dep ∈ deps ->
     exists fo fn, old !! dep = Some fo /\ new !! dep = Some fn /\
       (forall d, d ∈ data fo -> loaded_modules d = None) /\
       (forall d, d ∈ data fn -> loaded_modules d = None)) ->
  (forall c, listed new deps c ->
     is_Some (c !! "local_port") /\ is_Some (c !! "remote_port") /\
     is_Some (c !! "remote_address")) ->
  exists cs, get_new_connections old new deps = Ok cs.
Proof.
  intros Hwf Hkeys. unfold get_new_connections.
  destruct (united_returns _ _ _ Hwf [] []) as [[o n] Hu].
  assert (Hfound : get_new_objects old new deps = Ok (set_difference n o)).
  { unfold get_new_objects. by rewrite Hu. }
  rewrite Hfound. cbn. apply keep_connections_returns.
  intros c Hc. apply (get_new_objects_spec _ _ _ _ Hfound) in Hc as [Hc _].
  destruct (Hkeys c Hc) as (? & ? & ?). by apply excluded_returns.
Qed.

(** ** The DLL-list diff *)

Lemma find_old_p_spec pid old_data : forall old_p,
  find_old_p pid old_data = Ok (Some old_p) ->
  exists before after,
    old_data = before ++ old_p :: after /\
    fields old_p !! "process_id" = Some pid /\
    forall p, p ∈ before -> fields p !! "process_id" <> Some pid.
Proof.
  induction old_data as [|p old_data IH]; intros old_p H; [done|].
  cbn in H. unfold getitem in H.
  destruct (fields p !! "process_id") as [ppid|] eqn:E; [|done]. cbn in H.
  destruct (decide (pid = ppid)) as [->|Hne].
  - simplify_eq. exists [], old_data. split; [done|]. split; [done|].
    by intros p ?%elem_of_nil.
  - destruct (IH _ H) as (before & after & -> & Hpid & Hbefore).
    exists (p :: before), after. split; [done|]. split; [done|].
    intros p' [->|?]%elem_of_cons; [congruence|by apply Hbefore].
Qed.

Lemma module_found_false old_modules module :
  module_found old_modules module = Ok false ->
  forall m, m ∈ old_modules ->
    m !! "dll_full_name" <> module !! "dll_full_name".
Proof.
  induction old_modules as [|m0 old_modules IH]; intros H m Hm.
  - by apply elem_of_nil in Hm.
  - cbn in H. unfold getitem in H.
    destruct (m0 !! "dll_full_name") as [a|] eqn:Ea; [|done]. cbn in H.
    destruct (module !! "dll_full_name") as [b|] eqn:Eb; [|done]. cbn in H.
    destruct (decide (a = b)); [done|].
    apply elem_of_cons in Hm as [->|Hm].
    + rewrite Ea. congruence.
    + by apply IH.
Qed.

Lemma scan_modules_spec old_p pid pname modules : forall acc dlls,
  scan_modules old_p pid pname modules acc = Ok dlls ->
  forall r, r ∈ dlls ->
    r ∈ acc \/
    exists module old_modules,
      module ∈ modules /\ loaded_modules old_p = Some old_modules /\
      (forall m, m ∈ old_modules ->
         m !! "dll_full_name" <> module !! "dll_full_name") /\
      r = annotate pid pname module.
Proof.
  induction modules as [|module modules IH]; intros acc dlls H r Hr.
  - cbn in H. simplify_eq. by left.
  - cbn in H. unfold modules_of in H.
    destruct (loaded_modules old_p) as [old_modules|] eqn:Eo; [|done].
    cbn in H.
    destruct (module_found old_modules module) as [found|] eqn:Ef; [|done].
    cbn in H. destruct (IH _ _ H r Hr) as [Hacc|(m & om & ? & ? & ? & ?)].
    + destruct found.
      * by left.
      * apply elem_of_app in Hacc as [?|Hr'%list_elem_of_singleton];
          [by left|]. subst r.
        right. exists module, old_modules.
        split; [apply elem_of_cons; by left|]. split; [done|].
        split; [by apply module_found_false|done].
    + right. exists m, om. split; [apply elem_of_cons; by right|done].
Qed.

Lemma new_dll_mono old proc new_data r :
  new_dll old new_data r -> new_dll old (proc :: new_data) r.
Proof.
  intros (p & fo & op & b & a & pid & pn & ms & oms & m & Hp & H).
  exists p, fo, op, b, a, pid, pn, ms, oms, m.
  split; [apply elem_of_cons; by right|done].
Qed.

Lemma scan_procs_spec old new_data : forall acc dlls,
  scan_procs old new_data acc = Ok dlls ->
  forall r, r ∈ dlls -> r ∈ acc \/ new_dll old new_data r.
Proof.
  induction new_data as [|proc new_data IH]; intros acc dlls H r Hr.
  - cbn in H. simplify_eq. by left.
  - cbn in H. unfold getitem in H.
    destruct (fields proc !! "process_id") as [pid|] eqn:Epid; [|done].
    cbn in H.
    destruct (fields proc !! "process_name") as [pname|] eqn:Epn; [|done].
    cbn in H.
    destruct (old !! "dlllist") as [fo|] eqn:Eold; [|done]. cbn in H.
    destruct (find_old_p pid (data fo)) as [[old_p|]|] eqn:Efind; [| |done];
      cbn in H.
    + unfold modules_of in H at 1.
      destruct (loaded_modules proc) as [modules|] eqn:Emods; [|done].
      cbn in H.
      destruct (scan_modules old_p pid pname modules acc) as [acc'|] eqn:Es;
        [|done].
      cbn in H. destruct (IH _ _ H r Hr) as [Hacc|Hnew].
      * destruct (scan_modules_spec _ _ _ _ _ _ Es r Hacc)
          as [?|(module & old_modules & ? & ? & ? & ->)]; [by left|].
        right.
        destruct (find_old_p_spec _ _ _ Efind)
          as (before & after & ? & ? & ?).
        exists proc, fo, old_p, before, after, pid, pname, modules,
          old_modules, module.
        split; [apply elem_of_cons; by left|done].
      * right. by apply new_dll_mono.
    + destruct (IH _ _ H r Hr) as [?|?]; [by left|].
      right. by apply new_dll_mono.
Qed.

(** C10. Every module the DLL-list diff returns comes from a process [proc]
    of the new snapshot whose [process_id] is also that of a process of the
    old snapshot (so a process the old snapshot does not know contributes
    nothing); [old_p] is the first such old process, none of its loaded
    modules has the returned module's [dll_full_name], and the returned
    module is the new module annotated with the [process_id] and the
    [process_name] of [proc]. *)
Theorem get_new_dlllist_sound (old new : snapshot) (deps : list string)
    (dlls : list (gmap string value)) :
  get_new_dlllist old new deps = Ok dlls ->
  forall r, r ∈ dlls ->
    exists fn fo proc old_p before after pid pname modules old_modules module,
      new !! "dlllist" = Some fn /\ proc ∈ data fn /\
      fields proc !! "process_id" = Some pid /\
      fields proc !! "process_name" = Some pname /\
      old !! "dlllist" = Some fo /\
      data fo = before ++ old_p :: after /\
      fields old_p !! "process_id" = Some pid /\
      (forall p, p ∈ before -> fields p !! "process_id" <> Some pid) /\
      loaded_modules proc = Some modules /\ module ∈ modules /\
      loaded_modules old_p = Some old_modules /\
      (forall m, m ∈ old_modules ->
         m !! "dll_full_name" <> module !! "dll_full_name") /\
      r = <["process_name" := pname]> (<["process_id" := pid]> module) /\
      r !! "process_id" = Some pid /\ r !! "process_name" = Some pname.
Proof.
  unfold get_new_dlllist, getitem. intros H r Hr.
  destruct (new !! "dlllist") as [fn|] eqn:En; [|done]. cbn in H.
  destruct (scan_procs_spec _ _ _ _ H r Hr) as [?%elem_of_nil|Hnew]; [done|].
  destruct Hnew as (proc & fo & old_p & before & after & pid & pname & modules
                    & old_modules & module & ? & ? & ? & ? & ? & ? & ? & ? & ?
                    & ? & ? & ->).
  exists fn, fo, proc, old_p, before, after, pid, pname, modules, old_modules,
    module.
  repeat (split; [done|]). split.
  - rewrite lookup_insert_ne by done. by rewrite lookup_insert_eq.
  - by rewrite lookup_insert_eq.
Qed.

Lemma get_new_dlllist_sound_witness :
  get_new_dlllist Examples.old_dlllist Examples.new_dlllist ["dlllist"]
    = Ok [Examples.dll_B_of_4] /\
  forall r, r ∈ [Examples.dll_B_of_4] ->
    exists fn fo proc old_p before after pid pname modules old_modules module,
      Examples.new_dlllist !! "dlllist" = Some fn /\ proc ∈ data fn /\
      fields proc !! "process_id" = Some pid /\
      fields proc !! "process_name" = Some pname /\
      Examples.old_dlllist !! "dlllist" = Some fo /\
      data fo = before ++ old_p :: after /\
      fields old_p !! "process_id" = Some pid /\
      (forall p, p ∈ before -> fields p !! "process_id" <> Some pid) /\
      loaded_modules proc = Some modules /\ module ∈ modules /\
      loaded_modules old_p = Some old_modules /\
      (forall m, m ∈ old_modules ->
         m !! "dll_full_name" <> module !! "dll_full_name") /\
      r = <["process_name" := pname]> (<["process_id" := pid]> module) /\
      r !! "process_id" = Some pid /\ r !! "process_name" = Some pname.
Proof.
  assert (Hrun : get_new_dlllist Examples.old_dlllist Examples.new_dlllist
                   ["dlllist"] = Ok [Examples.dll_B_of_4])
    by (vm_compute; reflexivity).
  split; [exact Hrun|].
  exact (get_new_dlllist_sound Examples.old_dlllist Examples.new_dlllist
           ["dlllist"] [Examples.dll_B_of_4] Hrun).
Defined.

Lemma find_old_p_returns pid old_data :
  (forall p, p ∈ old_data -> dll_record p) ->
  exists o, find_old_p pid old_data = Ok o /\
            forall p, o = Some p -> p ∈ old_data.
Proof.
  induction old_data as [|p old_data IH]; intros Hwf.
  { exists None. by split. }
  destruct (Hwf p) as ([ppid Hp] & _); [apply elem_of_cons; by left|].
  cbn. unfold getitem. rewrite Hp. cbn.
  destruct (decide (pid = ppid)).
  - exists (Some p). split; [done|]. intros ? [= <-]. apply elem_of_cons. by left.
  - destruct IH as (o & -> & Ho).
    { intros ? ?. apply Hwf, elem_of_cons. by right. }
    exists o. split; [done|]. intros ? ?. apply elem_of_cons. right. by apply Ho.
Qed.

Lemma module_found_returns old_modules module :
  (forall m, m ∈ old_modules -> is_Some (m !! "dll_full_name")) ->
  is_Some (module !! "dll_full_name") ->
  exists b, module_found old_modules module = Ok b.
Proof.
  intros Hwf [b Hb]. induction old_modules as [|m old_modules IH]; [by eexists|].
  destruct (Hwf m) as [a Ha]; [apply elem_of_cons; by left|].
  cbn. unfold getitem. rewrite Ha, Hb. cbn.
  destruct (decide (a = b)); [by eexists|].
  apply IH. intros ? ?. apply Hwf, elem_of_cons. by right.
Qed.

Lemma scan_modules_returns old_p pid pname modules :
  dll_record old_p ->
  (forall m, m ∈ modules -> is_Some (m !! "dll_full_name")) ->
  forall acc, exists dlls, scan_modules old_p pid pname modules acc = Ok dlls.
Proof.
  intros (_ & _ & oms & Hom & Hwfo).
  induction modules as [|m modules IH]; intros Hwf acc; [by eexists|].
  cbn. unfold modules_of. rewrite Hom. cbn.
  destruct (module_found_returns oms m Hwfo) as [b ->].
  { apply Hwf, elem_of_cons. by left. }
  cbn. apply IH. intros ? ?. apply Hwf, elem_of_cons. by right.
Qed.

Lemma scan_procs_returns old fo new_data :
  old !! "dlllist" = Some fo ->
  (forall p, p ∈ data fo -> dll_record p) ->
  (forall p, p ∈ new_data -> dll_record p) ->
  forall acc, exists dlls, scan_procs old new_data acc = Ok dlls.
Proof.
  intros Hold Hwfo.
  induction new_data as [|proc new_data IH]; intros Hwf acc; [by eexists|].
  destruct (Hwf proc) as ([pid Hpid] & [pname Hpn] & ms & Hms & Hwfm);
    [apply elem_of_cons; by left|].
  cbn. unfold getitem. rewrite Hpid, Hpn, Hold. cbn.
  destruct (find_old_p_returns pid (data fo) Hwfo) as (o & -> & Ho). cbn.
  assert (Hrest : forall p, p ∈ new_data -> dll_record p).
  { intros ? ?. apply Hwf, elem_of_cons. by right. }
  destruct o as [old_p|].
  - unfold modules_of at 1. rewrite Hms. cbn.
    destruct (scan_modules_returns old_p pid pname ms) with (acc := acc)
      as [acc' ->]; [by apply Hwfo, Ho|done|].
    cbn. by apply IH.
  - cbn. by apply IH.
Qed.

(** The DLL-list diff returns on snapshots whose [dlllist] records carry
    the keys it reads. *)
Lemma get_new_dlllist_returns old new deps fo fn :
  old !! "dlllist" = Some fo -> new !! "dlllist" = Some fn ->
  (forall p, p ∈ data fo -> dll_record p) ->
  (forall p, p ∈ data fn -> dll_record p) ->
  exists dlls, get_new_dlllist old new deps = Ok dlls.
Proof.
  intros Hold Hnew Hwfo Hwfn. unfold get_new_dlllist, getitem.
  rewrite Hnew. cbn. by eapply scan_procs_returns.
Qed.

(** ** The escalation policy *)

Lemma extends_refl d : extends d d.
Proof. split; [|done]. intros k e ?. by exists e. Qed.

Lemma extends_trans d1 d2 d3 : extends d1 d2 -> extends d2 d3 -> extends d1 d3.
Proof.
  intros [H1 N1] [H2 N2]. split.
  - intros k e Hk. destruct (H1 k e Hk) as (e' & Hk' & Hs).
    destruct (H2 k e' Hk') as (e'' & Hk'' & Hs'). exists e''. split; [done|].
    auto.
  - intros k ? ? ?. apply N2; auto.
Qed.

(** Overwriting an entry without losing its star. *)
Lemma extends_update d k e e' :
  d !! k = Some e -> (diff_star e = "yes" -> diff_star e' = "yes") ->
  extends d (<[k := e']> d).
Proof.
  intros Hk Hs. split.
  - intros k' e0 Hk'. destruct (decide (k = k')) as [<-|Hne].
    + exists e'. rewrite lookup_insert_eq. split; [done|]. intros ?. apply Hs.
      congruence.
    + exists e0. by rewrite lookup_insert_ne.
  - intros k' Hk' _ _. rewrite lookup_insert_ne; [done|]. intros <-. congruence.
Qed.

(** Writing a starred injection entry. *)
Lemma extends_inject d k e :
  k = "injected_thread" \/ k = "injected_dll" -> diff_star e = "yes" ->
  extends d (<[k := e]> d).
Proof.
  intros Hk Hs. split.
  - intros k' e0 Hk'. destruct (decide (k = k')) as [<-|Hne].
    + exists e. by rewrite lookup_insert_eq.
    + exists e0. by rewrite lookup_insert_ne.
  - intros k' Hk' ? ?. rewrite lookup_insert_ne; [done|]. intros <-.
    by destruct Hk.
Qed.

Lemma star_if_present_extends plugin d : extends d (star_if_present plugin d).
Proof.
  unfold star_if_present. destruct (d !! plugin) as [e|] eqn:E.
  - by eapply extends_update.
  - apply extends_refl.
Qed.

Lemma star_if_present_stars plugin d :
  is_Some (d !! plugin) ->
  exists e, star_if_present plugin d !! plugin = Some e /\ diff_star e = "yes".
Proof.
  intros [e He]. unfold star_if_present. rewrite He.
  exists (with_star "yes" e). by rewrite lookup_insert_eq.
Qed.

Lemma star_plugins_extends plugins : forall d, extends d (star_plugins plugins d).
Proof.
  induction plugins as [|p plugins IH]; intros d; [apply extends_refl|].
  cbn. eapply extends_trans; [apply star_if_present_extends|apply IH].
Qed.

Lemma star_plugins_stars plugins : forall d plugin,
  plugin ∈ plugins -> is_Some (d !! plugin) ->
  exists e, star_plugins plugins d !! plugin = Some e /\ diff_star e = "yes".
Proof.
  induction plugins as [|p plugins IH]; intros d plugin Hin Hsome.
  - by apply elem_of_nil in Hin.
  - cbn. apply elem_of_cons in Hin as [->|Hin].
    + destruct (star_if_present_stars p d Hsome) as (e & He & Hs).
      destruct (star_plugins_extends plugins (star_if_present p d)) as [Hk _].
      destruct (Hk _ _ He) as (e' & ? & ?). exists e'. auto.
    + apply IH; [done|].
      destruct Hsome as [e He].
      destruct (star_if_present_extends p d) as [Hk _].
      destruct (Hk _ _ He) as (e' & ? & ?). by exists e'.
Qed.

Section Escalation.

Variable conf : gmap string TriggersConf.trigger_options.
Variable tbl : tables.
Variable vol : volatility.

Lemma dump_new_drivers_extends patches : forall d d',
  dump_new_drivers vol patches d = Ok d' -> extends d d'.
Proof.
  induction patches as [|p patches IH]; intros d d' H.
  - cbn in H. simplify_eq. apply extends_refl.
  - cbn in H. destruct (moddump vol _) as [name|]; [|done]. cbn in H.
    unfold getitem in H.
    destruct (d !! "diff_moddump") as [e|] eqn:E; [|done]. cbn in H.
    eapply extends_trans; [|by apply IH]. by eapply extends_update.
Qed.

Lemma dump_hook_modules_extends hooks : forall d d',
  dump_hook_modules vol hooks d = Ok d' -> extends d d'.
Proof.
  induction hooks as [|mh hooks IH]; intros d d' H.
  - cbn in H. simplify_eq. apply extends_refl.
  - cbn in H. destruct (hook_dlldump vol mh) as [[dll|]|]; [| |done];
      cbn in H; [|by apply IH].
    unfold getitem in H.
    destruct (d !! "injected_dll") as [e|] eqn:E; [|done]. cbn in H.
    eapply extends_trans; [|by apply IH]. by eapply extends_update.
Qed.

Lemma record_thread_extends tid ts : forall d d',
  record_thread tid ts d = Ok d' -> extends d d'.
Proof.
  induction ts as [|t ts IH]; intros d d' H.
  - cbn in H. simplify_eq. apply extends_refl.
  - cbn in H. unfold getitem in H.
    destruct (t !! "TID") as [t_tid|]; [|done]. cbn in H.
    destruct (decide (t_tid = VInt tid)) as [Htid|Htid]; [|by apply IH].
    destruct (d !! "injected_thread") as [entry|] eqn:E; [|done]. cbn in H.
    eapply extends_trans; [|by apply IH]. by eapply extends_update.
Qed.

Lemma rerun_malfind_extends args d d' :
  rerun_malfind tbl vol args d = Ok d' -> extends d d'.
Proof.
  unfold rerun_malfind, getitem. intros H.
  destruct (args !! "Protection"); [|done]. cbn in H.
  destruct (py_int16 tbl _); [|done]. cbn in H.
  destruct (PAGE_PROTECTIONS tbl !! _) as [verbal|]; [|done]. cbn in H.
  destruct (filter _ _); [done|]. cbn in H.
  destruct (d !! "diff_malfind") as [entry|] eqn:E; [|done]. cbn in H.
  destruct (args !! "ProcessId"); [|done]. cbn in H.
  destruct (args !! "Address"); [|done]. cbn in H.
  destruct (py_int16 tbl _); [|done]. cbn in H.
  destruct (malfind vol _ _ _) as [m|]; [|done]. cbn in H.
  rewrite lookup_insert_eq in H. cbn in H. simplify_eq.
  eapply extends_trans;
    [|eapply extends_update; [apply lookup_insert_eq|done]].
  eapply extends_update; [exact E|]. by destruct (contains "EXECUTE" verbal).
Qed.

Lemma follow_up_extends trigger args d d' :
  follow_up tbl vol trigger args d = Ok d' -> extends d d'.
Proof.
  unfold follow_up, getitem. intros H.
  destruct (decide (trigger = "ZwLoadDriver")).
  { destruct (patcher vol); [|done]. by eapply dump_new_drivers_extends. }
  destruct (bool_decide _ || bool_decide _).
  { destruct (d !! "diff_messagehooks");
      [by eapply dump_hook_modules_extends|].
    simplify_eq. apply extends_refl. }
  destruct (decide (trigger = "VirtualProtectEx")).
  { by eapply rerun_malfind_extends. }
  destruct (decide (trigger = _)).
  { destruct (args !! "ProcessId"); [|done]. cbn in H.
    destruct (args !! "BaseAddress"); [|done]. cbn in H.
    destruct (py_int16 tbl _); [|done]. cbn in H.
    destruct (dlldump vol _ _); [|done]. cbn in H. simplify_eq.
    apply extends_inject; [by right|done]. }
  destruct (decide (trigger = _)).
  { destruct (args !! "ProcessId"); [|done]. cbn in H.
    destruct (args !! "ThreadId"); [|done]. cbn in H.
    destruct (py_int tbl _); [|done]. cbn in H.
    destruct (threads vol _); [|done]. cbn in H.
    eapply extends_trans; [|by eapply record_thread_extends].
    apply extends_inject; [by left|done]. }
  destruct (decide (trigger = _)).
  { destruct (args !! "StartRoutine"); [|done]. cbn in H.
    destruct (py_int16 tbl _); [|done]. cbn in H.
    destruct (args !! "ProcessId"); [|done]. cbn in H.
    destruct (args !! "ThreadId"); [|done]. cbn in H.
    destruct (py_int tbl _); [|done]. cbn in H.
    destruct (threads vol _); [|done]. cbn in H.
    eapply extends_trans; [|by eapply record_thread_extends].
    apply extends_inject; [by left|done]. }
  simplify_eq. apply extends_refl.
Qed.

End Escalation.

(** C3, as the code has it.  When smart escalation is on for the trigger of
    the pass, a facet of the trigger's escalation list ends the pass starred
    if the baseline diffs hold an entry for it (or it is one of the two
    injection entries, which the pass creates); a listed facet without a
    baseline entry gets none. *)
Theorem smart_escalation_stars_present_facets
    (conf : gmap string TriggersConf.trigger_options) (tbl : tables)
    (vol : volatility) (trigger : string) (args : gmap string value)
    (plugins : list string) (diffs diffs' : gmap string diff_entry) :
  escalate conf tbl vol false (Some (trigger, args)) diffs = Ok diffs' ->
  parse_trigger_plugins conf trigger = true ->
  TRIGGER_PLUGINS tbl !! trigger = Some plugins ->
  forall plugin, plugin ∈ plugins ->
    (is_Some (diffs !! plugin) \/ plugin = "injected_thread"
       \/ plugin = "injected_dll" ->
     exists e, diffs' !! plugin = Some e /\ diff_star e = "yes") /\
    (diffs !! plugin = None -> plugin <> "injected_thread" ->
     plugin <> "injected_dll" -> diffs' !! plugin = None).
Proof.
  unfold escalate. intros H Hsmart Hlist plugin Hin. rewrite Hsmart, Hlist in H.
  set (d1 := <["injected_dll" := _]> (<["injected_thread" := _]> diffs)) in H.
  set (d2 := star_plugins plugins d1) in H.
  set (d3 := if decide (trigger = "monitorCPU")
             then star_if_present "diff_heap_entropy" d2 else d2) in H.
  assert (H23 : extends d2 d3).
  { unfold d3. destruct (decide _); [apply star_if_present_extends|].
    apply extends_refl. }
  pose proof (follow_up_extends _ _ _ _ _ _ H) as H34.
  destruct (extends_trans _ _ _ H23 H34) as [Hkeep Hnone].
  split.
  - intros Hpresent.
    assert (Hd1 : is_Some (d1 !! plugin)).
    { unfold d1. destruct (decide (plugin = "injected_dll")) as [->|?].
      { rewrite lookup_insert_eq. by eexists. }
      rewrite lookup_insert_ne by done.
      destruct (decide (plugin = "injected_thread")) as [->|?].
      { rewrite lookup_insert_eq. by eexists. }
      rewrite lookup_insert_ne by done. by destruct Hpresent as [?|[?|?]]. }
    destruct (star_plugins_stars plugins d1 plugin Hin Hd1) as (e & He & Hs).
    destruct (Hkeep _ _ He) as (e' & ? & ?). exists e'. auto.
  - intros Habsent ? ?. apply Hnone; [|done..].
    destruct (star_plugins_extends plugins d1) as [_ Hn]. apply Hn; [|done..].
    unfold d1. by rewrite !lookup_insert_ne.
Qed.

Lemma smart_escalation_stars_present_facets_witness :
  escalate Examples.smart_conf Examples.socket_tables Examples.no_volatility
           false (Some ("socket", ∅)) Examples.baseline_diffs
    = Ok Examples.escalated_diffs /\
  forall plugin, plugin ∈ ["diff_connections"; "diff_processes"] ->
    (is_Some (Examples.baseline_diffs !! plugin)
       \/ plugin = "injected_thread" \/ plugin = "injected_dll" ->
     exists e, Examples.escalated_diffs !! plugin = Some e
               /\ diff_star e = "yes") /\
    (Examples.baseline_diffs !! plugin = None ->
     plugin <> "injected_thread" -> plugin <> "injected_dll" ->
     Examples.escalated_diffs !! plugin = None).
Proof.
  split; [vm_compute; reflexivity|].
  apply (smart_escalation_stars_present_facets Examples.smart_conf
           Examples.socket_tables Examples.no_volatility "socket" ∅
           ["diff_connections"; "diff_processes"]
           Examples.baseline_diffs Examples.escalated_diffs).
  - vm_compute. reflexivity.
  - vm_compute. reflexivity.
  - vm_compute. reflexivity.
Defined.

(** C3 as stated fails: with smart escalation on for [socket] and
    [diff_connections] on its escalation list, the pass ends with no
    [diff_connections] entry at all, hence none marked ["yes"]. *)
Lemma smart_escalation_skips_absent_facet :
  escalate Examples.smart_conf Examples.socket_tables Examples.no_volatility
           false (Some ("socket", ∅)) Examples.baseline_diffs
    = Ok Examples.escalated_diffs /\
  parse_trigger_plugins Examples.smart_conf "socket" = true /\
  TRIGGER_PLUGINS Examples.socket_tables !! "socket"
    = Some ["diff_connections"; "diff_processes"] /\
  ~ (exists e, Examples.escalated_diffs !! "diff_connections" = Some e
               /\ diff_star e = "yes").
Proof.
  split; [vm_compute; reflexivity|]. split; [vm_compute; reflexivity|].
  split; [vm_compute; reflexivity|].
  intros (e & He & _). vm_compute in He. discriminate.
Qed.

(** ** New and deleted objects *)

Lemma united_swap old new deps : forall ao an o n,
  united old new deps ao an = Ok (o, n) ->
  united new old deps an ao = Ok (n, o).
Proof.
  induction deps as [|dep deps IH]; intros ao an o n Hu.
  - cbn in Hu |- *. by simplify_eq.
  - cbn in Hu |- *. unfold getitem in *.
    destruct (old !! dep) as [fo|]; [|done]. cbn in Hu.
    destruct (set_of (data fo)) as [so|] eqn:Eo; [|done]. cbn in Hu.
    destruct (new !! dep) as [fn|]; [|done]. cbn in Hu.
    destruct (set_of (data fn)) as [sn|] eqn:En; [|done]. cbn in Hu |- *.
    rewrite En. cbn. rewrite Eo. cbn. by apply IH.
Qed.

(** The diff run the other way round returns too, with nothing in common. *)
Lemma get_new_objects_swap old new deps found :
  get_new_objects old new deps = Ok found ->
  exists deleted,
    get_new_objects new old deps = Ok deleted /\
    forall c, c ∈ found -> c ∉ deleted.
Proof.
  intros Hnew. pose proof Hnew as Hrun. unfold get_new_objects in Hrun.
  destruct (united old new deps [] []) as [[o n]|] eqn:E; [|done].
  assert (Hdel : get_new_objects new old deps = Ok (set_difference o n)).
  { unfold get_new_objects. by rewrite (united_swap _ _ _ _ _ _ _ E). }
  exists (set_difference o n). split; [done|].
  destruct (get_new_objects_spec _ _ _ _ Hnew) as [_ Hf].
  destruct (get_new_objects_spec _ _ _ _ Hdel) as [_ Hd].
  intros c Hc Hc'. apply Hf in Hc. apply Hd in Hc'. tauto.
Qed.

(** X15. The diff run both ways, as [run_memory_plugin] runs it for the
    keys [new] and [deleted]: when the diff of [new] against [old] returns,
    so does the diff of [old] against [new]; no dictionary is in both
    results, a dictionary listed in both snapshots is in neither, and the
    diff of a snapshot against itself is empty. *)
Theorem get_new_objects_both_ways (old new : snapshot) (deps : list string)
    (found : list (gmap string value)) :
  get_new_objects old new deps = Ok found ->
  exists deleted,
    get_new_objects new old deps = Ok deleted /\
    (forall c, c ∈ found -> c ∉ deleted) /\
    (forall c, listed old deps c -> listed new deps c ->
               (c ∉ found) /\ (c ∉ deleted)) /\
    (old = new -> found = []).
Proof.
  intros Hnew. pose proof Hnew as Hrun. unfold get_new_objects in Hrun.
  destruct (united old new deps [] []) as [[o n]|] eqn:E; [|done].
  assert (Hdel : get_new_objects new old deps = Ok (set_difference o n)).
  { unfold get_new_objects. by rewrite (united_swap _ _ _ _ _ _ _ E). }
  exists (set_difference o n). split; [done|].
  destruct (get_new_objects_spec _ _ _ _ Hnew) as [_ Hf].
  destruct (get_new_objects_spec _ _ _ _ Hdel) as [_ Hd].
  split; [|split].
  - intros c Hc Hc'. apply Hf in Hc. apply Hd in Hc'. tauto.
  - intros c Ho Hn. split; intros Hc.
    + apply Hf in Hc. tauto.
    + apply Hd in Hc. tauto.
  - intros ->. destruct found as [|c found]; [done|].
    assert (Hc : c ∈ c :: found) by (apply elem_of_cons; by left).
    apply Hf in Hc. tauto.
Qed.

Lemma get_new_objects_both_ways_witness :
  exists deleted,
    get_new_objects Examples.new_connections Examples.old_connections
                    ["connections"] = Ok deleted /\
    (forall c, c ∈ [Examples.conn_noisy; Examples.conn_plain] ->
               c ∉ deleted) /\
    (forall c, listed Examples.old_connections ["connections"] c ->
               listed Examples.new_connections ["connections"] c ->
               (c ∉ [Examples.conn_noisy; Examples.conn_plain]) /\
               (c ∉ deleted)) /\
    (Examples.old_connections = Examples.new_connections ->
     [Examples.conn_noisy; Examples.conn_plain] = []).
Proof.
  apply (get_new_objects_both_ways Examples.old_connections
           Examples.new_connections ["connections"]).
  apply (bool_decide_unpack _). vm_compute. exact I.
Defined.

(** ** The field diffs *)

Lemma similar_spec o o2 fs b :
  similar o o2 fs = Ok b -> if b then agree o o2 fs else ~ agree o o2 fs.
Proof.
  revert b. induction fs as [|f fs IH]; intros b; cbn.
  - intros [= <-]. by intros f ?%elem_of_nil.
  - unfold getitem, record_getitem.
    destruct (o !! f) as [a|] eqn:Ea; [|done]. cbn.
    destruct (fields o2 !! f) as [v|] eqn:Ev; cbn.
    + destruct (decide (Some a = Some v)) as [[= ->]|Hne].
      * intros Hs. specialize (IH b Hs). destruct b.
        -- intros f' [->|Hf]%elem_of_cons; [by exists v|by apply IH].
        -- intros Hag. apply IH. intros f' Hf. apply Hag, elem_of_cons.
           by right.
      * intros [= <-]. intros Hag.
        destruct (Hag f) as (w & Hw1 & Hw2); [apply elem_of_cons; by left|].
        congruence.
    + destruct (decide (f = "loaded_modules")); [|done].
      destruct (loaded_modules o2); [|done]. cbn.
      rewrite decide_False by done. intros [= <-]. intros Hag.
      destruct (Hag f) as (w & Hw1 & Hw2); [apply elem_of_cons; by left|].
      congruence.
Qed.

Lemma exists_similar_spec o old_data fs b :
  exists_similar o old_data fs = Ok b ->
  if b then exists o2, o2 ∈ old_data /\ agree o o2 fs
  else forall o2, o2 ∈ old_data -> ~ agree o o2 fs.
Proof.
  revert b. induction old_data as [|o2 old_data IH]; intros b; cbn.
  - intros [= <-]. by intros o2 ?%elem_of_nil.
  - destruct (similar o o2 fs) as [s|] eqn:Es; [|done]. cbn.
    apply similar_spec in Es. destruct s.
    + intros [= <-]. exists o2. split; [apply elem_of_cons; by left|done].
    + intros Hrest. specialize (IH b Hrest). destruct b.
      * destruct IH as (o3 & ? & ?). exists o3.
        split; [apply elem_of_cons; by right|done].
      * intros o3 [->|?]%elem_of_cons; [done|by apply IH].
Qed.

Lemma keep_new_by_field_spec old deps fs found : forall acc l,
  keep_new_by_field old deps fs found acc = Ok l ->
  exists kept,
    l = acc ++ kept /\ sublist kept found /\
    forall o, o ∈ kept <->
      o ∈ found /\
      forall dep fo o2, first_dep deps = Ok dep -> old !! dep = Some fo ->
                        o2 ∈ data fo -> ~ agree o o2 fs.
Proof.
  induction found as [|o found IH]; intros acc l; cbn.
  - intros [= <-]. exists []. rewrite app_nil_r. split; [done|].
    split; [done|]. intros o. split; [by intros ?%elem_of_nil|].
    by intros [?%elem_of_nil _].
  - destruct (first_dep deps) as [dep|] eqn:Ed; [|done]. cbn.
    unfold getitem. destruct (old !! dep) as [fo|] eqn:Eo; [|done]. cbn.
    destruct (exists_similar o (data fo) fs) as [b|] eqn:Ex; [|done]. cbn.
    apply exists_similar_spec in Ex. intros Hrest.
    destruct (IH _ _ Hrest) as (kept & -> & Hsub & Hkept). destruct b.
    + exists kept. split; [done|]. split; [by apply sublist_cons|].
      intros o'. rewrite Hkept, elem_of_cons. split.
      * intros [? ?]. split; [by right|done].
      * intros [[->|?] Hno]; [|done].
        destruct Ex as (o2 & ? & ?). exfalso. by eapply (Hno dep fo o2).
    + exists (o :: kept). rewrite <- app_assoc. split; [done|].
      split; [by apply sublist_skip|].
      intros o'. rewrite !elem_of_cons, Hkept. split.
      * intros [->|[? ?]]; [|split; [by right|done]].
        split; [by left|]. intros dep' fo' o2 [= <-] Hfo. simplify_eq.
        by apply Ex.
      * intros [[->|?] ?]; [by left|by right].
Qed.

Lemma get_new_by_field_nodup old new deps fs l :
  get_new_by_field old new deps fs = Ok l -> NoDup l.
Proof.
  unfold get_new_by_field. intros H.
  destruct (get_new_objects old new deps) as [found|] eqn:E; [|done].
  cbn in H. destruct (get_new_objects_spec _ _ _ _ E) as [Hnd _].
  destruct (keep_new_by_field_spec _ _ _ _ _ _ H) as (kept & -> & Hsub & _).
  by eapply sublist_NoDup.
Qed.

(** X16. [get_new_by_field], and with it the handle, timer, mutant, process
    and service diffs, returns, without repetition, the dictionaries of the
    raw new-object diff that agree on all the given fields with no record
    of the first dependency in [old]: a new record that differs from every
    old one as a whole but shares the fields with one of them is left
    out. *)
Theorem get_new_by_field_spec (old new : snapshot) (deps fields : list string)
    (new_objs : list (gmap string value)) :
  get_new_by_field old new deps fields = Ok new_objs ->
  NoDup new_objs /\
  forall o, o ∈ new_objs <->
    (listed new deps o /\ ~ listed old deps o) /\
    forall dep fo o2,
      first_dep deps = Ok dep -> old !! dep = Some fo -> o2 ∈ data fo ->
      ~ agree o o2 fields.
Proof.
  unfold get_new_by_field. intros H.
  destruct (get_new_objects old new deps) as [found|] eqn:E; [|done].
  cbn in H. destruct (get_new_objects_spec _ _ _ _ E) as [Hnd Hfound].
  destruct (keep_new_by_field_spec _ _ _ _ _ _ H) as (kept & -> & Hsub & Hk).
  cbn. split; [by eapply sublist_NoDup|].
  intros o. by rewrite Hk, Hfound.
Qed.

Lemma get_new_by_field_spec_witness :
  NoDup [Examples.ps 8 1] /\
  forall o, o ∈ [Examples.ps 8 1] <->
    (listed Examples.new_pslist ["pslist"] o /\
     ~ listed Examples.old_pslist ["pslist"] o) /\
    forall dep fo o2,
      first_dep ["pslist"] = Ok dep -> Examples.old_pslist !! dep = Some fo ->
      o2 ∈ data fo -> ~ agree o o2 ["process_id"].
Proof.
  apply (get_new_by_field_spec Examples.old_pslist Examples.new_pslist
           ["pslist"] ["process_id"]).
  apply (bool_decide_unpack _). vm_compute. exact I.
Defined.

(** ** Hidden processes *)

Lemma rule_holds_spec proc rule b :
  rule_holds proc rule = Ok b ->
  if b then satisfies proc rule else ~ satisfies proc rule.
Proof.
  revert b. induction rule as [|[attr val] rule IH]; intros b; cbn.
  - intros [= <-]. by intros attr val ?%elem_of_nil.
  - unfold getitem. destruct (proc !! attr) as [v|] eqn:Ev; [|done]. cbn.
    destruct (decide (v <> val)) as [Hne|Heq].
    + intros [= <-]. intros Hsat.
      specialize (Hsat attr val). rewrite Ev in Hsat.
      assert (Some v = Some val) by (apply Hsat, elem_of_cons; by left).
      congruence.
    + assert (v = val) as -> by (by destruct (decide (v = val))).
      intros Hrest. specialize (IH b Hrest). destruct b.
      * intros a w [[= -> ->]|?]%elem_of_cons; [done|by apply IH].
      * intros Hsat. apply IH. intros a w ?. apply Hsat, elem_of_cons.
        by right.
Qed.

Lemma matches_rule_spec proc rules b :
  matches_rule proc rules = Ok b ->
  if b then
    exists rule, rule ∈ rules /\ satisfies proc rule /\
                 proc !! "process_name" <> Some (VStr "python.exe")
  else
    forall rule, rule ∈ rules -> satisfies proc rule ->
                 proc !! "process_name" = Some (VStr "python.exe").
Proof.
  revert b. induction rules as [|rule rules IH]; intros b; cbn.
  - intros [= <-]. by intros rule ?%elem_of_nil.
  - destruct (rule_holds proc rule) as [s|] eqn:Es; [|done]. cbn.
    apply rule_holds_spec in Es.
    assert (Hrest : matches_rule proc rules = Ok b ->
              (forall r, r = rule -> satisfies proc r ->
                 proc !! "process_name" = Some (VStr "python.exe")) ->
              if b then
                exists rule0, rule0 ∈ rule :: rules /\ satisfies proc rule0 /\
                  proc !! "process_name" <> Some (VStr "python.exe")
              else
                forall rule0, rule0 ∈ rule :: rules -> satisfies proc rule0 ->
                  proc !! "process_name" = Some (VStr "python.exe")).
    { intros Hm Hthis. specialize (IH b Hm). destruct b.
      - destruct IH as (r & ? & ?). exists r.
        split; [apply elem_of_cons; by right|done].
      - intros r [->|?]%elem_of_cons; [by apply Hthis|by apply IH]. }
    destruct s.
    + unfold getitem.
      destruct (proc !! "process_name") as [name|] eqn:En; [|done]. cbn.
      destruct (decide (name <> VStr "python.exe")) as [Hne|Heq].
      * intros [= <-]. exists rule. split; [apply elem_of_cons; by left|].
        split; [done|congruence].
      * assert (name = VStr "python.exe") as ->
          by (by destruct (decide (name = VStr "python.exe"))).
        intros Hm. apply Hrest; [done|]. by intros r -> _.
    + intros Hm. apply Hrest; [done|]. by intros r -> ?.
Qed.

Lemma keep_hidden_spec rules proclist : forall acc l,
  keep_hidden rules proclist acc = Ok l ->
  exists kept,
    l = acc ++ kept /\ sublist kept proclist /\
    forall p, p ∈ kept <->
      p ∈ proclist /\
      exists rule, rule ∈ rules /\ satisfies p rule /\
                   p !! "process_name" <> Some (VStr "python.exe").
Proof.
  induction proclist as [|proc proclist IH]; intros acc l; cbn.
  - intros [= <-]. exists []. rewrite app_nil_r. split; [done|].
    split; [done|]. intros p. split; [by intros ?%elem_of_nil|].
    by intros [?%elem_of_nil _].
  - destruct (matches_rule proc rules) as [b|] eqn:Em; [|done]. cbn.
    apply matches_rule_spec in Em. intros Hrest.
    destruct (IH _ _ Hrest) as (kept & -> & Hsub & Hkept). destruct b.
    + exists (proc :: kept). rewrite <- app_assoc. split; [done|].
      split; [by apply sublist_skip|].
      intros p. rewrite !elem_of_cons, Hkept. split.
      * intros [->|[? ?]]; [split; [by left|done]|split; [by right|done]].
      * intros [[->|?] ?]; [by left|by right].
    + exists kept. split; [done|]. split; [by apply sublist_cons|].
      intros p. rewrite Hkept, elem_of_cons. split.
      * intros [? ?]. split; [by right|done].
      * intros [[->|?] Hr]; [|done].
        destruct Hr as (rule & Hin & Hsat & Hname). exfalso.
        apply Hname. by apply (Em rule).
Qed.

(** X17. The hidden-process diff returns, without repetition, the new
    processes (by [process_id], as [get_new_processes] finds them) that have
    every value some rule of [PSXSCAN_RULES] asks for and are not named
    [python.exe]: the sandbox's own agent is never reported, whatever rule
    it satisfies. *)
Theorem get_new_hidden_processes_spec
    (PSXSCAN_RULES : list (list (string * value))) (old new : snapshot)
    (deps : list string) (hidden : list (gmap string value)) :
  get_new_hidden_processes PSXSCAN_RULES old new deps = Ok hidden ->
  exists proclist,
    get_new_processes old new deps = Ok proclist /\
    NoDup hidden /\
    (forall p, p ∈ hidden <->
       p ∈ proclist /\
       exists rule, rule ∈ PSXSCAN_RULES /\ satisfies p rule /\
                    p !! "process_name" <> Some (VStr "python.exe")) /\
    (forall p, p ∈ hidden ->
       p !! "process_name" <> Some (VStr "python.exe")).
Proof.
  unfold get_new_hidden_processes. intros H.
  destruct (get_new_processes old new deps) as [proclist|] eqn:E; [|done].
  cbn in H. exists proclist. split; [done|].
  pose proof (get_new_by_field_nodup _ _ _ _ _ E) as Hnd.
  destruct (keep_hidden_spec _ _ _ _ H) as (kept & -> & Hsub & Hk). cbn.
  split; [by eapply sublist_NoDup|]. split; [done|].
  intros p Hp. apply Hk in Hp as (_ & rule & _ & _ & Hname). done.
Qed.

Lemma get_new_hidden_processes_spec_witness :
  exists proclist,
    get_new_processes Examples.old_psxview Examples.new_psxview ["psxview"]
    = Ok proclist /\
    NoDup [Examples.view 9 "m.exe" "False"] /\
    (forall p, p ∈ [Examples.view 9 "m.exe" "False"] <->
       p ∈ proclist /\
       exists rule, rule ∈ [Examples.not_in_pslist] /\ satisfies p rule /\
                    p !! "process_name" <> Some (VStr "python.exe")) /\
    (forall p, p ∈ [Examples.view 9 "m.exe" "False"] ->
       p !! "process_name" <> Some (VStr "python.exe")).
Proof.
  apply (get_new_hidden_processes_spec [Examples.not_in_pslist]
           Examples.old_psxview Examples.new_psxview ["psxview"]).
  apply (bool_decide_unpack _). vm_compute. exact I.
Defined.

(** ** Injected code *)

Lemma keep_mals_spec found : forall acc l,
  keep_mals found acc = Ok l ->
  exists kept,
    l = acc ++ kept /\ sublist kept found /\
    forall m, m ∈ kept <->
      m ∈ found /\ m !! "process_name" <> Some (VStr "python.exe").
Proof.
  induction found as [|m0 found IH]; intros acc l; cbn.
  - intros [= <-]. exists []. rewrite app_nil_r. split; [done|].
    split; [done|]. intros m. split; [by intros ?%elem_of_nil|].
    by intros [?%elem_of_nil _].
  - unfold getitem. destruct (m0 !! "process_name") as [name|] eqn:En; [|done].
    cbn. intros Hrest.
    destruct (IH _ _ Hrest) as (kept & -> & Hsub & Hkept).
    destruct (decide (name = VStr "python.exe")) as [->|Hne].
    + exists kept. split; [done|]. split; [by apply sublist_cons|].
      intros m. rewrite Hkept, elem_of_cons. split.
      * intros [? ?]. split; [by right|done].
      * intros [[->|?] ?]; done.
    + exists (m0 :: kept). rewrite <- app_assoc. split; [done|].
      split; [by apply sublist_skip|].
      intros m. rewrite !elem_of_cons, Hkept. split.
      * intros [->|[? ?]]; [|split; [by right|done]].
        split; [by left|congruence].
      * intros [[->|?] ?]; [by left|by right].
Qed.

Lemma copy_dumps_length t dump_dir malfinds_dir new_mals : forall acc copies,
  copy_dumps t dump_dir malfinds_dir new_mals acc = Ok copies ->
  length copies = (length acc + length new_mals)%nat.
Proof.
  induction new_mals as [|m new_mals IH]; intros acc copies; cbn.
  - intros [= <-]. lia.
  - destruct (dump_name t m) as [name|]; [|done]. cbn. intros Hrest.
    rewrite (IH _ _ Hrest), length_app. cbn. lia.
Qed.

(** X18. The injected-code diff returns, without repetition, the findings
    of the raw new-object diff that are not in a process named
    [python.exe]; with a dump directory one copy is asked for per returned
    finding, and the findings returned are those returned without one: the
    dump directory adds ways to fail (a finding without [offset] or
    [vad_start]) but changes no result. *)
Theorem get_new_malfind_spec (t : tables) (malfinds_dir : string)
    (old new : snapshot) (deps : list string) (dump_dir : option string)
    (new_mals : list (gmap string value)) (copies : list (string * string)) :
  get_new_malfind t malfinds_dir old new deps dump_dir
  = Ok (new_mals, copies) ->
  NoDup new_mals /\
  (forall m, m ∈ new_mals <->
     (listed new deps m /\ ~ listed old deps m) /\
     m !! "process_name" <> Some (VStr "python.exe")) /\
  length copies = match dump_dir with
                  | Some _ => length new_mals
                  | None => 0%nat
                  end /\
  get_new_malfind t malfinds_dir old new deps None = Ok (new_mals, []).
Proof.
  unfold get_new_malfind. intros H.
  destruct (get_new_objects old new deps) as [found|] eqn:E; [|done].
  cbn in H |- *. destruct (get_new_objects_spec _ _ _ _ E) as [Hnd Hfound].
  destruct (keep_mals found []) as [mals|] eqn:Ek; [|done]. cbn in H |- *.
  destruct (keep_mals_spec _ _ _ Ek) as (kept & -> & Hsub & Hk). cbn in *.
  assert (Hres : new_mals = kept /\
                 length copies = match dump_dir with
                                 | Some _ => length kept
                                 | None => 0%nat
                                 end).
  { destruct dump_dir as [dir|].
    - destruct (copy_dumps t dir malfinds_dir kept []) as [cs|] eqn:Ec;
        [|done].
      cbn in H. simplify_eq. split; [done|].
      by rewrite (copy_dumps_length _ _ _ _ _ _ Ec).
    - by simplify_eq. }
  destruct Hres as [-> Hlen].
  split; [by eapply sublist_NoDup|]. split; [|done].
  intros m. by rewrite Hk, Hfound.
Qed.

Lemma get_new_malfind_spec_witness :
  NoDup [Examples.finding "m.exe" 2] /\
  (forall m, m ∈ [Examples.finding "m.exe" 2] <->
     (listed Examples.new_malfind ["malfind"] m /\
      ~ listed Examples.old_malfind ["malfind"] m) /\
     m !! "process_name" <> Some (VStr "python.exe")) /\
  length [("/dumps//process.0x2.0x400000.dmp",
           "/malfinds/process.0x2.0x400000.dmp")]
  = match Some "/dumps" with
    | Some _ => length [Examples.finding "m.exe" 2]
    | None => 0%nat
    end /\
  get_new_malfind Examples.malfind_tables "/malfinds/" Examples.old_malfind
                  Examples.new_malfind ["malfind"] None
  = Ok ([Examples.finding "m.exe" 2], []).
Proof.
  apply (get_new_malfind_spec Examples.malfind_tables "/malfinds/"
           Examples.old_malfind Examples.new_malfind ["malfind"]
           (Some "/dumps")).
  apply (bool_decide_unpack _). vm_compute. exact I.
Defined.

(** ** Devices *)

Lemma device_among_spec old_devices new_device b :
  device_among old_devices new_device = Ok b ->
  if b then exists y, y ∈ old_devices /\ same_device y new_device
  else (forall y, y ∈ old_devices -> ~ same_device y new_device) /\
       new_device ∉ old_devices.
Proof.
  revert b. induction old_devices as [|y0 old_devices IH]; intros b; cbn.
  - intros [= <-]. split; [by intros y ?%elem_of_nil|by intros ?%elem_of_nil].
  - unfold getitem.
    destruct (y0 !! "device_name") as [a|] eqn:Ea; [|done]. cbn.
    destruct (new_device !! "device_name") as [a'|] eqn:Ea'; [|done]. cbn.
    assert (Hrest : device_among old_devices new_device = Ok b ->
              ~ same_device y0 new_device -> y0 <> new_device ->
              if b then exists y, y ∈ y0 :: old_devices /\
                                  same_device y new_device
              else (forall y, y ∈ y0 :: old_devices ->
                              ~ same_device y new_device) /\
                   new_device ∉ y0 :: old_devices).
    { intros Hd Hthis Hne. specialize (IH b Hd). destruct b.
      - destruct IH as (y & ? & ?). exists y.
        split; [apply elem_of_cons; by right|done].
      - destruct IH as [IH1 IH2]. split.
        + intros y [->|?]%elem_of_cons; [done|by apply IH1].
        + intros [?|?]%elem_of_cons; [congruence|done]. }
    destruct (decide (a = a')) as [<-|Hne].
    + destruct (y0 !! "device_type") as [c|] eqn:Ec; [|done]. cbn.
      destruct (new_device !! "device_type") as [c'|] eqn:Ec'; [|done]. cbn.
      destruct (decide (c = c')) as [<-|Hnc].
      * intros [= <-]. exists y0. split; [apply elem_of_cons; by left|].
        by exists a, c.
      * intros Hd. apply Hrest; [done| |congruence].
        intros (n & t & ? & ? & ? & ?). congruence.
    + intros Hd. apply Hrest; [done| |congruence].
      intros (n & t & ? & ? & ? & ?). congruence.
Qed.

Lemma device_known_spec old_drivers new_device b :
  device_known old_drivers new_device = Ok b ->
  if b then exists y, y ∈ all_devices old_drivers /\ same_device y new_device
  else (forall y, y ∈ all_devices old_drivers -> ~ same_device y new_device)
       /\ new_device ∉ all_devices old_drivers.
Proof.
  revert b. induction old_drivers as [|d old_drivers IH]; intros b; cbn.
  - intros [= <-]. split; [by intros y ?%elem_of_nil|by intros ?%elem_of_nil].
  - unfold devices_of. destruct (devices d) as [devs|]; [|done]. cbn.
    destruct (device_among devs new_device) as [known|] eqn:Ek; [|done]. cbn.
    apply device_among_spec in Ek. destruct known.
    + intros [= <-]. destruct Ek as (y & ? & ?). exists y.
      split; [apply elem_of_app; by left|done].
    + intros Hd. specialize (IH b Hd). destruct Ek as [Ek1 Ek2]. destruct b.
      * destruct IH as (y & ? & ?). exists y.
        split; [apply elem_of_app; by right|done].
      * destruct IH as [IH1 IH2]. split.
        -- intros y [?|?]%elem_of_app; [by apply Ek1|by apply IH1].
        -- intros [?|?]%elem_of_app; done.
Qed.

Lemma scan_devices_spec old_drivers new_devices : forall acc l,
  scan_devices old_drivers new_devices acc = Ok l ->
  exists kept,
    l = acc ++ kept /\ sublist kept new_devices /\
    forall x, x ∈ kept <->
      x ∈ new_devices /\
      (forall y, y ∈ all_devices old_drivers -> ~ same_device y x) /\
      x ∉ all_devices old_drivers.
Proof.
  induction new_devices as [|x0 new_devices IH]; intros acc l; cbn.
  - intros [= <-]. exists []. rewrite app_nil_r. split; [done|].
    split; [done|]. intros x. split; [by intros ?%elem_of_nil|].
    by intros [?%elem_of_nil _].
  - destruct (device_known old_drivers x0) as [known|] eqn:Ek; [|done]. cbn.
    apply device_known_spec in Ek. intros Hrest.
    destruct (IH _ _ Hrest) as (kept & -> & Hsub & Hkept). destruct known.
    + exists kept. split; [done|]. split; [by apply sublist_cons|].
      intros x. rewrite Hkept, elem_of_cons. split.
      * intros [? ?]. split; [by right|done].
      * intros [[->|?] Hcond]; [|done]. destruct Hcond as [Hno _].
        destruct Ek as (y & ? & ?). exfalso. by apply (Hno y).
    + exists (x0 :: kept). rewrite <- app_assoc. split; [done|].
      split; [by apply sublist_skip|].
      intros x. rewrite !elem_of_cons, Hkept. split.
      * intros [->|[? ?]]; [split; [by left|done]|split; [by right|done]].
      * intros [[->|?] ?]; [by left|by right].
Qed.

Lemma scan_drivers_spec old_drivers new_drivers : forall acc l,
  scan_drivers old_drivers new_drivers acc = Ok l ->
  exists kept,
    l = acc ++ kept /\ sublist kept (all_devices new_drivers) /\
    forall x, x ∈ kept <->
      x ∈ all_devices new_drivers /\
      (forall y, y ∈ all_devices old_drivers -> ~ same_device y x) /\
      x ∉ all_devices old_drivers.
Proof.
  induction new_drivers as [|d new_drivers IH]; intros acc l; cbn.
  - intros [= <-]. exists []. rewrite app_nil_r. split; [done|].
    split; [done|]. intros x. split; [by intros ?%elem_of_nil|].
    by intros [?%elem_of_nil _].
  - unfold devices_of. destruct (devices d) as [devs|]; [|done]. cbn.
    destruct (scan_devices old_drivers devs acc) as [acc'|] eqn:Es; [|done].
    cbn. intros Hrest.
    destruct (scan_devices_spec _ _ _ _ Es) as (k1 & -> & Hsub1 & Hk1).
    destruct (IH _ _ Hrest) as (k2 & -> & Hsub2 & Hk2).
    exists (k1 ++ k2). rewrite <- app_assoc. split; [done|].
    split; [by apply sublist_app|].
    intros x. rewrite !elem_of_app, Hk1, Hk2. tauto.
Qed.

(** A scan that returned has compared every new device. *)
Lemma scan_devices_consults old_drivers new_devices : forall acc l,
  scan_devices old_drivers new_devices acc = Ok l ->
  forall x, x ∈ new_devices -> exists b, device_known old_drivers x = Ok b.
Proof.
  induction new_devices as [|x0 new_devices IH]; intros acc l Hrun x Hx;
    [by apply elem_of_nil in Hx|].
  cbn in Hrun.
  destruct (device_known old_drivers x0) as [known|] eqn:Ek; [|done].
  apply elem_of_cons in Hx as [->|Hx]; [by eexists|].
  cbn in Hrun. by eapply IH.
Qed.

Lemma scan_drivers_consults old_drivers new_drivers : forall acc l,
  scan_drivers old_drivers new_drivers acc = Ok l ->
  forall x, x ∈ all_devices new_drivers ->
            exists b, device_known old_drivers x = Ok b.
Proof.
  induction new_drivers as [|d new_drivers IH]; intros acc l Hrun x Hx;
    [by apply elem_of_nil in Hx|].
  cbn in Hrun, Hx. unfold devices_of in Hrun.
  destruct (devices d) as [devs|]; [|done]. cbn in Hrun, Hx.
  destruct (scan_devices old_drivers devs acc) as [acc'|] eqn:Es; [|done].
  cbn in Hrun. apply elem_of_app in Hx as [Hx|Hx]; [|by eapply IH].
  by eapply scan_devices_consults.
Qed.

(** A scan keeps exactly the new devices, each as often as it occurs. *)
Lemma scan_devices_filter old_drivers new_devices : forall acc l,
  scan_devices old_drivers new_devices acc = Ok l ->
  l = acc ++ filter (device_is_new (all_devices old_drivers)) new_devices.
Proof.
  induction new_devices as [|x0 new_devices IH]; intros acc l Hrun;
    cbn in Hrun.
  - injection Hrun as <-. by rewrite filter_nil, app_nil_r.
  - destruct (device_known old_drivers x0) as [known|] eqn:Ek; [|done].
    cbn in Hrun. apply device_known_spec in Ek. rewrite (IH _ _ Hrun).
    rewrite filter_cons. destruct known.
    + destruct Ek as (y & Hy & Hsame). rewrite decide_False; [done|].
      intros Hnew. unfold device_is_new in Hnew.
      rewrite Forall_forall in Hnew. by apply (Hnew y).
    + destruct Ek as [Hno _]. rewrite decide_True; [by rewrite <- app_assoc|].
      unfold device_is_new. by rewrite Forall_forall.
Qed.

Lemma scan_drivers_filter old_drivers new_drivers : forall acc l,
  scan_drivers old_drivers new_drivers acc = Ok l ->
  l = acc ++ filter (device_is_new (all_devices old_drivers))
                    (all_devices new_drivers).
Proof.
  induction new_drivers as [|d new_drivers IH]; intros acc l Hrun;
    cbn in Hrun.
  - injection Hrun as <-. cbn [all_devices]. by rewrite filter_nil, app_nil_r.
  - unfold devices_of in Hrun. cbn [all_devices].
    destruct (devices d) as [devs|]; [|done]. cbn in Hrun.
    destruct (scan_devices old_drivers devs acc) as [acc'|] eqn:Es; [|done].
    cbn in Hrun. rewrite (IH _ _ Hrun).
    rewrite (scan_devices_filter _ _ _ _ Es).
    by rewrite filter_app, <- app_assoc.
Qed.

(** X19. When the device diff returns, it returns the list of the devices
    of the new drivers (first dependency), driver after driver, with every
    device removed that has the name and the type of a device of any old
    driver, whichever driver holds it; the devices kept stay in their order
    and as often as they occur.  So a device that moved to another driver
    is not new, and the diff of a snapshot against itself is empty. *)
Theorem get_new_devices_spec (old new : driver_snapshot) (deps : list string)
    (found_devs : list (gmap string value)) :
  get_new_devices old new deps = Ok found_devs ->
  exists dep old_drivers new_drivers,
    first_dep deps = Ok dep /\
    old !! dep = Some old_drivers /\ new !! dep = Some new_drivers /\
    found_devs = filter (device_is_new (all_devices old_drivers))
                        (all_devices new_drivers) /\
    sublist found_devs (all_devices new_drivers) /\
    (forall x, x ∈ found_devs <->
       x ∈ all_devices new_drivers /\
       forall y, y ∈ all_devices old_drivers -> ~ same_device y x) /\
    (old = new -> found_devs = []).
Proof.
  unfold get_new_devices, getitem. intros H.
  destruct (first_dep deps) as [dep|] eqn:Ed; [|done]. cbn in H.
  destruct (old !! dep) as [old_drivers|] eqn:Eo; [|done]. cbn in H.
  destruct (new !! dep) as [new_drivers|] eqn:En; [|done]. cbn in H.
  exists dep, old_drivers, new_drivers. pose proof H as Hrun.
  pose proof (scan_drivers_filter _ _ _ _ H) as Hexact.
  destruct (scan_drivers_spec _ _ _ _ H) as (kept & -> & Hsub & Hk). cbn.
  repeat (split; [done|]). clear Hexact. split.
  - intros x. rewrite Hk. split; [tauto|]. intros [Hx Hno].
    split; [done|]. split; [done|]. intros Hin.
    destruct (scan_drivers_consults _ _ _ _ Hrun x Hx) as [b Hb].
    apply device_known_spec in Hb. destruct b.
    + destruct Hb as (y & ? & ?). by apply (Hno y).
    + by destruct Hb.
  - intros ->. simplify_eq. destruct kept as [|x kept]; [done|].
    assert (Hx : x ∈ x :: kept) by (apply elem_of_cons; by left).
    apply Hk in Hx as (Hx & _ & Hnot). done.
Qed.

Lemma get_new_devices_spec_witness :
  exists dep old_drivers new_drivers,
    first_dep ["devicetree"] = Ok dep /\
    Examples.old_devicetree !! dep = Some old_drivers /\
    Examples.twin_devicetree !! dep = Some new_drivers /\
    [Examples.device "DR1"; Examples.device "DR1"]
    = filter (device_is_new (all_devices old_drivers))
             (all_devices new_drivers) /\
    sublist [Examples.device "DR1"; Examples.device "DR1"]
            (all_devices new_drivers) /\
    (forall x, x ∈ [Examples.device "DR1"; Examples.device "DR1"] <->
       x ∈ all_devices new_drivers /\
       forall y, y ∈ all_devices old_drivers -> ~ same_device y x) /\
    (Examples.old_devicetree = Examples.twin_devicetree ->
     [Examples.device "DR1"; Examples.device "DR1"] = []).
Proof.
  apply (get_new_devices_spec Examples.old_devicetree
           Examples.twin_devicetree ["devicetree"]).
  apply (bool_decide_unpack _). vm_compute. exact I.
Defined.

(** ** Autostart keys *)

Lemma lower_ascii_idem c : lower_ascii (lower_ascii c) = lower_ascii c.
Proof. destruct c as [[] [] [] [] [] [] [] []]; reflexivity. Qed.

Lemma prefix_lower k : forall s,
  String.prefix k (lower s) = true -> lower k = k.
Proof.
  induction k as [|a k IH]; intros s; [done|].
  destruct s as [|b s]; [done|]. cbn.
  destruct (ascii_dec a (lower_ascii b)) as [->|]; [|done].
  intros Hp. rewrite lower_ascii_idem. f_equal. by eapply IH.
Qed.

Lemma contains_lower k s : contains k (lower s) = true -> lower k = k.
Proof.
  induction s as [|b s IH]; cbn.
  - rewrite orb_false_r. destruct k; [done|]. done.
  - intros [Hp|Hc]%orb_true_iff; [|by apply IH].
    by apply (prefix_lower k (String b s)).
Qed.

Lemma is_autostart_spec keys new_handle b :
  is_autostart keys new_handle = Ok b ->
  if b then
    exists k s, k ∈ keys /\
      fields new_handle !! "handle_value" = Some (VStr s) /\
      contains k (lower s) = true
  else
    forall k s, k ∈ keys ->
      fields new_handle !! "handle_value" = Some (VStr s) ->
      contains k (lower s) = false.
Proof.
  revert b. induction keys as [|k keys IH]; intros b; cbn.
  - intros [= <-]. by intros k s ?%elem_of_nil.
  - unfold getitem.
    destruct (fields new_handle !! "handle_value") as [v|] eqn:Ev; [|done].
    cbn. destruct v as [| |s]; [done..|]. cbn.
    destruct (contains k (lower s)) eqn:Ec.
    + intros [= <-]. exists k, s. split; [apply elem_of_cons; by left|done].
    + intros Hrest. specialize (IH b Hrest). destruct b.
      * destruct IH as (k' & s' & ? & ? & ?). exists k', s'.
        split; [apply elem_of_cons; by right|done].
      * intros k' s' [->|?]%elem_of_cons Hs'; [congruence|by eapply IH].
Qed.

Lemma scan_handles_spec keys handles : forall acc l,
  scan_handles keys handles acc = Ok l ->
  exists kept,
    l = acc ++ kept /\ sublist kept handles /\
    forall r, r ∈ kept <->
      r ∈ handles /\
      fields r !! "handle_type" = Some (VStr "Key") /\
      exists k s, k ∈ keys /\
        fields r !! "handle_value" = Some (VStr s) /\
        contains k (lower s) = true.
Proof.
  induction handles as [|r0 handles IH]; intros acc l; cbn.
  - intros [= <-]. exists []. rewrite app_nil_r. split; [done|].
    split; [done|]. intros r. split; [by intros ?%elem_of_nil|].
    by intros [?%elem_of_nil _].
  - unfold getitem.
    destruct (fields r0 !! "handle_type") as [typ|] eqn:Et; [|done]. cbn.
    destruct (decide (typ = VStr "Key")) as [->|Hne].
    + destruct (is_autostart keys r0) as [b|] eqn:Ea; [|done]. cbn.
      apply is_autostart_spec in Ea. intros Hrest.
      destruct (IH _ _ Hrest) as (kept & -> & Hsub & Hkept). destruct b.
      * exists (r0 :: kept). rewrite <- app_assoc. split; [done|].
        split; [by apply sublist_skip|].
        intros r. rewrite !elem_of_cons, Hkept. split.
        -- intros [->|[? ?]]; [split; [by left|done]|split; [by right|done]].
        -- intros [[->|?] ?]; [by left|by right].
      * exists kept. split; [done|]. split; [by apply sublist_cons|].
        intros r. rewrite Hkept, elem_of_cons. split.
        -- intros [? ?]. split; [by right|done].
        -- intros [[->|?] Hcond]; [|done].
           destruct Hcond as (_ & k & s & Hk & Hs & Hc).
           rewrite (Ea k s Hk Hs) in Hc. done.
    + intros Hrest. destruct (IH _ _ Hrest) as (kept & -> & Hsub & Hkept).
      exists kept. split; [done|]. split; [by apply sublist_cons|].
      intros r. rewrite Hkept, elem_of_cons. split.
      * intros [? ?]. split; [by right|done].
      * intros [[->|?] Hcond]; [|done].
        destruct Hcond as (Ht & _). congruence.
Qed.

(** X20. The autostart scan returns, in their order, the handles of the
    first dependency in [new] whose type is [Key] and whose value, in lower
    case, contains an entry of [AUTOSTART_REG_KEYS]; [old] plays no part.
    As the value is lowered and the entry is not, an entry that holds a
    capital letter matches nothing. *)
Theorem get_autostart_reg_keys_spec (AUTOSTART_REG_KEYS : list string)
    (old new : snapshot) (deps : list string) (autostart : list record) :
  get_autostart_reg_keys AUTOSTART_REG_KEYS old new deps = Ok autostart ->
  exists dep fn,
    first_dep deps = Ok dep /\ new !! dep = Some fn /\
    sublist autostart (data fn) /\
    (forall r, r ∈ autostart <->
       r ∈ data fn /\
       fields r !! "handle_type" = Some (VStr "Key") /\
       exists k s, k ∈ AUTOSTART_REG_KEYS /\
         fields r !! "handle_value" = Some (VStr s) /\
         contains k (lower s) = true) /\
    (forall k s, contains k (lower s) = true -> lower k = k) /\
    (forall old', get_autostart_reg_keys AUTOSTART_REG_KEYS old' new deps
                  = Ok autostart).
Proof.
  unfold get_autostart_reg_keys, getitem. intros H.
  destruct (first_dep deps) as [dep|] eqn:Ed; [|done]. cbn in H |- *.
  destruct (new !! dep) as [fn|] eqn:En; [|done]. cbn in H |- *.
  exists dep, fn.
  destruct (scan_handles_spec _ _ _ _ H) as (kept & Heq & Hsub & Hk).
  cbn in Heq. subst autostart. repeat (split; [done|]).
  split; [intros k s; apply contains_lower|done].
Qed.

Lemma get_autostart_reg_keys_spec_witness :
  exists dep fn,
    first_dep ["handles"] = Ok dep /\ Examples.new_handles !! dep = Some fn /\
    sublist [Examples.handle "Key"
               "MACHINE\SOFTWARE\MICROSOFT\WINDOWS\CURRENTVERSION\RUN"]
            (data fn) /\
    (forall r, r ∈ [Examples.handle "Key"
                      "MACHINE\SOFTWARE\MICROSOFT\WINDOWS\CURRENTVERSION\RUN"]
       <->
       r ∈ data fn /\
       fields r !! "handle_type" = Some (VStr "Key") /\
       exists k s, k ∈ ["currentversion\run"; "CurrentVersion\Policies"] /\
         fields r !! "handle_value" = Some (VStr s) /\
         contains k (lower s) = true) /\
    (forall k s, contains k (lower s) = true -> lower k = k) /\
    (forall old',
       get_autostart_reg_keys ["currentversion\run"; "CurrentVersion\Policies"]
                              old' Examples.new_handles ["handles"]
       = Ok [Examples.handle "Key"
               "MACHINE\SOFTWARE\MICROSOFT\WINDOWS\CURRENTVERSION\RUN"]).
Proof.
  apply (get_autostart_reg_keys_spec
           ["currentversion\run"; "CurrentVersion\Policies"]
           ∅ Examples.new_handles ["handles"]).
  apply (bool_decide_unpack _). vm_compute. exact I.
Defined.

(** ** The sample's process *)

Lemma prefix_append n post : String.prefix n (String.append n post) = true.
Proof.
  induction n as [|a n IH]; simpl; [by destruct post|].
  destruct (ascii_dec a a); [exact IH|done].
Qed.

Lemma contains_infix n pre post :
  contains n (String.append pre (String.append n post)) = true.
Proof.
  induction pre as [|c pre IH]; simpl.
  - pose proof (prefix_append n post) as Hp.
    destruct (String.append n post); simpl in *; by rewrite Hp.
  - rewrite IH. apply orb_true_r.
Qed.

Lemma first_mal_exe_spec processes : forall p,
  first_mal_exe processes = Ok (Some p) ->
  exists before after s,
    processes = before ++ p :: after /\
    fields p !! "process_name" = Some (VStr s) /\
    contains "m.exe" s = true /\
    forall q, q ∈ before ->
      exists s', fields q !! "process_name" = Some (VStr s') /\
                 contains "m.exe" s' = false.
Proof.
  induction processes as [|q processes IH]; intros p; [done|]. cbn.
  unfold getitem.
  destruct (fields q !! "process_name") as [v|] eqn:Ev; [|done]. cbn.
  destruct v as [| |s]; [done..|]. cbn.
  destruct (contains "m.exe" s) eqn:Ec.
  - intros [= <-]. exists [], processes, s. split; [done|]. split; [done|].
    split; [done|]. by intros q' ?%elem_of_nil.
  - intros Hrest. destruct (IH _ Hrest) as (before & after & s' & -> & ? & ? & Hb).
    exists (q :: before), after, s'. split; [done|]. split; [done|].
    split; [done|]. intros q' [->|?]%elem_of_cons; [by exists s|by apply Hb].
Qed.

(** X21. The process that [get_malware_proc] returns is the first record of
    the [psxview] facet of [new] whose name contains [m.exe]; the test is
    containment, not equality, so that a record named with anything around
    [m.exe] is taken when it comes first. *)
Theorem get_malware_proc_first_containing (old new : snapshot)
    (deps : list string) (mal_exe_proc : record) :
  get_malware_proc old new deps = Ok (Some mal_exe_proc) ->
  (exists fn before after s,
     new !! "psxview" = Some fn /\
     data fn = before ++ mal_exe_proc :: after /\
     fields mal_exe_proc !! "process_name" = Some (VStr s) /\
     contains "m.exe" s = true /\
     forall q, q ∈ before ->
       exists s', fields q !! "process_name" = Some (VStr s') /\
                  contains "m.exe" s' = false) /\
  (forall p rest pre post,
     fields p !! "process_name"
     = Some (VStr (String.append pre (String.append "m.exe" post))) ->
     first_mal_exe (p :: rest) = Ok (Some p)).
Proof.
  unfold get_malware_proc, getitem. intros H.
  destruct (new !! "psxview") as [fn|] eqn:En; [|done]. cbn in H. split.
  - destruct (first_mal_exe_spec _ _ H) as (before & after & s & ? & ? & ? & ?).
    by exists fn, before, after, s.
  - intros p rest pre post Hname. cbn -[contains]. unfold getitem.
    rewrite Hname. cbn -[contains]. by rewrite contains_infix.
Qed.

Lemma get_malware_proc_first_containing_witness :
  (exists fn before after s,
     Examples.new_psxview !! "psxview" = Some fn /\
     data fn = before ++ Examples.flat (Examples.view 9 "m.exe" "False")
                         :: after /\
     fields (Examples.flat (Examples.view 9 "m.exe" "False"))
       !! "process_name" = Some (VStr s) /\
     contains "m.exe" s = true /\
     forall q, q ∈ before ->
       exists s', fields q !! "process_name" = Some (VStr s') /\
                  contains "m.exe" s' = false) /\
  (forall p rest pre post,
     fields p !! "process_name"
     = Some (VStr (String.append pre (String.append "m.exe" post))) ->
     first_mal_exe (p :: rest) = Ok (Some p)).
Proof.
  apply (get_malware_proc_first_containing ∅ Examples.new_psxview []).
  apply (bool_decide_unpack _). vm_compute. exact I.
Defined.

(** ** Sections and resources *)

Lemma find_named_spec ob_name new_obs m :
  find_named ob_name new_obs = Ok m ->
  match m with
  | Some new_ob => new_ob ∈ new_obs /\ new_ob !! "name" = Some ob_name
  | None => forall n, n ∈ new_obs -> n !! "name" <> Some ob_name
  end.
Proof.
  revert m. induction new_obs as [|n0 new_obs IH]; intros m; cbn.
  - intros [= <-]. by intros n ?%elem_of_nil.
  - unfold getitem. destruct (n0 !! "name") as [name|] eqn:En; [|done]. cbn.
    destruct (decide (name = ob_name)) as [->|Hne].
    + intros [= <-]. split; [apply elem_of_cons; by left|done].
    + intros Hrest. specialize (IH m Hrest). destruct m as [new_ob|].
      * destruct IH. split; [apply elem_of_cons; by right|done].
      * intros n [->|?]%elem_of_cons; [congruence|by apply IH].
Qed.

Lemma match_obs_spec object_type static_from_memory new_obs old_obs :
  static_from_memory !! object_type = Some new_obs \/ old_obs = [] ->
  forall matched0 deleted0 matched deleted,
  match_obs object_type static_from_memory old_obs matched0 deleted0
  = Ok (matched, deleted) ->
  exists m d,
    matched = matched0 ++ m /\ deleted = deleted0 ++ d /\
    map fst m ++ d ≡ₚ old_obs /\
    (forall o n, (o, n) ∈ m ->
       n ∈ new_obs /\ exists v, o !! "name" = Some v /\ n !! "name" = Some v) /\
    (forall o, o ∈ d ->
       exists v, o !! "name" = Some v /\
                 forall n, n ∈ new_obs -> n !! "name" <> Some v).
Proof.
  intros Hmem. induction old_obs as [|o0 old_obs IH];
    intros matched0 deleted0 matched deleted; cbn.
  - intros [= <- <-]. exists [], []. rewrite !app_nil_r.
    split; [done|]. split; [done|]. split; [done|].
    split; [by intros o n ?%elem_of_nil|by intros o ?%elem_of_nil].
  - destruct Hmem as [Hmem|?]; [|done]. unfold getitem.
    destruct (o0 !! "name") as [ob_name|] eqn:Eo; [|done]. cbn.
    rewrite Hmem. cbn.
    destruct (find_named ob_name new_obs) as [[new_ob|]|] eqn:Ef; [| |done];
      cbn; apply find_named_spec in Ef; intros Hrest;
      destruct (IH (or_introl Hmem) _ _ _ _ Hrest)
        as (m & d & -> & -> & Hperm & Hm & Hd).
    + exists ((o0, new_ob) :: m), d. rewrite <- app_assoc.
      split; [done|]. split; [done|]. split; [cbn; by rewrite Hperm|].
      split; [|done]. intros o n [[= -> ->]|?]%elem_of_cons; [|by apply Hm].
      destruct Ef. split; [done|]. by exists ob_name.
    + exists m, (o0 :: d). rewrite <- app_assoc.
      split; [done|]. split; [done|]. split.
      * rewrite <- Hperm. by rewrite Permutation_middle.
      * split; [done|]. intros o [->|?]%elem_of_cons; [|by apply Hd].
        by exists ob_name.
Qed.

(** The object found is the first one of that name. *)
Lemma find_named_first ob_name new_obs new_ob :
  find_named ob_name new_obs = Ok (Some new_ob) ->
  exists pre post,
    new_obs = pre ++ new_ob :: post /\
    forall n, n ∈ pre -> n !! "name" <> Some ob_name.
Proof.
  induction new_obs as [|n0 new_obs IH]; cbn; [done|].
  unfold getitem. destruct (n0 !! "name") as [name|] eqn:En; [|done]. cbn.
  destruct (decide (name = ob_name)) as [->|Hne].
  - intros [= <-]. exists [], new_obs. split; [done|].
    by intros n ?%elem_of_nil.
  - intros Hrest. destruct (IH Hrest) as (pre & post & -> & Hpre).
    exists (n0 :: pre), post. split; [done|].
    intros n [->|?]%elem_of_cons; [congruence|by apply Hpre].
Qed.

(** The first loop keeps the order of the executable's objects. *)
Lemma match_obs_order object_type static_from_memory new_obs old_obs :
  static_from_memory !! object_type = Some new_obs \/ old_obs = [] ->
  forall matched0 deleted0 matched deleted,
  match_obs object_type static_from_memory old_obs matched0 deleted0
  = Ok (matched, deleted) ->
  exists m d,
    matched = matched0 ++ m /\ deleted = deleted0 ++ d /\
    sublist (map fst m) old_obs /\ sublist d old_obs /\
    forall o n, (o, n) ∈ m ->
      exists v pre post,
        o !! "name" = Some v /\ new_obs = pre ++ n :: post /\
        forall n', n' ∈ pre -> n' !! "name" <> Some v.
Proof.
  intros Hmem. induction old_obs as [|o0 old_obs IH];
    intros matched0 deleted0 matched deleted; cbn.
  - intros [= <- <-]. exists [], []. rewrite !app_nil_r.
    repeat (split; [done|]). by intros o n ?%elem_of_nil.
  - destruct Hmem as [Hmem|?]; [|done]. unfold getitem.
    destruct (o0 !! "name") as [ob_name|] eqn:Eo; [|done]. cbn.
    rewrite Hmem. cbn.
    destruct (find_named ob_name new_obs) as [[new_ob|]|] eqn:Ef; [| |done];
      cbn; intros Hrest;
      destruct (IH (or_introl Hmem) _ _ _ _ Hrest)
        as (m & d & -> & -> & Hsm & Hsd & Hm).
    + exists ((o0, new_ob) :: m), d. rewrite <- app_assoc.
      split; [done|]. split; [done|].
      split; [cbn; by apply sublist_skip|].
      split; [by apply sublist_cons|].
      intros o n [[= -> ->]|?]%elem_of_cons; [|by apply Hm].
      destruct (find_named_first _ _ _ Ef) as (pre & post & ? & ?).
      by exists ob_name, pre, post.
    + exists m, (o0 :: d). rewrite <- app_assoc.
      split; [done|]. split; [done|].
      split; [by apply sublist_cons|].
      split; [by apply sublist_skip|done].
Qed.

(** X22. When [get_new_pe_objects] returns, every object of the executable
    is in exactly one of two lists, each in the executable's order: matched,
    paired with the first object of the memory image that has its name, or
    deleted, when the image has no object of that name.  The new objects
    are the list of the image's objects with those removed that are equal
    to a matched one; so an object of the image is new although an object
    of the executable has its name when another one was matched in its
    place. *)
Theorem get_new_pe_objects_partition (object_type : string)
    (static_from_exe static_from_memory : static)
    (matched_obs : list (gmap string value * gmap string value))
    (new_obs deleted_obs : list (gmap string value)) :
  get_new_pe_objects object_type static_from_exe static_from_memory
  = Ok (matched_obs, new_obs, deleted_obs) ->
  exists old_all new_all,
    static_from_exe !! object_type = Some old_all /\
    static_from_memory !! object_type = Some new_all /\
    map fst matched_obs ++ deleted_obs ≡ₚ old_all /\
    sublist (map fst matched_obs) old_all /\
    sublist deleted_obs old_all /\
    (forall o n, (o, n) ∈ matched_obs ->
       n ∈ new_all /\
       exists v, o !! "name" = Some v /\ n !! "name" = Some v) /\
    (forall o n, (o, n) ∈ matched_obs ->
       exists v pre post,
         o !! "name" = Some v /\ new_all = pre ++ n :: post /\
         forall n', n' ∈ pre -> n' !! "name" <> Some v) /\
    (forall o, o ∈ deleted_obs ->
       exists v, o !! "name" = Some v /\
                 forall n, n ∈ new_all -> n !! "name" <> Some v) /\
    new_obs = filter (fun n => n ∉ map snd matched_obs) new_all /\
    (forall n, n ∈ new_obs <->
       n ∈ new_all /\ forall o, (o, n) ∉ matched_obs).
Proof.
  unfold get_new_pe_objects, getitem. intros H.
  destruct (static_from_exe !! object_type) as [old_all|] eqn:Ee; [|done].
  cbn in H.
  destruct (match_obs object_type static_from_memory old_all [] [])
    as [[matched deleted]|] eqn:Em; [|done]. cbn in H.
  destruct (static_from_memory !! object_type) as [new_all|] eqn:En; [|done].
  cbn in H. simplify_eq. exists old_all, new_all.
  destruct (match_obs_order _ _ new_all _ (or_introl En) _ _ _ _ Em)
    as (m' & d' & Hm' & Hd' & Hsm & Hsd & Hfirst).
  destruct (match_obs_spec _ _ new_all _ (or_introl En) _ _ _ _ Em)
    as (m & d & -> & -> & Hperm & Hm & Hd). cbn in *. subst m' d'.
  repeat (split; [done|]).
  intros n. rewrite list_elem_of_filter, list_elem_of_fmap. split.
  - intros [Hno Hn]. split; [done|]. intros o Ho. apply Hno.
    by exists (o, n).
  - intros [Hn Hno]. split; [|done]. intros ([o n'] & -> & Ho).
    by apply (Hno o).
Qed.

Lemma get_new_pe_objects_partition_witness :
  exists old_all new_all,
    Examples.exe_static !! "pe_sections" = Some old_all /\
    Examples.memory_static !! "pe_sections" = Some new_all /\
    map fst [(Examples.section ".text" 1, Examples.section ".text" 1)]
    ++ [Examples.section ".rsrc" 2] ≡ₚ old_all /\
    sublist
      (map fst [(Examples.section ".text" 1, Examples.section ".text" 1)])
      old_all /\
    sublist [Examples.section ".rsrc" 2] old_all /\
    (forall o n,
       (o, n) ∈ [(Examples.section ".text" 1, Examples.section ".text" 1)] ->
       n ∈ new_all /\
       exists v, o !! "name" = Some v /\ n !! "name" = Some v) /\
    (forall o n,
       (o, n) ∈ [(Examples.section ".text" 1, Examples.section ".text" 1)] ->
       exists v pre post,
         o !! "name" = Some v /\ new_all = pre ++ n :: post /\
         forall n', n' ∈ pre -> n' !! "name" <> Some v) /\
    (forall o, o ∈ [Examples.section ".rsrc" 2] ->
       exists v, o !! "name" = Some v /\
                 forall n, n ∈ new_all -> n !! "name" <> Some v) /\
    [Examples.section ".text" 3; Examples.section "UPX0" 4]
    = filter
        (fun n => n ∉ map snd [(Examples.section ".text" 1,
                                Examples.section ".text" 1)])
        new_all /\
    (forall n, n ∈ [Examples.section ".text" 3; Examples.section "UPX0" 4] <->
       n ∈ new_all /\
       forall o, (o, n) ∉ [(Examples.section ".text" 1,
                            Examples.section ".text" 1)]).
Proof.
  apply (get_new_pe_objects_partition "pe_sections" Examples.exe_static
           Examples.memory_static).
  apply (bool_decide_unpack _). vm_compute. exact I.
Defined.

(** ** One diff of the baseline loop *)

Section RunMemoryPlugin.

Variable desc_of : string -> res string.
Variable MEMORY_ANALYSIS_DEPENDENCIES : gmap string (list string).
Variable MEMORY_ANALYSIS_FUNCTIONS : gmap string string.
Variable method : string -> option analysis_func.

Lemma run_memory_plugin_present memfunc clean new_results attrs diffs e :
  diffs !! memfunc = Some e ->
  snd (run_memory_plugin desc_of MEMORY_ANALYSIS_DEPENDENCIES
         MEMORY_ANALYSIS_FUNCTIONS method memfunc clean new_results attrs
         diffs)
  = diffs.
Proof.
  intros He. unfold run_memory_plugin, bind, lift, get, ret.
  destruct (desc_of memfunc); [|done].
  destruct (getitem _ _); [|done].
  destruct (analysis_func_of _ _ _); [|done].
  by rewrite He.
Qed.

End RunMemoryPlugin.

(** X23. [run_memory_plugin] writes an entry once.  For a diff without a
    method of its own, whose entry is absent, the outcome depends on the
    keyword arguments, which are passed on to [get_new_objects] although it
    takes none.  Without keywords the entry is built from the new-object
    diff run both ways: [new] from the clean snapshot to the new one,
    [deleted] the other way round, no dictionary being in both, and [star]
    is ["no"].  With any keyword the first run raises TypeError and the
    entry is left with its description alone.  And an entry that is present
    is not touched, whatever the call does. *)
Theorem run_memory_plugin_writes_once
    (desc_of : string -> res string)
    (MEMORY_ANALYSIS_DEPENDENCIES : gmap string (list string))
    (MEMORY_ANALYSIS_FUNCTIONS : gmap string string)
    (method : string -> option analysis_func)
    (memfunc : string) (clean new_results : snapshot) (attrs : keywords)
    (diffs : gmap string plugin_entry) :
  (forall desc deps new,
     attrs = ∅ ->
     diffs !! memfunc = None ->
     MEMORY_ANALYSIS_FUNCTIONS !! memfunc = None ->
     desc_of memfunc = Ok desc ->
     MEMORY_ANALYSIS_DEPENDENCIES !! memfunc = Some deps ->
     get_new_objects clean new_results deps = Ok new ->
     exists deleted,
       get_new_objects new_results clean deps = Ok deleted /\
       (forall c, c ∈ new -> c ∉ deleted) /\
       run_memory_plugin desc_of MEMORY_ANALYSIS_DEPENDENCIES
         MEMORY_ANALYSIS_FUNCTIONS method memfunc clean new_results attrs diffs
       = (Ok tt,
          <[memfunc := {| entry_desc := desc; entry_new := Some new;
                          entry_deleted := Some deleted;
                          entry_star := Some "no" |}]> diffs)) /\
  (forall desc deps,
     attrs <> ∅ ->
     diffs !! memfunc = None ->
     MEMORY_ANALYSIS_FUNCTIONS !! memfunc = None ->
     desc_of memfunc = Ok desc ->
     MEMORY_ANALYSIS_DEPENDENCIES !! memfunc = Some deps ->
     run_memory_plugin desc_of MEMORY_ANALYSIS_DEPENDENCIES
       MEMORY_ANALYSIS_FUNCTIONS method memfunc clean new_results attrs diffs
     = (Raise TypeError,
        <[memfunc := {| entry_desc := desc; entry_new := None;
                        entry_deleted := None; entry_star := None |}]> diffs)) /\
  (forall e,
     diffs !! memfunc = Some e ->
     snd (run_memory_plugin desc_of MEMORY_ANALYSIS_DEPENDENCIES
            MEMORY_ANALYSIS_FUNCTIONS method memfunc clean new_results attrs
            diffs)
     = diffs).
Proof.
  split; [|split].
  - intros desc deps new -> Habsent Hfun Hdesc Hdeps Hnew.
    destruct (get_new_objects_swap _ _ _ _ Hnew)
      as (deleted & Hdel & Hdisj).
    exists deleted. split; [done|]. split; [done|].
    unfold run_memory_plugin, analysis_func_of, bind, lift, get, ret, getitem,
      set_entry, modify.
    rewrite Hdesc, Hdeps, Hfun, Habsent. unfold without_keywords.
    rewrite !decide_True by done. rewrite Hnew. cbn. rewrite Hdel.
    by rewrite !insert_insert_eq.
  - intros desc deps Hattrs Habsent Hfun Hdesc Hdeps.
    unfold run_memory_plugin, analysis_func_of, bind, lift, get, ret, getitem,
      set_entry, modify.
    rewrite Hdesc, Hdeps, Hfun, Habsent. unfold without_keywords.
    by rewrite decide_False by done.
  - intros e He. by eapply run_memory_plugin_present.
Qed.

Lemma run_memory_plugin_writes_once_witness :
  (exists deleted,
     get_new_objects Examples.new_connections Examples.old_connections
                     ["connections"] = Ok deleted /\
     (forall c, c ∈ [Examples.conn_noisy; Examples.conn_plain] ->
                c ∉ deleted) /\
     run_memory_plugin Examples.memory_conf Examples.dependencies ∅
       Examples.no_method "diff_connections" Examples.old_connections
       Examples.new_connections ∅ ∅
     = (Ok tt,
        <["diff_connections" :=
            {| entry_desc := "New connections";
               entry_new := Some [Examples.conn_noisy; Examples.conn_plain];
               entry_deleted := Some deleted;
               entry_star := Some "no" |}]> ∅)) /\
  run_memory_plugin Examples.memory_conf Examples.dependencies ∅
    Examples.no_method "diff_connections" Examples.old_connections
    Examples.new_connections Examples.dump_dir_attrs ∅
  = (Raise TypeError,
     <["diff_connections" :=
         {| entry_desc := "New connections"; entry_new := None;
            entry_deleted := None; entry_star := None |}]> ∅) /\
  snd (run_memory_plugin Examples.memory_conf Examples.dependencies ∅
         Examples.no_method "diff_connections" Examples.old_connections
         Examples.new_connections ∅
         {["diff_connections" := Examples.stale_entry]})
  = {["diff_connections" := Examples.stale_entry]}.
Proof.
  split; [|split].
  - apply (proj1 (run_memory_plugin_writes_once Examples.memory_conf
                    Examples.dependencies ∅ Examples.no_method
                    "diff_connections" Examples.old_connections
                    Examples.new_connections ∅ ∅)).
    + reflexivity.
    + reflexivity.
    + reflexivity.
    + reflexivity.
    + reflexivity.
    + apply (bool_decide_unpack _). vm_compute. exact I.
  - apply (proj1 (proj2 (run_memory_plugin_writes_once Examples.memory_conf
                           Examples.dependencies ∅ Examples.no_method
                           "diff_connections" Examples.old_connections
                           Examples.new_connections Examples.dump_dir_attrs
                           ∅))
             "New connections" ["connections"]).
    + apply (bool_decide_unpack _). vm_compute. exact I.
    + reflexivity.
    + reflexivity.
    + reflexivity.
    + reflexivity.
  - apply (proj2 (proj2 (run_memory_plugin_writes_once Examples.memory_conf
                           Examples.dependencies ∅ Examples.no_method
                           "diff_connections" Examples.old_connections
                           Examples.new_connections ∅
                           {["diff_connections" := Examples.stale_entry]}))
             Examples.stale_entry).
    reflexivity.
Defined.

(** X24. An analysis function that raises leaves the entry it was working
    on with the keys set so far, and the exception goes on to the caller:
    the description alone when the first run raised, the description and
    [new] when the first run returned and the second raised.  This holds
    for the method of a diff that has one and for [get_new_objects]
    otherwise.  As the entry is then present, no later call for the same
    diff completes it. *)
Theorem run_memory_plugin_leaves_partial_entry
    (desc_of : string -> res string)
    (MEMORY_ANALYSIS_DEPENDENCIES : gmap string (list string))
    (MEMORY_ANALYSIS_FUNCTIONS : gmap string string)
    (method : string -> option analysis_func)
    (memfunc desc : string) (deps : list string)
    (f : analysis_func) (clean new_results : snapshot) (attrs : keywords)
    (diffs : gmap string plugin_entry) :
  diffs !! memfunc = None ->
  analysis_func_of MEMORY_ANALYSIS_FUNCTIONS method memfunc = Ok f ->
  desc_of memfunc = Ok desc ->
  MEMORY_ANALYSIS_DEPENDENCIES !! memfunc = Some deps ->
  (forall e, f clean new_results deps attrs = Raise e ->
     let left := <[memfunc := {| entry_desc := desc; entry_new := None;
                                 entry_deleted := None;
                                 entry_star := None |}]> diffs in
     run_memory_plugin desc_of MEMORY_ANALYSIS_DEPENDENCIES
       MEMORY_ANALYSIS_FUNCTIONS method memfunc clean new_results attrs diffs
     = (Raise e, left) /\
     forall clean' new_results' attrs',
       snd (run_memory_plugin desc_of MEMORY_ANALYSIS_DEPENDENCIES
              MEMORY_ANALYSIS_FUNCTIONS method memfunc clean' new_results'
              attrs' left)
       = left) /\
  (forall new e,
     f clean new_results deps attrs = Ok new ->
     f new_results clean deps attrs = Raise e ->
     let left := <[memfunc := {| entry_desc := desc; entry_new := Some new;
                                 entry_deleted := None;
                                 entry_star := None |}]> diffs in
     run_memory_plugin desc_of MEMORY_ANALYSIS_DEPENDENCIES
       MEMORY_ANALYSIS_FUNCTIONS method memfunc clean new_results attrs diffs
     = (Raise e, left) /\
     forall clean' new_results' attrs',
       snd (run_memory_plugin desc_of MEMORY_ANALYSIS_DEPENDENCIES
              MEMORY_ANALYSIS_FUNCTIONS method memfunc clean' new_results'
              attrs' left)
       = left).
Proof.
  intros Habsent Hfun Hdesc Hdeps. split.
  - intros e Hraise left. split.
    + unfold run_memory_plugin, bind, lift, get, ret, getitem, set_entry,
        modify.
      by rewrite Hdesc, Hdeps, Hfun, Habsent, Hraise.
    + intros clean' new_results' attrs'.
      eapply run_memory_plugin_present.
      subst left. by rewrite lookup_insert_eq.
  - intros new e Hnew Hraise left. split.
    + unfold run_memory_plugin, bind, lift, get, ret, getitem, set_entry,
        modify.
      rewrite Hdesc, Hdeps, Hfun, Habsent, Hnew, Hraise.
      subst left. by rewrite insert_insert_eq.
    + intros clean' new_results' attrs'.
      eapply run_memory_plugin_present.
      subst left. by rewrite lookup_insert_eq.
Qed.

Lemma run_memory_plugin_leaves_partial_entry_witness :
  (let left := <["diff_connections" :=
                   {| entry_desc := "New connections"; entry_new := None;
                      entry_deleted := None; entry_star := None |}]> ∅ in
   run_memory_plugin Examples.memory_conf Examples.dependencies ∅
     Examples.no_method "diff_connections" Examples.old_connections
     Examples.new_connections Examples.dump_dir_attrs ∅
   = (Raise TypeError, left) /\
   forall clean' new_results' attrs',
     snd (run_memory_plugin Examples.memory_conf Examples.dependencies ∅
            Examples.no_method "diff_connections" clean' new_results' attrs'
            left)
     = left) /\
  (let left := <["diff_connections" :=
                   {| entry_desc := "New connections";
                      entry_new := Some [Examples.conn_plain];
                      entry_deleted := None; entry_star := None |}]> ∅ in
   run_memory_plugin Examples.memory_conf Examples.dependencies
     Examples.functions Examples.class_method "diff_connections"
     Examples.torn_connections Examples.new_connections ∅ ∅
   = (Raise (KeyError "local_port"), left) /\
   forall clean' new_results' attrs',
     snd (run_memory_plugin Examples.memory_conf Examples.dependencies
            Examples.functions Examples.class_method "diff_connections"
            clean' new_results' attrs' left)
     = left).
Proof.
  split.
  - refine (proj1 (run_memory_plugin_leaves_partial_entry
                     Examples.memory_conf Examples.dependencies ∅
                     Examples.no_method "diff_connections" "New connections"
                     ["connections"]
                     (fun old new deps attrs =>
                        without_keywords attrs (get_new_objects old new deps))
                     Examples.old_connections Examples.new_connections
                     Examples.dump_dir_attrs ∅ _ _ _ _) _ _).
    + reflexivity.
    + reflexivity.
    + reflexivity.
    + reflexivity.
    + apply (bool_decide_unpack _). vm_compute. exact I.
  - refine (proj2 (run_memory_plugin_leaves_partial_entry
                     Examples.memory_conf Examples.dependencies
                     Examples.functions Examples.class_method
                     "diff_connections" "New connections" ["connections"]
                     (fun old new deps attrs =>
                        without_keywords attrs
                          (get_new_connections old new deps))
                     Examples.torn_connections Examples.new_connections
                     ∅ ∅ _ _ _ _) _ _ _ _).
    + reflexivity.
    + reflexivity.
    + reflexivity.
    + reflexivity.
    + apply (bool_decide_unpack _). vm_compute. exact I.
    + apply (bool_decide_unpack _). vm_compute. exact I.
Defined.

(** ** The DLL-list diff, the other way round *)

Lemma find_old_p_first pid before old_p after r :
  fields old_p !! "process_id" = Some pid ->
  (forall p, p ∈ before -> fields p !! "process_id" <> Some pid) ->
  find_old_p pid (before ++ old_p :: after) = Ok r -> r = Some old_p.
Proof.
  intros Hpid. induction before as [|p before IH]; intros Hbefore; cbn.
  - unfold getitem. rewrite Hpid. cbn. rewrite decide_True by done.
    by intros [= <-].
  - unfold getitem. destruct (fields p !! "process_id") as [ppid|] eqn:E;
      [|done]. cbn.
    destruct (decide (pid = ppid)) as [->|Hne].
    + exfalso. apply (Hbefore p); [apply elem_of_cons; by left|done].
    + apply IH. intros p' ?. apply Hbefore, elem_of_cons. by right.
Qed.

Lemma module_found_true old_modules module :
  module_found old_modules module = Ok true ->
  exists m, m ∈ old_modules /\
            m !! "dll_full_name" = module !! "dll_full_name".
Proof.
  induction old_modules as [|m0 old_modules IH]; [done|]. cbn.
  unfold getitem.
  destruct (m0 !! "dll_full_name") as [a|] eqn:Ea; [|done]. cbn.
  destruct (module !! "dll_full_name") as [b|] eqn:Eb; [|done]. cbn.
  destruct (decide (a = b)) as [->|Hne].
  - intros _. exists m0. split; [apply elem_of_cons; by left|congruence].
  - intros Hrest. destruct (IH Hrest) as (m & ? & ?). exists m.
    split; [apply elem_of_cons; by right|done].
Qed.

Lemma scan_modules_complete old_p pid pname old_modules modules :
  loaded_modules old_p = Some old_modules ->
  forall acc dlls,
  scan_modules old_p pid pname modules acc = Ok dlls ->
  (forall r, r ∈ acc -> r ∈ dlls) /\
  forall module, module ∈ modules ->
    (forall m, m ∈ old_modules ->
       m !! "dll_full_name" <> module !! "dll_full_name") ->
    annotate pid pname module ∈ dlls.
Proof.
  intros Hold. induction modules as [|module0 modules IH]; intros acc dlls;
    cbn.
  - intros [= <-]. split; [done|]. by intros module ?%elem_of_nil.
  - unfold modules_of. rewrite Hold. cbn.
    destruct (module_found old_modules module0) as [found|] eqn:Ef; [|done].
    cbn. intros Hrest. destruct (IH _ _ Hrest) as [Hacc Hnew]. split.
    + intros r Hr. apply Hacc. destruct found; [done|].
      apply elem_of_app. by left.
    + intros module [->|Hin]%elem_of_cons Hno; [|by apply Hnew].
      apply Hacc. destruct found.
      * apply module_found_true in Ef as (m & Hm & Heq).
        exfalso. by apply (Hno m).
      * apply elem_of_app. right. apply elem_of_cons. by left.
Qed.

Lemma scan_procs_complete old new_data : forall acc dlls,
  scan_procs old new_data acc = Ok dlls ->
  (forall r, r ∈ acc -> r ∈ dlls) /\
  forall r, new_dll old new_data r -> r ∈ dlls.
Proof.
  induction new_data as [|proc0 new_data IH]; intros acc dlls; cbn.
  - intros [= <-]. split; [done|].
    intros r (proc & ? & ? & ? & ? & ? & ? & ? & ? & ? & Hin & _).
    by apply elem_of_nil in Hin.
  - unfold getitem.
    destruct (fields proc0 !! "process_id") as [pid0|] eqn:Epid; [|done].
    cbn.
    destruct (fields proc0 !! "process_name") as [pname0|] eqn:Epn; [|done].
    cbn.
    destruct (old !! "dlllist") as [fo0|] eqn:Eold; [|done]. cbn.
    destruct (find_old_p pid0 (data fo0)) as [found|] eqn:Efind; [|done].
    cbn.
    destruct (match found with
              | Some op =>
                  res_bind (modules_of proc0)
                    (fun modules => scan_modules op pid0 pname0 modules acc)
              | None => Ok acc
              end) as [acc'|] eqn:Estep; [|done]. cbn.
    intros Hrest. destruct (IH _ _ Hrest) as [Hacc Hnew].
    assert (Hkeep : forall r, r ∈ acc -> r ∈ acc').
    { destruct found as [op|]; [|by simplify_eq].
      unfold modules_of in Estep.
      destruct (loaded_modules proc0) as [modules|]; [|done]. cbn in Estep.
      destruct (loaded_modules op) as [oms|] eqn:Eop.
      - by destruct (scan_modules_complete _ _ _ _ _ Eop _ _ Estep).
      - destruct modules as [|m modules]; [cbn in Estep; by simplify_eq|].
        cbn in Estep. unfold modules_of in Estep. by rewrite Eop in Estep. }
    split; [by intros r ?; apply Hacc, Hkeep|].
    intros r (proc & fo & old_p & before & after & pid & pname & modules
              & old_modules & module & Hin & Hpid & Hpn & Hfo & Hdata & Hop
              & Hbefore & Hmods & Hmod & Holdmods & Hno & ->).
    apply elem_of_cons in Hin as [->|Hin].
    + apply Hacc. simplify_eq. rewrite Hdata in Efind.
      apply (find_old_p_first _ _ _ _ _ Hop Hbefore) in Efind as ->.
      unfold modules_of in Estep. rewrite Hmods in Estep. cbn in Estep.
      destruct (scan_modules_complete _ _ _ _ _ Holdmods _ _ Estep)
        as [_ Hall].
      by apply Hall.
    + apply Hnew.
      exists proc, fo, old_p, before, after, pid, pname, modules, old_modules,
        module. done.
Qed.

(** X25. The DLL-list diff misses nothing: when it returns, every module of
    a process of the new snapshot whose first namesake by [process_id] in
    the old snapshot has no module of that [dll_full_name] is in the
    result, annotated with the [process_id] and the [process_name] of its
    process. *)
Theorem get_new_dlllist_complete (old new : snapshot) (deps : list string)
    (dlls : list (gmap string value)) (fn : facet) (r : gmap string value) :
  get_new_dlllist old new deps = Ok dlls ->
  new !! "dlllist" = Some fn ->
  new_dll old (data fn) r ->
  r ∈ dlls.
Proof.
  unfold get_new_dlllist, getitem. intros H Hfn Hnew. rewrite Hfn in H.
  cbn in H. destruct (scan_procs_complete _ _ _ _ H) as [_ Hall].
  by apply Hall.
Qed.

Lemma get_new_dlllist_complete_witness :
  get_new_dlllist Examples.old_dlllist Examples.new_dlllist []
  = Ok [Examples.dll_B_of_4] /\
  Examples.dll_B_of_4 ∈ [Examples.dll_B_of_4].
Proof.
  split; [apply (bool_decide_unpack _); vm_compute; exact I|].
  apply (get_new_dlllist_complete Examples.old_dlllist Examples.new_dlllist
           [] [Examples.dll_B_of_4]
           {| config := ∅;
              data := [Examples.proc 4 "System"
                         [Examples.dll "A.dll"; Examples.dll "B.dll"];
                       Examples.proc 8 "m.exe" [Examples.dll "C.dll"]] |}).
  - apply (bool_decide_unpack _). vm_compute. exact I.
  - reflexivity.
  - exists (Examples.proc 4 "System"
              [Examples.dll "A.dll"; Examples.dll "B.dll"]),
      {| config := ∅;
         data := [Examples.proc 4 "System" [Examples.dll "A.dll"]] |},
      (Examples.proc 4 "System" [Examples.dll "A.dll"]), [], [],
      (VInt 4), (VStr "System"),
      [Examples.dll "A.dll"; Examples.dll "B.dll"], [Examples.dll "A.dll"],
      (Examples.dll "B.dll").
    split; [apply elem_of_cons; by left|].
    split; [reflexivity|]. split; [reflexivity|]. split; [reflexivity|].
    split; [reflexivity|]. split; [reflexivity|].
    split; [by intros p ?%elem_of_nil|].
    split; [reflexivity|].
    split; [apply elem_of_cons; right; apply elem_of_cons; by left|].
    split; [reflexivity|]. split; [|reflexivity].
    intros m Hm. apply list_elem_of_singleton in Hm as ->.
    vm_compute. discriminate.
Defined.

(** ** The follow-ups of the escalation *)

Lemma dump_new_drivers_spec vol patches : forall diffs diffs',
  dump_new_drivers vol patches diffs = Ok diffs' ->
  patches <> [] ->
  exists e e' entries,
    diffs !! "diff_moddump" = Some e /\
    diffs' !! "diff_moddump" = Some e' /\
    diff_new e' = diff_new e ++ entries /\
    Forall2 (fun p entry =>
               exists name,
                 moddump vol (p + 0x7fe00000) = Ok name /\
                 entry = <["module_base" := VInt (p + 0x7fe00000)]>
                           {["module_name" := name]})
            patches entries /\
    diff_deleted e' = diff_deleted e /\ diff_star e' = diff_star e /\
    diff_desc e' = diff_desc e /\ diff_extra e' = diff_extra e /\
    forall k, k <> "diff_moddump" -> diffs' !! k = diffs !! k.
Proof.
  induction patches as [|p patches IH]; intros diffs diffs' Hrun Hne; [done|].
  cbn in Hrun.
  destruct (moddump vol (p + 2145386496)) as [name|] eqn:Em; [|done].
  cbn in Hrun. unfold getitem in Hrun.
  destruct (diffs !! "diff_moddump") as [e|] eqn:Ee; [|done]. cbn in Hrun.
  destruct patches as [|p' patches].
  - cbn in Hrun. simplify_eq. eexists e, _, [_].
    split; [done|]. split; [by rewrite lookup_insert_eq|]. cbn.
    split; [done|]. split.
    + constructor; [|constructor]. by exists name.
    + repeat (split; [done|]). intros k Hk.
      by rewrite lookup_insert_ne.
  - destruct (IH _ _ Hrun) as (e1 & e' & entries & He1 & He' & Hnew & Hall
                               & Hdel & Hstar & Hdesc & Hextra & Hframe);
      [done|].
    rewrite lookup_insert_eq in He1. simplify_eq.
    cbn in Hnew, Hdel, Hstar, Hdesc, Hextra.
    eexists e, e', (_ :: entries). split; [done|]. split; [done|].
    split; [by rewrite Hnew, <- app_assoc|]. split.
    + constructor; [by exists name|done].
    + repeat (split; [done|]). intros k Hk.
      rewrite Hframe by done. by rewrite lookup_insert_ne.
Qed.

(** X26. The follow-up of a [ZwLoadDriver] trigger for which the patcher
    reports at least one patch: when it returns, the [new] list of the
    driver diff has gained one entry per patch, in their order, each with
    the module base 0x7fe00000 above the patch and the name of the module
    dumped there; the description, the deleted list, the star and the other
    keys of that entry, and every other entry, are as before.  The entry of
    the driver diff is not checked for: without it, and with every module
    dumped, the follow-up raises [KeyError] once the first driver was
    dumped. *)
Theorem zw_load_driver_appends_dumped_drivers (tbl : tables)
    (vol : volatility) (args : gmap string value) (patches : list Z)
    (diffs : gmap string diff_entry) :
  patcher vol = Ok patches -> patches <> [] ->
  (forall diffs',
     follow_up tbl vol "ZwLoadDriver" args diffs = Ok diffs' ->
     exists e e' entries,
       diffs !! "diff_moddump" = Some e /\
       diffs' !! "diff_moddump" = Some e' /\
       diff_new e' = diff_new e ++ entries /\
       Forall2 (fun p entry =>
                  exists name,
                    moddump vol (p + 0x7fe00000) = Ok name /\
                    entry = <["module_base" := VInt (p + 0x7fe00000)]>
                              {["module_name" := name]})
               patches entries /\
       diff_deleted e' = diff_deleted e /\ diff_star e' = diff_star e /\
       diff_desc e' = diff_desc e /\ diff_extra e' = diff_extra e /\
       forall k, k <> "diff_moddump" -> diffs' !! k = diffs !! k) /\
  (diffs !! "diff_moddump" = None ->
   (forall p, p ∈ patches ->
      exists name, moddump vol (p + 0x7fe00000) = Ok name) ->
   follow_up tbl vol "ZwLoadDriver" args diffs
   = Raise (KeyError "diff_moddump")).
Proof.
  intros Hp Hne. unfold follow_up. rewrite decide_True by done.
  rewrite Hp. cbn [res_bind]. split.
  - intros diffs' Hrun. by apply dump_new_drivers_spec.
  - intros Habsent Hdump. destruct patches as [|p patches]; [done|].
    cbn. destruct (Hdump p) as [name ->]; [apply elem_of_cons; by left|].
    cbn. unfold getitem. by rewrite Habsent.
Qed.

Lemma zw_load_driver_appends_dumped_drivers_witness :
  (exists e e' entries,
     Examples.driver_diffs !! "diff_moddump" = Some e /\
     Examples.dumped_driver_diffs !! "diff_moddump" = Some e' /\
     diff_new e' = diff_new e ++ entries /\
     Forall2 (fun p entry =>
                exists name,
                  moddump Examples.busy_volatility (p + 0x7fe00000)
                  = Ok name /\
                  entry = <["module_base" := VInt (p + 0x7fe00000)]>
                            {["module_name" := name]})
             [0x1000] entries /\
     diff_deleted e' = diff_deleted e /\ diff_star e' = diff_star e /\
     diff_desc e' = diff_desc e /\ diff_extra e' = diff_extra e /\
     forall k, k <> "diff_moddump" ->
               Examples.dumped_driver_diffs !! k
               = Examples.driver_diffs !! k) /\
  follow_up Examples.int_tables Examples.busy_volatility "ZwLoadDriver" ∅
            Examples.baseline_diffs
  = Raise (KeyError "diff_moddump").
Proof.
  split.
  - refine (proj1 (zw_load_driver_appends_dumped_drivers Examples.int_tables
                     Examples.busy_volatility ∅ [0x1000]
                     Examples.driver_diffs _ _)
              Examples.dumped_driver_diffs _).
    + reflexivity.
    + discriminate.
    + apply (bool_decide_unpack _). vm_compute. exact I.
  - refine (proj2 (zw_load_driver_appends_dumped_drivers Examples.int_tables
                     Examples.busy_volatility ∅ [0x1000]
                     Examples.baseline_diffs _ _) _ _).
    + reflexivity.
    + discriminate.
    + reflexivity.
    + intros p Hp. by exists (VStr "evil.sys").
Defined.

Lemma record_thread_spec tid ts : forall diffs diffs',
  record_thread tid ts diffs = Ok diffs' ->
  forall e, diffs !! "injected_thread" = Some e ->
  exists e',
    diffs' !! "injected_thread" = Some e' /\
    diff_new e'
    = diff_new e ++ filter (fun t => t !! "TID" = Some (VInt tid)) ts /\
    diff_star e' = diff_star e /\ diff_deleted e' = diff_deleted e /\
    diff_extra e' = diff_extra e /\
    forall k, k <> "injected_thread" -> diffs' !! k = diffs !! k.
Proof.
  induction ts as [|t ts IH]; intros diffs diffs' Hrun e He.
  - cbn in Hrun. simplify_eq. exists e. rewrite filter_nil, app_nil_r. done.
  - cbn in Hrun. unfold getitem in Hrun.
    destruct (t !! "TID") as [t_tid|] eqn:Et; [|done]. cbn in Hrun.
    destruct (decide (t_tid = VInt tid)) as [->|Hne].
    + rewrite He in Hrun. cbn in Hrun.
      destruct (IH _ _ Hrun (append_new t e)) as (e' & He' & Hnew & Hs & Hd
                                                  & Hx & Hframe);
        [by rewrite lookup_insert_eq|].
      exists e'. split; [done|]. cbn in Hnew, Hs, Hd, Hx.
      rewrite filter_cons_True by done.
      split; [by rewrite Hnew, <- app_assoc|]. repeat (split; [done|]).
      intros k Hk. rewrite Hframe by done. by rewrite lookup_insert_ne.
    + destruct (IH _ _ Hrun e He) as (e' & He' & Hnew & Hs & Hd & Hx & Hframe).
      exists e'. split; [done|].
      rewrite filter_cons_False by congruence. done.
Qed.

(** X27. The follow-up of the [NtSetContextThread -> NtResumeThread]
    trigger replaces the injected-thread entry by a starred one whose [new]
    list holds, in their order, exactly the threads of the process whose
    [TID] is the number of the trigger's [ThreadId]; no other entry
    changes. *)
Theorem resume_chain_records_injected_thread (tbl : tables) (vol : volatility)
    (args : gmap string value) (diffs diffs' : gmap string diff_entry) :
  follow_up tbl vol "NtSetContextThread -> NtResumeThread" args diffs
  = Ok diffs' ->
  exists pid thread_id tid ts e',
    args !! "ProcessId" = Some pid /\ args !! "ThreadId" = Some thread_id /\
    py_int tbl thread_id = Ok tid /\
    threads vol (py_str tbl pid) = Ok ts /\
    diffs' !! "injected_thread" = Some e' /\
    diff_star e' = "yes" /\
    diff_new e' = filter (fun t => t !! "TID" = Some (VInt tid)) ts /\
    diff_deleted e' = [] /\
    forall k, k <> "injected_thread" -> diffs' !! k = diffs !! k.
Proof.
  unfold follow_up.
  rewrite decide_False by done. rewrite !bool_decide_eq_false_2 by done.
  cbn [orb]. rewrite decide_False by done. rewrite decide_False by done.
  rewrite decide_True by done. unfold getitem.
  destruct (args !! "ProcessId") as [pid|] eqn:Epid; [|done]. cbn.
  destruct (args !! "ThreadId") as [thread_id|] eqn:Etid; [|done]. cbn.
  destruct (py_int tbl thread_id) as [tid|] eqn:Eint; [|done]. cbn.
  destruct (threads vol (py_str tbl pid)) as [ts|] eqn:Ets; [|done]. cbn.
  intros Hrun.
  destruct (record_thread_spec _ _ _ _ Hrun
              (fresh_entry "yes" "Shows the injected thread" [] ∅))
    as (e' & He' & Hnew & Hs & Hd & _ & Hframe);
    [by rewrite lookup_insert_eq|].
  exists pid, thread_id, tid, ts, e'. repeat (split; [done|]).
  intros k Hk. rewrite Hframe by done. by rewrite lookup_insert_ne.
Qed.

Lemma resume_chain_records_injected_thread_witness :
  exists pid thread_id tid ts e',
    Examples.resume_args !! "ProcessId" = Some pid /\
    Examples.resume_args !! "ThreadId" = Some thread_id /\
    py_int Examples.int_tables thread_id = Ok tid /\
    threads Examples.busy_volatility (py_str Examples.int_tables pid) = Ok ts /\
    Examples.injected_threads !! "injected_thread" = Some e' /\
    diff_star e' = "yes" /\
    diff_new e' = filter (fun t => t !! "TID" = Some (VInt tid)) ts /\
    diff_deleted e' = [] /\
    forall k, k <> "injected_thread" ->
              Examples.injected_threads !! k = (∅ : gmap string diff_entry) !! k.
Proof.
  apply (resume_chain_records_injected_thread Examples.int_tables
           Examples.busy_volatility Examples.resume_args ∅
           Examples.injected_threads).
  apply (bool_decide_unpack _). vm_compute. exact I.
Defined.

End MemoryAnalysisFacts.

Module NetlogFacts.

Import Netlog.
Local Open Scope py_scope.

(** ** The byte source *)

Lemma read_available n h bs rest :
  stream h = bs ++ rest -> Z.of_nat (length bs) = n ->
  read n h = (Ok bs, set_stream rest (reads h ++ [n]) h).
Proof.
  intros Hs Hn. unfold read. rewrite Hs, length_app.
  rewrite (proj2 (Z.leb_le _ _)) by lia.
  replace (Z.to_nat n) with (length bs) by lia.
  by rewrite take_app_length, drop_app_length.
Qed.

Lemma read_short n h :
  Z.of_nat (length (stream h)) < n ->
  read n h = (Raise Disconnect, set_stream [] (reads h ++ [n]) h).
Proof.
  intros Hn. unfold read. by rewrite (proj2 (Z.leb_gt _ _)) by lia.
Qed.

(** ** The legacy field readers *)

(** The guard of [read_string]: a declared length above 0x10000 raises
    [CuckooResultError] with the eight header bytes read and nothing more. *)
Lemma read_string_guard h hdr rest :
  stream h = hdr ++ rest -> length hdr = 8%nat ->
  0x10000 < le (take 4 hdr) ->
  read_string h
  = (Raise CuckooResultError, set_stream rest (reads h ++ [8]) h).
Proof.
  intros Hs Hl Hlen. unfold read_string, bind.
  rewrite (read_available 8 h hdr rest) by (done || lia).
  unfold unpack_II.
  rewrite (proj2 (Z.gtb_gt _ _)) by lia.
  by rewrite orb_true_r.
Qed.

(** [read_buffer] has no guard: whatever length the header declares is read. *)
Lemma read_buffer_unguarded h hdr payload rest :
  stream h = hdr ++ payload ++ rest -> length hdr = 8%nat ->
  le (take 4 hdr) = Z.of_nat (length payload) ->
  read_buffer h
  = (Ok (let buf := string_of_list_byte payload in
         if le (take 4 (drop 4 hdr)) >? le (take 4 hdr)
         then String.append buf " ... (truncated)" else buf),
     set_stream rest (reads h ++ [8; le (take 4 hdr)]) h).
Proof.
  intros Hs Hl Hlen. unfold read_buffer, bind.
  rewrite (read_available 8 h hdr (payload ++ rest)) by (done || lia).
  unfold unpack_II.
  rewrite (read_available _ _ payload rest) by done.
  cbn. by rewrite <- app_assoc.
Qed.

(** An exception of a field reader ends the legacy message with [False]. *)
Lemma try_or_false_raise {A} (body : M handler A) k h e h' :
  body h = (Raise e, h') -> try_or_false body k h = (Ok false, h').
Proof. intros H. unfold try_or_false. by rewrite H. Qed.

(** C2, at the failing input.  On a field declaring 0x10001 bytes,
    [read_string] raises with only the header read, and [read_buffer] reads
    the 0x10001 bytes and returns them. *)
Theorem read_buffer_accepts_oversized_length :
  le (take 4 Examples.oversized_header) = 0x10001 /\
  read_string (Examples.idle_handler Examples.oversized_field)
  = (Raise CuckooResultError,
     set_stream Examples.oversized_payload [8]
                (Examples.idle_handler Examples.oversized_field)) /\
  read_buffer (Examples.idle_handler Examples.oversized_field)
  = (Ok (string_of_list_byte Examples.oversized_payload),
     set_stream [] [8; 0x10001]
                (Examples.idle_handler Examples.oversized_field)).
Proof.
  split; [reflexivity|]. split.
  - rewrite (read_string_guard _ Examples.oversized_header
               Examples.oversized_payload).
    + reflexivity.
    + reflexivity.
    + reflexivity.
    + vm_compute. reflexivity.
  - rewrite (read_buffer_unguarded _ Examples.oversized_header
               Examples.oversized_payload []).
    + reflexivity.
    + unfold Examples.oversized_field. by rewrite app_nil_r.
    + reflexivity.
    + vm_compute. reflexivity.
Qed.

(** In a legacy call message the refused string ends the session: the
    parser returns [False] with the frame header and the field header read. *)
Example legacy_oversized_string_aborts :
  legacy_read_next_message Examples.legacy_env
    (Examples.idle_handler
       (Examples.legacy_header ++ Examples.oversized_header ++ [x41%byte]))
  = (Ok false,
     set_stream [x41%byte] [2; 12; 8]
       (Examples.idle_handler
          (Examples.legacy_header ++ Examples.oversized_header
           ++ [x41%byte]))).
Proof. vm_compute. reflexivity. Qed.

(** ** The argument converters *)

Lemma string_of_list_ascii_app l1 l2 :
  string_of_list_ascii (l1 ++ l2)
  = String.append (string_of_list_ascii l1) (string_of_list_ascii l2).
Proof. induction l1 as [|c l1 IH]; [done|]. cbn. by rewrite IH. Qed.

Lemma length_string_of_list_ascii l :
  String.length (string_of_list_ascii l) = length l.
Proof. induction l as [|c l IH]; [done|]. cbn. by rewrite IH. Qed.

(** [hex_len] digits are enough for [n]. *)
Lemma hex_len_bound n : 0 <= n -> n < 16 ^ Z.of_nat (hex_len n).
Proof.
  intros Hn. unfold hex_len.
  assert (0 <= Z.log2 n) by apply Z.log2_nonneg.
  rewrite Z2Nat.id by (apply Z.add_nonneg_nonneg; [apply Z.div_pos|]; lia).
  replace 16 with (2 ^ 4) by reflexivity.
  rewrite <- Z.pow_mul_r by (try apply Z.add_nonneg_nonneg; try apply Z.div_pos; lia).
  destruct (decide (n = 0)) as [->|Hne].
  - vm_compute. reflexivity.
  - apply Z.lt_le_trans with (2 ^ (Z.succ (Z.log2 n))).
    + apply Z.log2_spec. lia.
    + apply Z.pow_le_mono_r; [lia|].
      pose proof (Z.mod_pos_bound (Z.log2 n) 4 ltac:(lia)).
      pose proof (Z.div_mod (Z.log2 n) 4 ltac:(lia)). lia.
Qed.

(** Below [2 ^ 32] at most eight digits are printed. *)
Lemma hex_len_32 n : 0 <= n < 2 ^ 32 -> (hex_len n <= 8)%nat.
Proof.
  intros [Hn Hlt]. unfold hex_len.
  destruct (decide (n = 0)) as [->|Hne]; [vm_compute; lia|].
  assert (Z.log2 n < 32) by (apply Z.log2_lt_pow2; lia).
  assert (0 <= Z.log2 n) by apply Z.log2_nonneg.
  assert (Z.log2 n / 4 < 8) by (apply Z.div_lt_upper_bound; lia).
  assert (0 <= Z.log2 n / 4) by (apply Z.div_pos; lia).
  lia.
Qed.

(** A digit above the printed ones is zero. *)
Lemma nibble_high n i : 0 <= n -> n < 16 ^ Z.of_nat i -> nibble n i = "0"%char.
Proof.
  intros Hn Hlt. unfold nibble. by rewrite Z.div_small by lia.
Qed.

Lemma map_nibble_high n k : forall j,
  0 <= n -> n < 16 ^ Z.of_nat j ->
  map (nibble n) (rev (seq j k)) = repeat "0"%char k.
Proof.
  induction k as [|k IH]; intros j Hn Hlt; [done|].
  cbn [seq rev]. rewrite map_app, IH; [|done|].
  - cbn [map]. rewrite nibble_high by done.
    change (repeat "0"%char k ++ ["0"%char])
      with (repeat "0"%char k ++ repeat "0"%char 1).
    rewrite <- repeat_app. f_equal. lia.
  - apply Z.lt_le_trans with (16 ^ Z.of_nat j); [done|].
    apply Z.pow_le_mono_r; lia.
Qed.

(** ["%08x"] of a value below [2 ^ 32] is its eight hexadecimal digits. *)
Lemma format_08x_32 n :
  0 <= n < 2 ^ 32 ->
  format_08x n = string_of_list_ascii (map (nibble n) [7; 6; 5; 4; 3; 2; 1; 0]%nat).
Proof.
  intros [Hn Hlt]. unfold format_08x. rewrite (proj2 (Z.ltb_ge _ _)) by done.
  unfold hex_of, zeros. rewrite length_string_of_list_ascii, length_map, length_rev, length_seq.
  pose proof (hex_len_32 n (conj Hn Hlt)) as Hk.
  pose proof (hex_len_bound n Hn) as Hb.
  rewrite <- string_of_list_ascii_app. f_equal.
  rewrite <- (map_nibble_high n (8 - hex_len n) (hex_len n)) by done.
  rewrite <- map_app, <- rev_app_distr, <- seq_app.
  by replace (hex_len n + (8 - hex_len n))%nat with 8%nat by lia.
Qed.

(** C9, as the code has it.  The default converter adds [2 ^ 32] to a
    negative integer and leaves every other value as it is, so [-1] becomes
    [0xFFFFFFFF] and [5] stays [5]; a descriptor whose second element is
    ["p"] selects the pointer converter, which prints the fixed-up integer
    with ["0x%08x"]: for an integer from [- 2 ^ 32] up to [2 ^ 32 - 1],
    ["0x"] and the eight hexadecimal digits of the fixed-up value, zeros
    included. *)
Theorem default_converter_fixes_sign :
  (forall z, z < 0 ->
     default_converter (Scalar (VInt z)) = Scalar (VInt (z + 2 ^ 32))) /\
  (forall z, 0 <= z -> default_converter (Scalar (VInt z)) = Scalar (VInt z)) /\
  (forall v, (forall z, v <> Scalar (VInt z)) -> default_converter v = v) /\
  default_converter (Scalar (VInt (-1))) = Scalar (VInt 0xFFFFFFFF) /\
  default_converter (Scalar (VInt 5)) = Scalar (VInt 5) /\
  (forall name rest,
     converters_of [Seq (name :: VStr "p" :: rest)] = Ok [PointerConverter]) /\
  (forall z, exists u,
     default_converter (Scalar (VInt z)) = Scalar (VInt u) /\
     convert PointerConverter (Scalar (VInt z))
     = Ok (Scalar (VStr (String.append "0x" (format_08x u))))) /\
  (forall z u, - 2 ^ 32 <= z < 2 ^ 32 ->
     default_converter (Scalar (VInt z)) = Scalar (VInt u) ->
     0 <= u < 2 ^ 32 /\
     format_08x u
     = string_of_list_ascii (map (nibble u) [7; 6; 5; 4; 3; 2; 1; 0]%nat)).
Proof.
  split.
  { intros z Hz. unfold default_converter.
    by rewrite (proj2 (Z.ltb_lt _ _)) by done. }
  split.
  { intros z Hz. unfold default_converter.
    by rewrite (proj2 (Z.ltb_ge _ _)) by done. }
  split.
  { intros [[| |]|] Hv; try done. by destruct (Hv z). }
  split; [done|]. split; [done|]. split; [done|]. split.
  { intros z. unfold convert, pointer_converter, default_converter.
    destruct (z <? 0); eauto. }
  intros z u Hz Hu. unfold default_converter in Hu.
  assert (Hr : 0 <= u < 2 ^ 32).
  { destruct (Z.ltb_spec z 0); simplify_eq; lia. }
  split; [done|]. by apply format_08x_32.
Qed.

Lemma default_converter_fixes_sign_witness :
  default_converter (Scalar (VInt (-2))) = Scalar (VInt (-2 + 2 ^ 32)) /\
  format_08x 0xFFFFFFFE = "fffffffe".
Proof.
  destruct default_converter_fixes_sign
    as (Hneg & _ & _ & _ & _ & _ & _ & Hfmt).
  split; [apply Hneg; lia|].
  destruct (Hfmt (-2) 0xFFFFFFFE) as [_ ->]; [lia|reflexivity|reflexivity].
Defined.

Example pointer_converter_minus_one :
  convert PointerConverter (Scalar (VInt (-1))) = Ok (Scalar (VStr "0xffffffff")).
Proof. reflexivity. Qed.

Example pointer_converter_small :
  convert PointerConverter (Scalar (VInt 0x1f4)) = Ok (Scalar (VStr "0x000001f4")).
Proof. reflexivity. Qed.

(** Outside 32 bits the width grows, as with Python's ["%08x"]. *)
Example pointer_converter_wide :
  convert PointerConverter (Scalar (VInt (2 ^ 32)))
  = Ok (Scalar (VStr "0x100000000")).
Proof. reflexivity. Qed.

(** C9 as stated fails outside 32 bits: [2 ^ 32] is printed with nine
    digits, and [- 2 ^ 32 - 1], which the fix-up leaves negative, with a
    sign and seven. *)
Lemma pointer_converter_past_eight_digits :
  convert PointerConverter (Scalar (VInt (2 ^ 32)))
  = Ok (Scalar (VStr (String.append "0x" "100000000"))) /\
  String.length "100000000" = 9%nat /\
  default_converter (Scalar (VInt (- 2 ^ 32 - 1))) = Scalar (VInt (-1)) /\
  convert PointerConverter (Scalar (VInt (- 2 ^ 32 - 1)))
  = Ok (Scalar (VStr (String.append "0x" "-0000001"))).
Proof. repeat split; reflexivity. Qed.

Example expand_format_2s1i : expand_format "2s1i" = Ok "ssi".
Proof. reflexivity. Qed.

(** ** Framing of the self-describing protocol *)

Lemma read_next_message_frame env p hdr rest :
  stream (handler_of p) = hdr ++ rest -> length hdr = 4%nat ->
  read_next_message env p =
  if le hdr >? MAX_MESSAGE_LENGTH then (Ok false, consumed rest [4] p)
  else if le hdr - 4 <=? Z.of_nat (length rest) then
    match bson_decode env (hdr ++ take (Z.to_nat (le hdr - 4)) rest) with
    | None => (Ok false,
               consumed (drop (Z.to_nat (le hdr - 4)) rest) [4; le hdr - 4] p)
    | Some dec =>
        handle_document env dec
          (consumed (drop (Z.to_nat (le hdr - 4)) rest) [4; le hdr - 4] p)
    end
  else (Raise Disconnect, consumed [] [4; le hdr - 4] p).
Proof.
  intros Hs Hl. unfold read_next_message.
  unfold bind at 1. unfold on_handler at 1.
  rewrite (read_available 4 _ hdr rest) by (done || lia).
  unfold unpack_I. rewrite (take_ge hdr) by lia.
  destruct (le hdr >? MAX_MESSAGE_LENGTH); [done|].
  unfold bind at 1. unfold on_handler at 1. cbn [handler_of].
  unfold read. cbn [stream reads set_stream].
  destruct (le hdr - 4 <=? Z.of_nat (length rest)).
  - unfold consumed. rewrite <- (app_assoc _ [4] [le hdr - 4]). cbn [app].
    by destruct (bson_decode env _).
  - unfold consumed. by rewrite <- (app_assoc _ [4] [le hdr - 4]).
Qed.

(** C5. With a declared length above 20 MiB, [read_next_message] returns
    [False] after the four bytes of the length field, the payload unread;
    with a declared length of at most 20 MiB the next read asks for
    [declared length - 4] bytes: when the stream has them they are taken
    and decoded together with the length field, and when it ends before,
    the read fails as every short read does. *)
Theorem read_next_message_length_ceiling (env : environment) (p : parser)
    (hdr rest : list byte) :
  stream (handler_of p) = hdr ++ rest -> length hdr = 4%nat ->
  MAX_MESSAGE_LENGTH = 20 * 1024 * 1024 /\
  (MAX_MESSAGE_LENGTH < le hdr ->
     read_next_message env p = (Ok false, consumed rest [4] p)) /\
  (le hdr <= MAX_MESSAGE_LENGTH -> le hdr - 4 <= Z.of_nat (length rest) ->
     read_next_message env p =
     let payload := take (Z.to_nat (le hdr - 4)) rest in
     let p' := consumed (drop (Z.to_nat (le hdr - 4)) rest)
                        [4; le hdr - 4] p in
     match bson_decode env (hdr ++ payload) with
     | None => (Ok false, p')
     | Some dec => handle_document env dec p'
     end) /\
  (le hdr <= MAX_MESSAGE_LENGTH -> Z.of_nat (length rest) < le hdr - 4 ->
     read_next_message env p
     = (Raise Disconnect, consumed [] [4; le hdr - 4] p)).
Proof.
  intros Hs Hl. rewrite (read_next_message_frame env p hdr rest Hs Hl).
  split; [done|]. split.
  { intros H. by rewrite (proj2 (Z.gtb_gt _ _)) by lia. }
  split.
  - intros H Hp.
    destruct (le hdr >? MAX_MESSAGE_LENGTH) eqn:E;
      [apply Z.gtb_gt in E; lia|].
    by rewrite (proj2 (Z.leb_le _ _)) by lia.
  - intros H Hshort.
    destruct (le hdr >? MAX_MESSAGE_LENGTH) eqn:E;
      [apply Z.gtb_gt in E; lia|].
    by rewrite (proj2 (Z.leb_gt _ _)) by lia.
Qed.

Lemma read_next_message_length_ceiling_witness :
  MAX_MESSAGE_LENGTH + 1 = le Examples.too_long /\
  read_next_message (Examples.fixed_env None ∅ true)
    (Examples.fresh_parser (Examples.too_long ++ [x07%byte]))
  = (Ok false,
     consumed [x07%byte] [4]
              (Examples.fresh_parser (Examples.too_long ++ [x07%byte]))).
Proof.
  split; [reflexivity|].
  apply (read_next_message_length_ceiling (Examples.fixed_env None ∅ true)
           (Examples.fresh_parser (Examples.too_long ++ [x07%byte]))
           Examples.too_long [x07%byte] eq_refl eq_refl).
  reflexivity.
Defined.


(** ** Dropped call messages *)






(** ** The trigger rules *)

(** A debugger session changes the breakpoint lists only. *)
Lemma run_console_frame cmds : forall h,
  times (run_console cmds h) = times h /\
  events (run_console cmds h) = events h /\
  apis (run_console cmds h) = apis h /\
  evaluated (run_console cmds h) = evaluated h /\
  stream (run_console cmds h) = stream h /\
  reads (run_console cmds h) = reads h /\
  server (run_console cmds h) = server h /\
  has_set_apis (run_console cmds h) = has_set_apis h.
Proof.
  unfold run_console.
  induction cmds as [|c cmds IH]; intros h; [done|].
  cbn [fold_left].
  destruct (IH (match c with
                | SetBp api => set_bp api h
                | SetVolshellBp api => set_volshell_bp api h
                end)) as (-> & -> & -> & -> & -> & -> & -> & ->).
  by destruct c.
Qed.

Lemma execute_trigger_parameters_fires env apiname d h o :
  triggers env !! apiname = Some o -> TriggersConf.enabled o = true ->
  0 < get_times apiname h -> triggered_dumps env = true -> server h = true ->
  exists h',
    execute_trigger_parameters env apiname d h = (Ok tt, h') /\
    times h' = <[apiname := get_times apiname h - 1]> (times h) /\
    events h' = events h ++ ReduceTimes apiname :: actions apiname d o h /\
    apis h' = apis h /\
    evaluated h' = evaluated h ++ [(apiname, d)] /\
    stream h' = stream h /\ reads h' = reads h /\
    server h' = server h /\ has_set_apis h' = has_set_apis h.
Proof.
  intros Ht He Hn Hd Hs.
  unfold execute_trigger_parameters. unfold bind at 1. cbn [modify].
  unfold bind at 1. cbn [get].
  rewrite Ht, Hd, He. cbn [with_evaluated server andb]. rewrite Hs. cbn [andb].
  change (get_times apiname (with_evaluated (evaluated h ++ [(apiname, d)]) h))
    with (get_times apiname h).
  rewrite (proj2 (Z.ltb_lt _ _)) by done.
  unfold actions, call_volshell, breakpoint, reduce_times, emit, bind, modify,
    get, ret.
  cbn.
  destruct (TriggersConf.dump_memory o); cbn;
    destruct (TriggersConf.break_on_volshell o
              || bool_decide (apiname ∈ volshell_bps h)); cbn;
    destruct (TriggersConf.breakpoint o || bool_decide (apiname ∈ bps h)); cbn.
  all: try (destruct (console h) as [|cmds later]; cbn).
  all: eexists; split; [reflexivity|].
  all: unfold get_times; cbn.
  all: repeat match goal with
       | |- context [run_console ?c ?x] =>
           let H := fresh in
           pose proof (run_console_frame c x) as H;
           destruct H as (-> & -> & -> & -> & -> & -> & -> & ->)
       end.
  all: cbn; rewrite <- ?app_assoc, ?app_nil_r; cbn; rewrite ?Hs.
  all: done.
Qed.

Lemma execute_trigger_parameters_inert env apiname d h :
  triggers env !! apiname = None \/
  (exists o, triggers env !! apiname = Some o
             /\ TriggersConf.enabled o = false) \/
  get_times apiname h <= 0 \/
  triggered_dumps env = false \/ server h = false ->
  execute_trigger_parameters env apiname d h
  = (Ok tt, with_evaluated (evaluated h ++ [(apiname, d)]) h).
Proof.
  intros Hcase.
  unfold execute_trigger_parameters. unfold bind at 1. cbn [modify].
  unfold bind at 1. cbn [get].
  change (get_times apiname (with_evaluated (evaluated h ++ [(apiname, d)]) h))
    with (get_times apiname h).
  cbn [with_evaluated server].
  destruct (triggers env !! apiname) as [o|] eqn:Ht; [|done].
  destruct Hcase as [?|[(o' & ? & He)|[Hn|[Hd|Hs]]]].
  - done.
  - simplify_eq. rewrite He. by rewrite andb_false_r.
  - rewrite (proj2 (Z.ltb_ge _ _)) by done. by rewrite andb_false_r.
  - by rewrite Hd.
  - rewrite Hs. by rewrite andb_false_r.
Qed.

(** C8, as the code has it.  An evaluation of a trigger does nothing (no
    memory dump, no interactive session, no breakpoint, the fire counts as
    they were) when the rule is absent or disabled or has no fire left, and
    also when triggered dumps are off in the global configuration or the
    handler has no [server]; when none of these holds it takes exactly one
    off the remaining fire count of the rule, leaves the other counts, and
    performs the configured actions. *)
Theorem execute_trigger_parameters_fire_count (env : environment)
    (apiname : string) (d : argdict) (h : handler) :
  (triggers env !! apiname = None \/
   (exists o, triggers env !! apiname = Some o
              /\ TriggersConf.enabled o = false) \/
   get_times apiname h <= 0 \/
   triggered_dumps env = false \/ server h = false ->
   exists h',
     execute_trigger_parameters env apiname d h = (Ok tt, h') /\
     events h' = events h /\ times h' = times h /\
     (forall a, get_times a h' = get_times a h)) /\
  (forall o,
     triggers env !! apiname = Some o -> TriggersConf.enabled o = true ->
     0 < get_times apiname h ->
     triggered_dumps env = true -> server h = true ->
     exists h',
       execute_trigger_parameters env apiname d h = (Ok tt, h') /\
       get_times apiname h' = get_times apiname h - 1 /\
       (forall a, a <> apiname -> get_times a h' = get_times a h) /\
       events h' = events h ++ ReduceTimes apiname :: actions apiname d o h).
Proof.
  split.
  - intros Hcase. eexists. split.
    + by apply execute_trigger_parameters_inert.
    + done.
  - intros o Ht He Hn Hd Hs.
    destruct (execute_trigger_parameters_fires env apiname d h o)
      as (h' & Hrun & Htimes & Hev & _); [done..|].
    exists h'. split; [done|]. unfold get_times. rewrite Htimes.
    split; [by rewrite lookup_insert_eq|]. split; [|done].
    intros a Ha. by rewrite lookup_insert_ne.
Qed.

Lemma execute_trigger_parameters_fire_count_witness :
  exists h',
    execute_trigger_parameters
      (Examples.fixed_env None Examples.smart_conf true) "socket" ∅
      Examples.armed_handler = (Ok tt, h') /\
    get_times "socket" h' = get_times "socket" Examples.armed_handler - 1 /\
    (forall a, a <> "socket" ->
               get_times a h' = get_times a Examples.armed_handler) /\
    events h'
    = events Examples.armed_handler
      ++ [ReduceTimes "socket"; DumpMemory "socket" ∅].
Proof.
  destruct (execute_trigger_parameters_fire_count
              (Examples.fixed_env None Examples.smart_conf true) "socket" ∅
              Examples.armed_handler) as [_ Hfire].
  apply (Hfire {| TriggersConf.enabled := true;
                  TriggersConf.dump_memory := true;
                  TriggersConf.break_on_volshell := false;
                  TriggersConf.breakpoint := false;
                  TriggersConf.run_plugins := "";
                  TriggersConf.run_smart_plugins := true |}).
  - vm_compute. reflexivity.
  - reflexivity.
  - vm_compute. reflexivity.
  - reflexivity.
  - reflexivity.
Defined.

(** C8 as stated fails: the [socket] rule is present and enabled and has
    three fires left, yet with triggered dumps off in the global
    configuration the evaluation takes none off and does nothing; the same
    with triggered dumps on and a handler without [server]. *)
Lemma execute_trigger_parameters_gated_by_triggered_dumps :
  (exists o, Examples.smart_conf !! "socket" = Some o
             /\ TriggersConf.enabled o = true) /\
  get_times "socket" Examples.armed_handler = 3 /\
  (exists h',
     execute_trigger_parameters
       (Examples.fixed_env None Examples.smart_conf false) "socket" ∅
       Examples.armed_handler = (Ok tt, h') /\
     get_times "socket" h' = 3 /\ events h' = []) /\
  (exists h',
     execute_trigger_parameters
       (Examples.fixed_env None Examples.smart_conf true) "socket" ∅
       (Examples.without_server Examples.armed_handler) = (Ok tt, h') /\
     get_times "socket" h' = 3 /\ events h' = []).
Proof.
  split; [eexists; split; [vm_compute; reflexivity|reflexivity]|].
  split; [vm_compute; reflexivity|].
  split.
  - eexists. split; [vm_compute; reflexivity|].
    split; vm_compute; reflexivity.
  - eexists. split; [vm_compute; reflexivity|].
    split; vm_compute; reflexivity.
Qed.

(** ** The three-step chain rule *)

Lemma first_named_elem name l w :
  first_named name l = Some w -> (name, w) ∈ l.
Proof.
  induction l as [|[n a] l IH]; [done|]. cbn.
  destruct (decide (n = name)) as [->|?].
  - intros [= ->]. apply elem_of_cons. by left.
  - intros ?. apply elem_of_cons. right. auto.
Qed.

Lemma find_remote_thread_some w d l c :
  find_remote_thread w d l = Ok (Some c) -> c ∈ l /\ chain_pair w d c.
Proof.
  induction l as [|[name args] l IH]; [done|]. cbn. unfold arg.
  destruct (decide (name = "CreateRemoteThread")) as [->|?].
  - destruct (args !! VStr "ProcessHandle") as [a|] eqn:Ea; [|done]. cbn.
    destruct (w !! VStr "ProcessHandle") as [b|] eqn:Eb; [|done]. cbn.
    destruct (decide (a = b)) as [->|?].
    + destruct (d !! VStr "ProcessId") as [p|] eqn:Ep; [|done]. cbn.
      destruct (args !! VStr "ProcessId") as [q|] eqn:Eq; [|done]. cbn.
      destruct (decide (p = q)) as [->|?].
      * intros [= <-]. split; [apply elem_of_cons; by left|].
        split; [done|]. by exists b, q.
      * intros H. destruct (IH H). split; [apply elem_of_cons; by right|done].
    + intros H. destruct (IH H). split; [apply elem_of_cons; by right|done].
  - intros H. destruct (IH H). split; [apply elem_of_cons; by right|done].
Qed.

Lemma find_remote_thread_finds w d l :
  keyed l -> (exists c, c ∈ l /\ chain_pair w d c) ->
  exists c, find_remote_thread w d l = Ok (Some c).
Proof.
  induction l as [|[name args] l IH]; intros Hk (c & Hc & Hpair).
  { by apply elem_of_nil in Hc. }
  destruct Hpair as (Hname & hv & pv & Hh & Hw & Hd & Hp).
  assert (Hk' : keyed l).
  { intros e ? ?. apply Hk; [apply elem_of_cons; by right|done]. }
  cbn. unfold arg.
  destruct (decide (name = "CreateRemoteThread")) as [->|Hne].
  - destruct (Hk ("CreateRemoteThread", args)) as [[a Ha] [q Hq]];
      [apply elem_of_cons; by left|done|]. cbn in Ha, Hq.
    rewrite Ha, Hw, Hd, Hq. cbn.
    destruct (decide (a = hv)) as [->|?].
    + destruct (decide (pv = q)) as [->|?]; [by eexists|].
      apply IH; [done|]. exists c. split; [|by split; [|exists hv, pv]].
      apply elem_of_cons in Hc as [->|?]; [|done]. cbn in *. congruence.
    + apply IH; [done|]. exists c. split; [|by split; [|exists hv, pv]].
      apply elem_of_cons in Hc as [->|?]; [|done]. cbn in *. congruence.
  - apply IH; [done|]. exists c. split; [|by split; [|exists hv, pv]].
    apply elem_of_cons in Hc as [->|?]; [|done]. cbn in *. congruence.
Qed.

Lemma remove_first_elem x l :
  x ∈ l -> exists l', remove_first x l = Some l' /\ l ≡ₚ x :: l'.
Proof.
  induction l as [|y l IH]; intros Hx; [by apply elem_of_nil in Hx|].
  cbn. destruct (decide (y = x)) as [->|Hne]; [by eexists|].
  apply elem_of_cons in Hx as [->|Hx]; [done|].
  destruct (IH Hx) as (l' & -> & Hp). eexists. split; [done|].
  rewrite Hp. apply Permutation_swap.
Qed.

(** The scans with [break] stop at the first entry, and [list.remove]
    takes out the first equal entry. *)
Lemma first_named_split name l w :
  first_named name l = Some w ->
  exists a b, l = a ++ (name, w) :: b /\ forall e, e ∈ a -> fst e <> name.
Proof.
  induction l as [|[n args] l IH]; cbn; [done|].
  destruct (decide (n = name)) as [->|Hne].
  - intros [= ->]. exists [], l. split; [done|]. by intros e ?%elem_of_nil.
  - intros Hrest. destruct (IH Hrest) as (a & b & -> & Ha).
    exists ((n, args) :: a), b. split; [done|].
    intros e [->|?]%elem_of_cons; [done|by apply Ha].
Qed.

Lemma remove_first_split x a b :
  x ∉ a -> remove_first x (a ++ x :: b) = Some (a ++ b).
Proof.
  induction a as [|y a IH]; intros Hx; cbn.
  - by rewrite decide_True.
  - apply not_elem_of_cons in Hx as [Hne Hx].
    rewrite decide_False by done. by rewrite IH.
Qed.

Lemma find_remote_thread_first w d l c :
  find_remote_thread w d l = Ok (Some c) ->
  exists pre post,
    l = pre ++ c :: post /\ forall e, e ∈ pre -> ~ chain_pair w d e.
Proof.
  induction l as [|[name args] l IH]; cbn; [done|].
  assert (Hskip :
    ~ chain_pair w d (name, args) ->
    find_remote_thread w d l = Ok (Some c) ->
    exists pre post,
      (name, args) :: l = pre ++ c :: post /\
      forall e, e ∈ pre -> ~ chain_pair w d e).
  { intros Hno Hrest. destruct (IH Hrest) as (pre & post & -> & Hpre).
    exists ((name, args) :: pre), post. split; [done|].
    intros e [->|?]%elem_of_cons; [done|by apply Hpre]. }
  destruct (decide (name = "CreateRemoteThread")) as [->|Hne].
  2:{ apply Hskip. by intros [? _]. }
  unfold arg.
  destruct (args !! VStr "ProcessHandle") as [a|] eqn:Ha; [|done]. cbn.
  destruct (w !! VStr "ProcessHandle") as [b|] eqn:Hb; [|done]. cbn.
  destruct (decide (a = b)) as [->|Hab].
  2:{ apply Hskip. intros (_ & hv & pv & ? & ? & _). cbn in *. congruence. }
  destruct (d !! VStr "ProcessId") as [p|] eqn:Hp; [|done]. cbn.
  destruct (args !! VStr "ProcessId") as [q|] eqn:Hq; [|done]. cbn.
  destruct (decide (p = q)) as [->|Hpq].
  2:{ apply Hskip. intros (_ & hv & pv & _ & _ & ? & ?). cbn in *.
      congruence. }
  intros [= <-]. exists [], l. split; [done|]. by intros e ?%elem_of_nil.
Qed.

(** An entry that is no [CreateRemoteThread] is invisible to the second
    scan. *)
Lemma find_remote_thread_skips w d x a b :
  fst x <> "CreateRemoteThread" ->
  find_remote_thread w d (a ++ x :: b) = find_remote_thread w d (a ++ b).
Proof.
  intros Hx. induction a as [|[name args] a IH]; cbn.
  - destruct x as [n args]. cbn in Hx. by rewrite decide_False.
  - by rewrite IH.
Qed.

(** An evaluation always returns, is recorded once, and leaves the history. *)
Lemma execute_trigger_parameters_returns env apiname d h :
  exists h' acts,
    execute_trigger_parameters env apiname d h = (Ok tt, h') /\
    apis h' = apis h /\ evaluated h' = evaluated h ++ [(apiname, d)] /\
    events h' = events h ++ acts.
Proof.
  assert (Hinert :
    execute_trigger_parameters env apiname d h
    = (Ok tt, with_evaluated (evaluated h ++ [(apiname, d)]) h) ->
    exists h' acts,
      execute_trigger_parameters env apiname d h = (Ok tt, h') /\
      apis h' = apis h /\ evaluated h' = evaluated h ++ [(apiname, d)] /\
      events h' = events h ++ acts).
  { intros ->. eexists. exists []. by rewrite app_nil_r. }
  destruct (triggers env !! apiname) as [o|] eqn:Ht.
  2: { apply Hinert, execute_trigger_parameters_inert. by left. }
  destruct (TriggersConf.enabled o) eqn:He.
  2: { apply Hinert, execute_trigger_parameters_inert. right. left.
       by exists o. }
  destruct (Z_lt_le_dec 0 (get_times apiname h)) as [Hn|Hn].
  2: { apply Hinert, execute_trigger_parameters_inert. tauto. }
  destruct (triggered_dumps env) eqn:Hd.
  2: { apply Hinert, execute_trigger_parameters_inert. tauto. }
  destruct (server h) eqn:Hs.
  2: { apply Hinert, execute_trigger_parameters_inert. tauto. }
  destruct (execute_trigger_parameters_fires env apiname d h o)
    as (h' & ? & ? & ? & ? & ? & _); [done..|]. by eexists h', _.
Qed.

Lemma remove_from_apis_elem x h l :
  remove_first x (apis h) = Some l ->
  remove_from_apis x h
  = (Ok tt, with_apis l (with_events (events h ++ [RemoveFromApis x]) h)).
Proof.
  intros Hr. unfold remove_from_apis, emit, bind, modify. cbn. by rewrite Hr.
Qed.

Lemma on_LdrLoadDll_fires env d h w :
  server h = true ->
  first_named "WriteProcessMemory" (apis h) = Some w ->
  keyed (apis h) ->
  (exists c, c ∈ apis h /\ chain_pair w d c) ->
  exists c h' acts,
    c ∈ apis h /\ chain_pair w d c /\
    (exists pre post,
       apis h = pre ++ c :: post /\
       forall e, e ∈ pre -> ~ chain_pair w d e) /\
    on_LdrLoadDll env d h = (Ok tt, h') /\
    evaluated h' = evaluated h ++ [(chain, d)] /\
    events h'
    = events h ++ acts
      ++ [RemoveFromApis ("WriteProcessMemory", w); RemoveFromApis c] /\
    apis h ≡ₚ ("WriteProcessMemory", w) :: c :: apis h' /\
    (exists a1 b1 a2 b2,
       apis h = a1 ++ ("WriteProcessMemory", w) :: b1 /\
       (forall e, e ∈ a1 -> fst e <> "WriteProcessMemory") /\
       a1 ++ b1 = a2 ++ c :: b2 /\
       (forall e, e ∈ a2 -> ~ chain_pair w d e) /\
       apis h' = a2 ++ b2).
Proof.
  intros Hs Hw Hk Hex.
  destruct (find_remote_thread_finds w d (apis h) Hk Hex) as [[name args] Hfind].
  destruct (find_remote_thread_some _ _ _ _ Hfind) as [Hc Hpair].
  exists (name, args).
  destruct (execute_trigger_parameters_returns env chain d h)
    as (h1 & acts & Hrun & Hap & Hev & Hacts).
  destruct (first_named_split _ _ _ Hw) as (a1 & b1 & Hl & Ha1).
  assert (Hr1 : remove_first ("WriteProcessMemory", w) (apis h)
                = Some (a1 ++ b1)).
  { rewrite Hl. apply remove_first_split. intros Hin. by apply (Ha1 _ Hin). }
  assert (Hfind1 : find_remote_thread w d (a1 ++ b1)
                   = Ok (Some (name, args))).
  { rewrite <- Hfind, Hl. symmetry. by apply find_remote_thread_skips. }
  destruct (find_remote_thread_first _ _ _ _ Hfind1)
    as (a2 & b2 & Hl1 & Ha2).
  assert (Hr2 : remove_first (name, args) (a1 ++ b1) = Some (a2 ++ b2)).
  { rewrite Hl1. apply remove_first_split. intros Hin.
    by apply (Ha2 _ Hin). }
  eexists _, acts. split; [done|]. split; [done|].
  split; [by apply find_remote_thread_first|]. split.
  - unfold on_LdrLoadDll. unfold bind at 1. cbn [get]. rewrite Hs.
    unfold bind at 1. cbn [get_apis]. rewrite Hw.
    unfold bind at 1. unfold lift. rewrite Hfind.
    unfold bind at 1. fold chain. rewrite Hrun.
    unfold bind at 1.
    rewrite (remove_from_apis_elem _ h1 (a1 ++ b1)) by by rewrite Hap.
    by rewrite (remove_from_apis_elem _ _ (a2 ++ b2)).
  - cbn. rewrite Hacts, <- !app_assoc. split; [done|]. split; [done|].
    split.
    + rewrite Hl, <- Permutation_middle. apply perm_skip.
      by rewrite Hl1, <- Permutation_middle.
    + by exists a1, b1, a2, b2.
Qed.

Lemma on_LdrLoadDll_quiet env d h :
  (forall w c, ("WriteProcessMemory", w) ∈ apis h -> c ∈ apis h ->
               ~ chain_pair w d c) ->
  forall r h', on_LdrLoadDll env d h = (r, h') -> h' = h.
Proof.
  intros Hno r h'. unfold on_LdrLoadDll. unfold bind at 1. cbn [get].
  destruct (server h); [|by intros [= _ <-]].
  unfold bind at 1. cbn [get_apis].
  destruct (first_named "WriteProcessMemory" (apis h)) as [w|] eqn:Hw;
    [|by intros [= _ <-]].
  unfold bind at 1. unfold lift.
  destruct (find_remote_thread w d (apis h)) as [[c|]|e] eqn:Hfind.
  - destruct (find_remote_thread_some _ _ _ _ Hfind) as [Hc Hpair].
    exfalso. eapply Hno; [by apply first_named_elem|exact Hc|exact Hpair].
  - by intros [= _ <-].
  - by intros [= _ <-].
Qed.

(** C1, as the code has it.  On a [LdrLoadDll] call, when the handler has a
    [server], the first [WriteProcessMemory] entry of the history and some
    [CreateRemoteThread] entry have the same [ProcessHandle], and the call's
    [ProcessId] is that entry's (the [CreateRemoteThread] entries carrying
    both keys), the three-step trigger is evaluated exactly once and two
    entries leave the history: that first [WriteProcessMemory] entry and
    the first [CreateRemoteThread] entry that matches it and the call; the
    history is otherwise as it was, in its order.  And when the history
    holds no [WriteProcessMemory] and [CreateRemoteThread] entries matching
    the call, nothing is evaluated and the history stays as it is. *)
Theorem ldr_load_dll_chain_fires_once (env : environment) (d : argdict)
    (h : handler) :
  (forall w,
     server h = true ->
     first_named "WriteProcessMemory" (apis h) = Some w ->
     keyed (apis h) ->
     (exists c, c ∈ apis h /\ chain_pair w d c) ->
     exists c h' acts,
       c ∈ apis h /\ chain_pair w d c /\
       (exists pre post,
          apis h = pre ++ c :: post /\
          forall e, e ∈ pre -> ~ chain_pair w d e) /\
       on_LdrLoadDll env d h = (Ok tt, h') /\
       evaluated h'
       = evaluated h
         ++ [("WriteProcessMemory -> CreateRemoteThread -> LoadLibrary", d)] /\
       events h'
       = events h ++ acts
         ++ [RemoveFromApis ("WriteProcessMemory", w); RemoveFromApis c] /\
       apis h ≡ₚ ("WriteProcessMemory", w) :: c :: apis h' /\
       (exists a1 b1 a2 b2,
          apis h = a1 ++ ("WriteProcessMemory", w) :: b1 /\
          (forall e, e ∈ a1 -> fst e <> "WriteProcessMemory") /\
          a1 ++ b1 = a2 ++ c :: b2 /\
          (forall e, e ∈ a2 -> ~ chain_pair w d e) /\
          apis h' = a2 ++ b2)) /\
  ((forall w c, ("WriteProcessMemory", w) ∈ apis h -> c ∈ apis h ->
                ~ chain_pair w d c) ->
   forall r h', on_LdrLoadDll env d h = (r, h') ->
                h' = h /\ evaluated h' = evaluated h /\ apis h' = apis h).
Proof.
  split.
  - intros w. apply on_LdrLoadDll_fires.
  - intros Hno r h' Hrun.
    by rewrite (on_LdrLoadDll_quiet env d h Hno r h' Hrun).
Qed.

(** The scenario of the chain rule: after a write and a remote thread on
    handle 1, a [LdrLoadDll] in process 9 is reported once and consumes
    both entries; a second one finds nothing. *)
Example chain_scenario :
  let h1 :=
    with_events [RemoveFromApis (Examples.wpm 1);
                 RemoveFromApis (Examples.crt 1 9)]
      (with_evaluated [(chain, Examples.ldr 9)] (Examples.with_history [])) in
  let h2 :=
    with_evaluated [(chain, Examples.ldr 9)] (Examples.with_history []) in
  on_LdrLoadDll Examples.quiet_env (Examples.ldr 9)
    (Examples.with_history [Examples.wpm 1; Examples.crt 1 9]) = (Ok tt, h1) /\
  on_LdrLoadDll Examples.quiet_env (Examples.ldr 9) h2 = (Ok tt, h2).
Proof. split; vm_compute; reflexivity. Qed.

(** Of two remote threads that match, the older one leaves the history. *)
Example chain_takes_first_thread :
  apis (snd (on_LdrLoadDll Examples.quiet_env (Examples.ldr 9)
               (Examples.with_history
                  [Examples.wpm 1; Examples.crt_thread 1 9 100;
                   Examples.crt_thread 1 9 200])))
  = [Examples.crt_thread 1 9 200].
Proof. apply (bool_decide_unpack _). vm_compute. exact I. Qed.

Lemma ldr_load_dll_chain_fires_once_witness :
  exists c h' acts,
    c ∈ [Examples.wpm 1; Examples.crt 1 9] /\
    chain_pair (snd (Examples.wpm 1)) (Examples.ldr 9) c /\
    (exists pre post,
       [Examples.wpm 1; Examples.crt 1 9] = pre ++ c :: post /\
       forall e, e ∈ pre ->
                 ~ chain_pair (snd (Examples.wpm 1)) (Examples.ldr 9) e) /\
    on_LdrLoadDll Examples.quiet_env (Examples.ldr 9)
      (Examples.with_history [Examples.wpm 1; Examples.crt 1 9])
    = (Ok tt, h') /\
    evaluated h'
    = [] ++ [("WriteProcessMemory -> CreateRemoteThread -> LoadLibrary",
              Examples.ldr 9)] /\
    events h'
    = [] ++ acts
      ++ [RemoveFromApis ("WriteProcessMemory", snd (Examples.wpm 1));
          RemoveFromApis c] /\
    [Examples.wpm 1; Examples.crt 1 9]
    ≡ₚ ("WriteProcessMemory", snd (Examples.wpm 1)) :: c :: apis h' /\
    (exists a1 b1 a2 b2,
       [Examples.wpm 1; Examples.crt 1 9]
       = a1 ++ ("WriteProcessMemory", snd (Examples.wpm 1)) :: b1 /\
       (forall e, e ∈ a1 -> fst e <> "WriteProcessMemory") /\
       a1 ++ b1 = a2 ++ c :: b2 /\
       (forall e, e ∈ a2 ->
                  ~ chain_pair (snd (Examples.wpm 1)) (Examples.ldr 9) e) /\
       apis h' = a2 ++ b2).
Proof.
  destruct (ldr_load_dll_chain_fires_once Examples.quiet_env (Examples.ldr 9)
              (Examples.with_history [Examples.wpm 1; Examples.crt 1 9]))
    as [Hfire _].
  apply (Hfire (snd (Examples.wpm 1))).
  - reflexivity.
  - reflexivity.
  - intros e He Hname.
    apply elem_of_cons in He as [->|He]; [discriminate Hname|].
    apply elem_of_cons in He as [->|He]; [|by apply elem_of_nil in He].
    split; eexists; vm_compute; reflexivity.
  - exists (Examples.crt 1 9). split.
    + apply elem_of_cons. right. apply elem_of_cons. by left.
    + split; [reflexivity|].
      exists (Scalar (VInt 1)), (Scalar (VInt 9)).
      repeat split; vm_compute; reflexivity.
Defined.

(** C1 as stated fails: the history holds a [WriteProcessMemory] entry and a
    [CreateRemoteThread] entry on handle 2, and the call is in the process
    of that remote thread, but an older [WriteProcessMemory] entry on
    handle 1 is the one the scan stops at: nothing is evaluated and the
    history keeps all three entries.  Nor is anything evaluated, with a
    matching pair first in the history, for a handler without [server]. *)
Lemma ldr_load_dll_first_write_shadows :
  (Examples.wpm 2 ∈ [Examples.wpm 1; Examples.wpm 2; Examples.crt 2 9] /\
   Examples.crt 2 9 ∈ [Examples.wpm 1; Examples.wpm 2; Examples.crt 2 9] /\
   chain_pair (snd (Examples.wpm 2)) (Examples.ldr 9) (Examples.crt 2 9) /\
   on_LdrLoadDll Examples.quiet_env (Examples.ldr 9)
     (Examples.with_history
        [Examples.wpm 1; Examples.wpm 2; Examples.crt 2 9])
   = (Ok tt,
      Examples.with_history
        [Examples.wpm 1; Examples.wpm 2; Examples.crt 2 9])) /\
  (chain_pair (snd (Examples.wpm 1)) (Examples.ldr 9) (Examples.crt 1 9) /\
   on_LdrLoadDll Examples.quiet_env (Examples.ldr 9)
     (Examples.without_server
        (Examples.with_history [Examples.wpm 1; Examples.crt 1 9]))
   = (Ok tt,
      Examples.without_server
        (Examples.with_history [Examples.wpm 1; Examples.crt 1 9]))).
Proof.
  split.
  - split; [apply elem_of_cons; right; apply elem_of_cons; by left|].
    split; [do 2 (apply elem_of_cons; right); apply elem_of_cons; by left|].
    split.
    + split; [reflexivity|].
      exists (Scalar (VInt 2)), (Scalar (VInt 9)).
      repeat split; vm_compute; reflexivity.
    + vm_compute. reflexivity.
  - split.
    + split; [reflexivity|].
      exists (Scalar (VInt 1)), (Scalar (VInt 9)).
      repeat split; vm_compute; reflexivity.
    + reflexivity.
Qed.

(** The chain rule is the [LdrLoadDll] branch of a regular call. *)
Lemma dispatch_LdrLoadDll env context d :
  dispatch env context "LdrLoadDll" d
  = bind (on_LdrLoadDll env d) (fun _ => ret (Continue d)).
Proof. reflexivity. Qed.

(** ** More on the legacy field readers *)

(** The string that [read_string] returns for a field within the guard. *)
Lemma read_string_returns h hdr payload rest :
  stream h = hdr ++ payload ++ rest -> length hdr = 8%nat ->
  le (take 4 hdr) = Z.of_nat (length payload) ->
  le (take 4 hdr) <= 0x10000 ->
  read_string h
  = (Ok (let s := string_of_list_byte payload in
         if le (take 4 (drop 4 hdr)) >? le (take 4 hdr)
         then String.append s "... (truncated)" else s),
     set_stream rest (reads h ++ [8; le (take 4 hdr)]) h).
Proof.
  intros Hs Hl Hlen Hmax. unfold read_string, bind.
  rewrite (read_available 8 h hdr (payload ++ rest)) by (done || lia).
  unfold unpack_II.
  rewrite (proj2 (Z.ltb_ge _ _)) by lia.
  destruct (le (take 4 hdr) >? 65536) eqn:E; [apply Z.gtb_gt in E; lia|].
  cbn [orb]. rewrite (read_available _ _ payload rest) by done.
  cbn. by rewrite <- app_assoc.
Qed.

(** X1. On a string field within the guard, [read_string] returns the
    declared bytes followed by the marker ["... (truncated)"] when the
    maximum length exceeds the length, and the declared bytes alone when it
    does not; it consumes the header and the declared bytes, no more. *)
Theorem read_string_truncation_marker (h : handler)
    (hdr payload rest : list byte) :
  stream h = hdr ++ payload ++ rest -> length hdr = 8%nat ->
  le (take 4 hdr) = Z.of_nat (length payload) ->
  le (take 4 hdr) <= 0x10000 ->
  exists s h',
    read_string h = (Ok s, h') /\ stream h' = rest /\
    (le (take 4 hdr) < le (take 4 (drop 4 hdr)) ->
       s = String.append (string_of_list_byte payload) "... (truncated)") /\
    (le (take 4 (drop 4 hdr)) <= le (take 4 hdr) ->
       s = string_of_list_byte payload).
Proof.
  intros Hs Hl Hlen Hmax.
  rewrite (read_string_returns h hdr payload rest) by done.
  eexists _, _. split; [done|]. split; [done|]. cbn zeta. split.
  - intros Hlt. by rewrite (proj2 (Z.gtb_gt _ _)) by lia.
  - intros Hle.
    destruct (le (take 4 (drop 4 hdr)) >? le (take 4 hdr)) eqn:E; [|done].
    apply Z.gtb_gt in E. lia.
Qed.

Lemma read_string_truncation_marker_witness :
  exists s h',
    read_string (Examples.idle_handler
                   ([x02; x00; x00; x00; x05; x00; x00; x00; x68; x69; x21]%byte))
    = (Ok s, h') /\ stream h' = [x21%byte] /\
    (le (take 4 [x02; x00; x00; x00; x05; x00; x00; x00]%byte)
     < le (take 4 (drop 4 [x02; x00; x00; x00; x05; x00; x00; x00]%byte)) ->
       s = String.append (string_of_list_byte [x68; x69]%byte)
                         "... (truncated)") /\
    (le (take 4 (drop 4 [x02; x00; x00; x00; x05; x00; x00; x00]%byte))
     <= le (take 4 [x02; x00; x00; x00; x05; x00; x00; x00]%byte) ->
       s = string_of_list_byte [x68; x69]%byte).
Proof.
  apply (read_string_truncation_marker
           (Examples.idle_handler
              ([x02; x00; x00; x00; x05; x00; x00; x00; x68; x69; x21]%byte))
           [x02; x00; x00; x00; x05; x00; x00; x00]%byte
           [x68; x69]%byte [x21%byte]).
  - reflexivity.
  - reflexivity.
  - reflexivity.
  - vm_compute. discriminate.
Defined.

(** A little-endian field of [n] bytes is below [256 ^ n]. *)
Lemma le_bound bs : 0 <= le bs < 256 ^ Z.of_nat (length bs).
Proof.
  induction bs as [|b bs IH]; [cbn; lia|].
  cbn [le length]. rewrite Nat2Z.inj_succ, Z.pow_succ_r by lia.
  assert (0 <= Z.of_N (Byte.to_N b) < 256).
  { split; [lia|]. destruct b; vm_compute; reflexivity. }
  lia.
Qed.

(** X2. What [read_ptr] returns is ["0x"] followed by exactly eight
    hexadecimal digits, those of the unsigned 32-bit value that [read_int32]
    reads from the same four bytes. *)
Theorem read_ptr_eight_digits (h h' : handler) (s : string) :
  read_ptr h = (Ok s, h') ->
  exists v,
    read_int32 h = (Ok v, h') /\ 0 <= v < 2 ^ 32 /\
    s = String.append "0x"
          (string_of_list_ascii
             (map (nibble v) [7; 6; 5; 4; 3; 2; 1; 0]%nat)) /\
    String.length s = 10%nat.
Proof.
  assert (Hint : forall v h1, read_int32 h = (Ok v, h1) -> 0 <= v < 2 ^ 32).
  { intros v h1. unfold read_int32, bind.
    destruct (read 4 h) as [[bs|e] h2] eqn:E; [|done].
    unfold ret, unpack_I. intros [= <- <-].
    pose proof (le_bound (take 4 bs)) as Hb.
    assert (length (take 4 bs) <= 4)%nat by (rewrite length_take; lia).
    assert (256 ^ Z.of_nat (length (take 4 bs)) <= 256 ^ 4)
      by (apply Z.pow_le_mono_r; lia).
    change (2 ^ 32) with (256 ^ 4). lia. }
  unfold read_ptr, bind.
  destruct (read_int32 h) as [[v|e] h1] eqn:E; [|done].
  unfold ret. intros [= <- <-]. exists v. split; [done|].
  split; [by eapply Hint|].
  rewrite format_08x_32 by (by eapply Hint). split; [done|].
  reflexivity.
Qed.

Lemma read_ptr_eight_digits_witness :
  exists v,
    read_int32 (Examples.idle_handler [xef; xbe; x00; x00; x07]%byte)
    = (Ok v, set_stream [x07%byte] [4]
               (Examples.idle_handler [xef; xbe; x00; x00; x07]%byte)) /\
    0 <= v < 2 ^ 32 /\
    "0x0000beef"
    = String.append "0x"
        (string_of_list_ascii
           (map (nibble v) [7; 6; 5; 4; 3; 2; 1; 0]%nat)) /\
    String.length "0x0000beef" = 10%nat.
Proof.
  apply (read_ptr_eight_digits
           (Examples.idle_handler [xef; xbe; x00; x00; x07]%byte)).
  reflexivity.
Defined.

Lemma read_items_length {A} (fn : M handler A) count : forall h l h',
  read_items fn count h = (Ok l, h') -> length l = count.
Proof.
  induction count as [|k IH]; intros h l h'.
  - cbn. unfold ret. by intros [= <- _].
  - cbn. unfold bind.
    destruct (fn h) as [[item|e] h1]; [|done].
    destruct (read_items fn k h1) as [[l0|e] h2] eqn:E; [|done].
    unfold ret. intros [= <- _]. cbn. f_equal. by eapply IH.
Qed.

(** X3. A list that [read_list] returns has as many items as the count
    field, the first four bytes of the stream, says. *)
Theorem read_list_count {A : Type} (fn : M handler A) (h h' : handler)
    (l : list A) :
  read_list fn h = (Ok l, h') ->
  exists hdr rest,
    stream h = hdr ++ rest /\ length hdr = 4%nat /\
    length l = Z.to_nat (le hdr).
Proof.
  unfold read_list, bind, read_int32, bind.
  unfold read. destruct (4 <=? Z.of_nat (length (stream h))) eqn:E; [|done].
  apply Z.leb_le in E. unfold ret, unpack_I. intros Hrun.
  exists (take 4 (stream h)), (drop 4 (stream h)).
  split; [by rewrite take_drop|]. split; [rewrite length_take; lia|].
  apply read_items_length in Hrun. rewrite Hrun.
  by rewrite take_take.
Qed.

Lemma read_list_count_witness :
  exists hdr rest,
    stream (Examples.idle_handler
              [x02; x00; x00; x00; x09; x00; x00; x00; x08; x00; x00; x00]%byte)
    = hdr ++ rest /\ length hdr = 4%nat /\
    length [9; 8] = Z.to_nat (le hdr).
Proof.
  apply (read_list_count read_int32
           (Examples.idle_handler
              [x02; x00; x00; x00; x09; x00; x00; x00; x08; x00; x00; x00]%byte)
           (set_stream [] [4; 4; 4]
              (Examples.idle_handler
                 [x02; x00; x00; x00; x09; x00; x00; x00; x08; x00; x00;
                  x00]%byte))).
  reflexivity.
Defined.

(** ** One event per legacy message *)

Lemma advanced_0 h : advanced 0 [] h = h.
Proof. unfold advanced, set_stream. destruct h; cbn. by rewrite app_nil_r. Qed.

Lemma advanced_advanced k sizes k' sizes' h :
  advanced k' sizes' (advanced k sizes h) = advanced (k + k') (sizes ++ sizes') h.
Proof.
  unfold advanced, set_stream; cbn. by rewrite drop_drop, app_assoc.
Qed.

Lemma advanced_end sizes h :
  set_stream [] (reads h ++ sizes) h = advanced (length (stream h)) sizes h.
Proof. unfold advanced. by rewrite drop_all. Qed.

Lemma read_advanced n pos sizes h :
  read n (advanced pos sizes h)
  = if n <=? Z.of_nat (length (drop pos (stream h))) then
      (Ok (take (Z.to_nat n) (drop pos (stream h))),
       advanced (pos + Z.to_nat n) (sizes ++ [n]) h)
    else (Raise Disconnect, advanced (length (stream h)) (sizes ++ [n]) h).
Proof.
  unfold read; cbn. destruct (_ <=? _).
  - f_equal. unfold advanced, set_stream; cbn.
    by rewrite drop_drop, app_assoc.
  - f_equal. rewrite <- advanced_end. unfold set_stream; cbn.
    by rewrite app_assoc.
Qed.

Lemma reader_ret {A} (a : A) : reader (ret a).
Proof. intros h. exists 0%nat, []. cbn. by rewrite advanced_0. Qed.

Lemma reader_raise {A} e : reader (@raise handler A e).
Proof. intros h. exists 0%nat, []. cbn. by rewrite advanced_0. Qed.

Lemma reader_lift {A} (r : res A) : reader (lift r).
Proof. intros h. exists 0%nat, []. destruct r; cbn; by rewrite advanced_0. Qed.

Lemma reader_read n : reader (read n).
Proof.
  intros h. pose proof (read_advanced n 0 [] h) as Hr.
  rewrite advanced_0 in Hr. rewrite Hr.
  destruct (_ <=? _); by eexists _, _.
Qed.

Lemma reader_bind {A B} (m : M handler A) (k : A -> M handler B) :
  reader m -> (forall a, reader (k a)) -> reader (bind m k).
Proof.
  intros Hm Hk h. unfold bind. destruct (Hm h) as (n & sizes & Hs).
  destruct (m h) as [[a|e] h1]; cbn in Hs; subst h1.
  - destruct (Hk a (advanced n sizes h)) as (n' & sizes' & ->).
    rewrite advanced_advanced. by eexists _, _.
  - by eexists _, _.
Qed.

Lemma reader_read_int32 : reader read_int32.
Proof. apply reader_bind; [apply reader_read|intros; apply reader_ret]. Qed.

Lemma reader_read_ptr : reader read_ptr.
Proof. apply reader_bind; [apply reader_read_int32|intros; apply reader_ret]. Qed.

Lemma reader_read_string : reader read_string.
Proof.
  apply reader_bind; [apply reader_read|]. intros hdr.
  destruct (unpack_II hdr) as [length maxlength].
  destruct ((length <? 0) || (length >? 65536)); [apply reader_raise|].
  apply reader_bind; [apply reader_read|intros; apply reader_ret].
Qed.

Lemma reader_read_buffer : reader read_buffer.
Proof.
  apply reader_bind; [apply reader_read|]. intros hdr.
  destruct (unpack_II hdr) as [length maxlength].
  apply reader_bind; [apply reader_read|intros; apply reader_ret].
Qed.

Lemma reader_read_items {A} (fn : M handler A) count :
  reader fn -> reader (read_items fn count).
Proof.
  intros Hfn. induction count as [|k IH]; [apply reader_ret|].
  cbn. apply reader_bind; [done|]. intros item.
  apply reader_bind; [done|]. intros; apply reader_ret.
Qed.

Lemma reader_read_registry env : reader (read_registry env).
Proof.
  apply reader_bind; [apply reader_read_int32|]. intros typ.
  destruct (_ || _).
  { apply reader_bind; [apply reader_read_int32|intros; apply reader_ret]. }
  destruct (_ || _); [|apply reader_ret].
  apply reader_bind; [apply reader_read_string|intros; apply reader_ret].
Qed.

Lemma reader_formatmap env fs fn : formatmap env fs = Some fn -> reader fn.
Proof.
  unfold formatmap. repeat case_bool_decide; intros [= <-].
  - apply reader_bind; [apply reader_read_string|intros; apply reader_ret].
  - apply reader_bind; [apply reader_read_buffer|intros; apply reader_ret].
  - apply reader_bind; [apply reader_read_int32|intros; apply reader_ret].
  - apply reader_bind; [apply reader_read_ptr|intros; apply reader_ret].
  - apply reader_bind; [|intros; apply reader_ret].
    apply reader_bind; [apply reader_read_int32|].
    intros; apply reader_read_items, reader_read_string.
  - apply reader_read_registry.
Qed.

(** The steps of a message, each from a known place of the byte source. *)

Lemma one_event_false h P pos sizes :
  one_event h P (ret false (advanced pos sizes h)).
Proof. by exists pos, sizes. Qed.

Lemma one_event_emit e h (P : event -> Prop) pos sizes :
  P e ->
  one_event h P (bind (emit e) (fun _ => ret true) (advanced pos sizes h)).
Proof. intros He. exists pos, sizes. cbn. by exists e. Qed.

Lemma one_event_read n (k : list byte -> M handler bool) h P pos sizes :
  one_event h P (k (take (Z.to_nat n) (drop pos (stream h)))
                   (advanced (pos + Z.to_nat n) (sizes ++ [n]) h)) ->
  one_event h P (bind (read n) k (advanced pos sizes h)).
Proof.
  intros Hk. unfold bind. rewrite read_advanced.
  destruct (_ <=? _); [done|]. by eexists _, _.
Qed.

Lemma one_event_read_int32 (k : Z -> M handler bool) h P pos sizes :
  one_event h P (k (unpack_I (take 4 (drop pos (stream h))))
                   (advanced (pos + 4) (sizes ++ [4]) h)) ->
  one_event h P (bind read_int32 k (advanced pos sizes h)).
Proof.
  intros Hk. unfold read_int32, bind. rewrite read_advanced.
  destruct (_ <=? _); [done|]. by eexists _, _.
Qed.

Lemma one_event_try_read_string (k : string -> M handler bool) h P pos sizes :
  (forall pos' sizes',
     one_event h P (k (string_at (drop pos (stream h)))
                      (advanced pos' sizes' h))) ->
  one_event h P (try_or_false read_string k (advanced pos sizes h)).
Proof.
  intros Hk. unfold try_or_false, read_string, bind. rewrite read_advanced.
  destruct (_ <=? _); [|by eexists _, _].
  unfold string_at in Hk. rewrite drop_drop in Hk.
  change (Z.to_nat 8) with 8%nat.
  destruct (unpack_II _) as [length maxlength].
  destruct ((length <? 0) || (length >? 65536)); [by eexists _, _|].
  cbn. rewrite read_advanced.
  destruct (_ <=? _); [|by eexists _, _]. cbn. apply Hk.
Qed.

Lemma one_event_try {A} (m : M handler A) (k : A -> M handler bool)
    h P pos sizes :
  reader m ->
  (forall a pos' sizes', one_event h P (k a (advanced pos' sizes' h))) ->
  one_event h P (try_or_false m k (advanced pos sizes h)).
Proof.
  intros Hm Hk. unfold try_or_false.
  destruct (Hm (advanced pos sizes h)) as (n & sizes' & Hs).
  rewrite advanced_advanced in Hs.
  destruct (m _) as [[a|e] h1]; cbn in Hs; subst h1; [apply Hk|].
  by eexists _, _.
Qed.

Lemma one_event_mono h (P Q : event -> Prop) out :
  (forall e, P e -> Q e) -> one_event h P out -> one_event h Q out.
Proof.
  intros HPQ (k & sizes & Hout). exists k, sizes.
  destruct (fst out) as [[]|]; [|done..].
  destruct Hout as (e & He & ->). exists e. auto.
Qed.

Lemma one_event_read_arguments env h context apiname modulename fss :
  forall names args pos sizes,
  one_event h
    (fun e => exists arguments,
       e = LogCall context apiname modulename arguments /\
       map fst arguments = map fst args ++ map VStr (named_by env fss names))
    (read_arguments env fss names args
       (fun arguments =>
          emit (LogCall context apiname modulename arguments) ;;; ret true)
       (advanced pos sizes h)).
Proof.
  induction fss as [|fs fss IH]; intros names args pos sizes.
  { cbn [read_arguments]. apply one_event_emit. exists args.
    split; [done|]. by rewrite app_nil_r. }
  cbn [read_arguments named_by]. destruct names as [|argname names].
  { by eexists _, _. }
  destruct (formatmap env fs) as [fn|] eqn:E; [|apply IH].
  apply one_event_try; [by eapply reader_formatmap|].
  intros r pos' sizes'. eapply one_event_mono; [|apply IH].
  intros e (arguments & -> & Hn). exists arguments. split; [done|].
  rewrite Hn, map_app. cbn. by rewrite <- app_assoc.
Qed.

(** X4. A legacy message logs at most one event, and which one is fixed by
    its bytes.  When [read_next_message] returns [True] exactly one logging
    call was made: for index 0 [log_process], for index 1 [log_thread], for
    any other index [log_call] under the API and module names of that row
    of the table.  Its context is the five header fields; the FILETIME, the
    two process identifiers and the module path of a process, and the
    identifier of a thread, are the fields that follow the header; the
    arguments of a call bear, in order, the table's names of the format
    characters that have a reader.  When it returns [False] or raises no
    call was made.  Either way the decoder has only moved along the byte
    source: what is left is a suffix of the stream, the reads made are added
    to those before, and the handler is otherwise as before (history, fire
    counts and breakpoints are never touched by the legacy decoder). *)
Theorem legacy_message_logs_one_event (env : environment) (h : handler) :
  exists k sizes,
    match fst (legacy_read_next_message env h) with
    | Ok true =>
        exists e,
          legacy_event env (stream h) e /\
          snd (legacy_read_next_message env h)
          = with_events (events h ++ [e]) (advanced k sizes h)
    | _ => snd (legacy_read_next_message env h) = advanced k sizes h
    end.
Proof.
  cut (one_event h (legacy_event env (stream h))
         (legacy_read_next_message env (advanced 0 [] h)));
    [by rewrite advanced_0|].
  unfold legacy_read_next_message, legacy_event.
  apply one_event_read. apply one_event_read.
  destruct (decide _).
  { apply one_event_read_int32. apply one_event_read_int32.
    destruct (negb _); [apply one_event_false|].
    apply one_event_read_int32. apply one_event_read_int32.
    apply one_event_try_read_string. intros pos' sizes'.
    destruct (_ <? _); [apply one_event_false|].
    by apply one_event_emit. }
  destruct (decide _).
  { apply one_event_read_int32. by apply one_event_emit. }
  destruct (LOGTBL env !! _) as [[[apiname modulename] [format argnames]]|]
    eqn:Hrow; [|apply one_event_false].
  unfold bind at 1. destruct (expand_format format) as [fss|err] eqn:Hfs; cbn.
  2:{ by exists 14%nat, [2; 12]. }
  eapply one_event_mono; [|apply one_event_read_arguments].
  intros e (arguments & -> & Hn).
  by exists apiname, modulename, format, argnames, fss, arguments.
Qed.

(** ** The format strings of the legacy table *)

Lemma expand_format_raises_aux n : forall fs e,
  (String.length fs <= n)%nat ->
  expand_format fs = Raise e ->
  e = IndexError /\
  exists pre x, fs = String.append pre (String x "") /\ is_Some (digit_of x).
Proof.
  induction n as [|n IH]; intros fs e Hlen.
  { destruct fs; [done|cbn in Hlen; lia]. }
  destruct fs as [|x rest]; [done|]. cbn [expand_format].
  destruct (digit_of x) as [k|] eqn:Ex.
  - destruct rest as [|y rest'].
    + intros [= <-]. split; [done|]. exists "", x. by rewrite Ex.
    + destruct (expand_format rest') as [out|e'] eqn:E; [done|].
      cbn. intros [= <-].
      destruct (IH rest' e') as (-> & pre & z & -> & Hz);
        [cbn in Hlen; lia|done|].
      split; [done|]. by exists (String x (String y pre)), z.
  - destruct (expand_format rest) as [out|e'] eqn:E; [done|].
    cbn. intros [= <-].
    destruct (IH rest e') as (-> & pre & z & -> & Hz);
      [cbn in Hlen; lia|done|].
    split; [done|]. by exists (String x pre), z.
Qed.

(** X5. [expand_format] returns a format without digits as it is, and the
    only way it fails is [IndexError], on a format whose last character is a
    digit (the repeat count has nothing to repeat). *)
Theorem expand_format_digits (fs : string) :
  ((forall x, x ∈ list_ascii_of_string fs -> digit_of x = None) ->
   expand_format fs = Ok fs) /\
  (forall e, expand_format fs = Raise e ->
     e = IndexError /\
     exists pre x, fs = String.append pre (String x "") /\
                   is_Some (digit_of x)).
Proof.
  split.
  - induction fs as [|x rest IH]; [done|]. intros Hfree. cbn.
    rewrite (Hfree x) by (cbn; apply elem_of_cons; by left).
    rewrite IH; [done|]. intros y Hy. apply Hfree. cbn.
    apply elem_of_cons. by right.
  - intros e. by apply (expand_format_raises_aux (String.length fs)).
Qed.

Lemma expand_format_digits_witness :
  expand_format "pls" = Ok "pls" /\
  (IndexError = IndexError /\
   exists pre x, "s2" = String.append pre (String x "") /\
                 is_Some (digit_of x)).
Proof.
  split.
  - apply (proj1 (expand_format_digits "pls")).
    intros x Hx. cbn in Hx.
    repeat (apply elem_of_cons in Hx as [->|Hx]; [reflexivity|]).
    by apply elem_of_nil in Hx.
  - apply (proj2 (expand_format_digits "s2")). reflexivity.
Defined.

(** ** Argument schemas *)








Lemma build_argdict_lookup_aux args : forall names convs acc d,
  build_argdict names convs args acc = Ok d ->
  (forall n, n ∉ take (length args) names -> d !! n = acc !! n) /\
  (forall i n c a,
     names !! i = Some n -> convs !! i = Some c -> args !! i = Some a ->
     (forall j, (i < j)%nat -> (j < length args)%nat -> names !! j <> Some n) ->
     exists v, convert c a = Ok v /\ d !! n = Some v).
Proof.
  induction args as [|a0 args IH]; intros names convs acc d.
  - intros Hrun. assert (d = acc) as -> by (destruct names; cbn in Hrun; congruence).
    split; [done|]. intros i n c a _ _ Ha. by rewrite lookup_nil in Ha.
  - destruct names as [|n0 names]; [done|].
    destruct convs as [|c0 convs]; [done|]. cbn.
    destruct (convert c0 a0) as [v0|e] eqn:E; [|done]. cbn.
    intros Hrun. destruct (IH _ _ _ _ Hrun) as [Hout Hin]. split.
    + intros n Hn. rewrite Hout.
      * apply lookup_insert_ne. intros ->. apply Hn, elem_of_cons. by left.
      * intros ?. apply Hn, elem_of_cons. by right.
    + intros [|i] n c a Hn Hc Ha Hlast.
      * cbn in Hn, Hc, Ha. simplify_eq. exists v0. split; [done|].
        rewrite Hout; [by rewrite lookup_insert_eq|].
        intros Hel. apply list_elem_of_lookup in Hel as [j Hj].
        apply lookup_take_Some in Hj as [Hj Hlt].
        apply (Hlast (S j)); [lia|cbn; lia|done].
      * cbn in Hn, Hc, Ha. apply (Hin i n c a); [done..|].
        intros j Hij Hj. apply (Hlast (S j)); [lia|cbn; lia].
Qed.

(** X7. In the argument dictionary of a call every name holds the converted
    argument of its last position: the argument at position [i] is found
    under its name whenever no later position carries the same name, and a
    name with no position is absent. *)
Theorem build_argdict_last_wins (argnames : list value)
    (converters : list converter) (args : list element) (d : argdict) :
  build_argdict argnames converters args ∅ = Ok d ->
  (forall n, n ∉ take (length args) argnames -> d !! n = None) /\
  (forall i n c a,
     argnames !! i = Some n -> converters !! i = Some c ->
     args !! i = Some a ->
     (forall j, (i < j)%nat -> (j < length args)%nat ->
                argnames !! j <> Some n) ->
     exists v, convert c a = Ok v /\ d !! n = Some v).
Proof.
  intros Hrun. destruct (build_argdict_lookup_aux _ _ _ _ _ Hrun) as [Hout Hin].
  split; [|done]. intros n Hn. by rewrite Hout.
Qed.

Lemma build_argdict_last_wins_witness :
  (forall n, n ∉ take (length [Scalar (VInt 1); Scalar (VInt (-1))])
                      [VStr "Handle"; VStr "Handle"] ->
             (<[VStr "Handle" := Scalar (VInt 0xffffffff)]> ∅ : argdict) !! n
             = None) /\
  (forall i n c a,
     [VStr "Handle"; VStr "Handle"] !! i = Some n ->
     [DefaultConverter; DefaultConverter] !! i = Some c ->
     [Scalar (VInt 1); Scalar (VInt (-1))] !! i = Some a ->
     (forall j, (i < j)%nat ->
                (j < length [Scalar (VInt 1); Scalar (VInt (-1))])%nat ->
                [VStr "Handle"; VStr "Handle"] !! j <> Some n) ->
     exists v, convert c a = Ok v /\
               (<[VStr "Handle" := Scalar (VInt 0xffffffff)]> ∅ : argdict) !! n
               = Some v).
Proof.
  apply (build_argdict_last_wins [VStr "Handle"; VStr "Handle"]
           [DefaultConverter; DefaultConverter]
           [Scalar (VInt 1); Scalar (VInt (-1))]).
  cbn. by rewrite insert_insert_eq.
Defined.

(** ** Regular calls *)

Lemma pop_spec k dflt (d : argdict) :
  pop k dflt d = (default dflt (d !! VStr k), delete (VStr k) d).
Proof.
  unfold pop. destruct (d !! VStr k) eqn:E; [done|].
  by rewrite delete_id.
Qed.

Lemma dispatch_plain env context apiname d :
  apiname ∉ branch_names ->
  dispatch env context apiname d = ret (Continue d).
Proof.
  intros Hplain. unfold dispatch.
  assert (Hne : forall n, n ∈ branch_names -> apiname <> n)
    by (intros n Hn ->; done).
  repeat match goal with
  | |- context [decide (apiname = ?n)] =>
      destruct (decide (apiname = n)) as [Heq|_];
      [exfalso; apply (Hne n);
       [apply list_elem_of_In; cbn; tauto|exact Heq]|]
  end.
  case_bool_decide as Hin; [|done].
  exfalso. apply Hplain. apply list_elem_of_In.
  apply list_elem_of_In in Hin. cbn in Hin |- *. tauto.
Qed.

(** The handler once the history entry of a call was made and, after the
    chain, stripped of [is_success] and [retval]. *)
Lemma with_events_same h : with_events (events h ++ []) h = h.
Proof. rewrite app_nil_r. by destruct h. Qed.

(** The parser after a plain call whose dictionary is [d]: the call is
    logged when the [aux] field has items, and when it has none the
    exception leaves the call unlogged. *)
Lemma regular_call_plain env dec key tid time p sch d :
  infomap p !! key = Some sch ->
  schema_name sch ∉ branch_names ->
  py_len (default (BArray []) (doc_args dec))
  = Ok (length (schema_argnames sch)) ->
  build_call_argdict (schema_argnames sch) (schema_converters sch)
                     (default (BArray []) (doc_args dec)) = Ok d ->
  let h := handler_of p in
  let d' := delete (VStr "retval") (delete (VStr "is_success") d) in
  let context := [BVal key;
                  of_element
                    (default (Scalar (VInt 1)) (d !! VStr "is_success"));
                  of_element (default (Scalar (VInt 0)) (d !! VStr "retval"));
                  BVal tid; BVal time] in
  let h1 :=
    with_events
      (events h
       ++ (if has_set_apis h then [SetApis [(schema_name sch, d)]] else []))
      (if has_set_apis h
       then with_apis (apis h ++ [(schema_name sch, d')]) h else h) in
  regular_call env dec (BVal key) tid time p
  = match py_items (default (BDoc []) (doc_aux dec)) with
    | Ok aux =>
        (Ok true,
         {| handler_of :=
              with_events
                (events h1
                 ++ [LogCall context (schema_name sch) (schema_category sch)
                             (map_to_list d' ++ aux)]) h1;
            infomap := infomap p |})
    | Raise e => (Raise e, {| handler_of := h1; infomap := infomap p |})
    end.
Proof.
  intros Hsch Hplain Hlen Hbuild h d' context h1.
  unfold regular_call. unfold bind at 1. cbn [get].
  unfold bind at 1. unfold lift at 1. cbn [hashable]. rewrite Hsch.
  unfold bind at 1. unfold lift at 1. rewrite Hlen.
  rewrite bool_decide_true by done. cbn [negb].
  unfold bind at 1. unfold lift at 1. rewrite Hbuild.
  rewrite (dispatch_plain env _ _ _ Hplain).
  unfold on_handler, bind, get, set_apis, emit, modify, ret, update_alias,
    lift.
  cbn -[pop map_to_list py_items]. fold h.
  destruct (has_set_apis h) eqn:Hset; cbn -[pop map_to_list py_items];
    fold h; rewrite !pop_spec; rewrite lookup_delete_ne by done;
    cbn -[map_to_list py_items]; fold h; rewrite ?Hset;
    fold d'; subst h1; rewrite ?Hset.
  - assert (Hh1 :
      with_apis
        (take (length (apis h ++ [(schema_name sch, d)]) - 1)
              (apis h ++ [(schema_name sch, d)]) ++ [(schema_name sch, d')])
        (with_apis (apis h ++ [(schema_name sch, d)])
           (with_events (events h ++ [SetApis [(schema_name sch, d)]]) h))
      = with_events (events h ++ [SetApis [(schema_name sch, d)]])
          (with_apis (apis h ++ [(schema_name sch, d')]) h)).
    { unfold with_events, with_apis. cbn. rewrite length_app. cbn.
      replace (length (apis h) + 1 - 1)%nat with (length (apis h)) by lia.
      by rewrite take_app_length. }
    rewrite Hh1.
    by destruct (py_items (default (BDoc []) (doc_aux dec))).
  - rewrite with_events_same.
    destruct (py_items (default (BDoc []) (doc_aux dec))); [|done].
    by rewrite app_nil_r.
Qed.

(** X8. A regular call whose name no branch of the chain tests, which passes
    the index and arity checks and whose arguments convert, makes its
    history entry (when the handler keeps a history) and moves [is_success]
    and [retval] out of the dictionary, and so, the dictionary being the
    object the history holds, out of the history entry; no trigger is
    evaluated.  When the [aux] field is absent or a document the call is
    then logged once, with the two values in the context (1 and 0 when
    absent) and not among the logged arguments; with any other [aux] the
    call raises [AttributeError] and is not logged. *)
Theorem regular_call_moves_status_to_context (env : environment)
    (dec : document) (key tid time : value) (p : parser)
    (sch : schema) (d : argdict) :
  infomap p !! key = Some sch ->
  schema_name sch ∉ branch_names ->
  py_len (default (BArray []) (doc_args dec))
  = Ok (length (schema_argnames sch)) ->
  build_call_argdict (schema_argnames sch) (schema_converters sch)
                     (default (BArray []) (doc_args dec)) = Ok d ->
  (forall aux,
     py_items (default (BDoc []) (doc_aux dec)) = Ok aux ->
     exists p' arguments,
       regular_call env dec (BVal key) tid time p = (Ok true, p') /\
       events (handler_of p')
       = events (handler_of p)
         ++ (if has_set_apis (handler_of p)
             then [SetApis [(schema_name sch, d)]] else [])
         ++ [LogCall [BVal key;
                      of_element (default (Scalar (VInt 1))
                                          (d !! VStr "is_success"));
                      of_element (default (Scalar (VInt 0))
                                          (d !! VStr "retval"));
                      BVal tid; BVal time]
                     (schema_name sch) (schema_category sch)
                     (arguments ++ aux)] /\
       (forall k v, (k, v) ∈ arguments <->
                    d !! k = Some v /\ k <> VStr "is_success"
                    /\ k <> VStr "retval") /\
       apis (handler_of p')
       = (if has_set_apis (handler_of p)
          then apis (handler_of p)
               ++ [(schema_name sch,
                    delete (VStr "retval") (delete (VStr "is_success") d))]
          else apis (handler_of p)) /\
       evaluated (handler_of p') = evaluated (handler_of p) /\
       infomap p' = infomap p) /\
  (forall e,
     py_items (default (BDoc []) (doc_aux dec)) = Raise e ->
     e = AttributeError /\
     exists p',
       regular_call env dec (BVal key) tid time p = (Raise AttributeError, p')
       /\
       events (handler_of p')
       = events (handler_of p)
         ++ (if has_set_apis (handler_of p)
             then [SetApis [(schema_name sch, d)]] else []) /\
       apis (handler_of p')
       = (if has_set_apis (handler_of p)
          then apis (handler_of p)
               ++ [(schema_name sch,
                    delete (VStr "retval") (delete (VStr "is_success") d))]
          else apis (handler_of p)) /\
       evaluated (handler_of p') = evaluated (handler_of p) /\
       infomap p' = infomap p).
Proof.
  intros Hsch Hplain Hlen Hbuild.
  rewrite (regular_call_plain env dec key tid time p sch d) by done.
  split.
  - intros aux ->. eexists _, _. split; [done|]. cbn.
    split; [by rewrite <- app_assoc|]. split.
    + intros k v. rewrite elem_of_map_to_list.
      rewrite !lookup_delete_Some.
      split; intros (? & ? & ?); repeat split; congruence.
    + by destruct (has_set_apis (handler_of p)).
  - intros e He. assert (e = AttributeError) as ->.
    { destruct (default (BDoc []) (doc_aux dec)); cbn in He; congruence. }
    split; [done|]. rewrite He. eexists. split; [done|]. cbn.
    split; [done|]. by destruct (has_set_apis (handler_of p)).
Qed.

Lemma regular_call_moves_status_to_context_witness :
  (exists p' arguments,
     regular_call Examples.quiet_env Examples.call_7 (BVal (VInt 7))
                  (VInt 1) (VInt 2) Examples.taught_parser = (Ok true, p') /\
     events (handler_of p')
     = events (handler_of Examples.taught_parser)
       ++ (if has_set_apis (handler_of Examples.taught_parser)
           then [SetApis [(schema_name Examples.close_schema,
                           Examples.close_args)]] else [])
       ++ [LogCall [BVal (VInt 7);
                    of_element
                      (default (Scalar (VInt 1))
                               (Examples.close_args !! VStr "is_success"));
                    of_element
                      (default (Scalar (VInt 0))
                               (Examples.close_args !! VStr "retval"));
                    BVal (VInt 1); BVal (VInt 2)]
                   (schema_name Examples.close_schema)
                   (schema_category Examples.close_schema)
                   (arguments ++ [])] /\
     (forall k v, (k, v) ∈ arguments <->
                  Examples.close_args !! k = Some v /\ k <> VStr "is_success"
                  /\ k <> VStr "retval") /\
     apis (handler_of p')
     = (if has_set_apis (handler_of Examples.taught_parser)
        then apis (handler_of Examples.taught_parser)
             ++ [(schema_name Examples.close_schema,
                  delete (VStr "retval")
                         (delete (VStr "is_success") Examples.close_args))]
        else apis (handler_of Examples.taught_parser)) /\
     evaluated (handler_of p')
     = evaluated (handler_of Examples.taught_parser) /\
     infomap p' = infomap Examples.taught_parser) /\
  (AttributeError = AttributeError /\
   exists p',
     regular_call Examples.quiet_env Examples.call_7_array_aux
                  (BVal (VInt 7)) (VInt 1) (VInt 2) Examples.taught_parser
     = (Raise AttributeError, p') /\
     events (handler_of p')
     = events (handler_of Examples.taught_parser)
       ++ (if has_set_apis (handler_of Examples.taught_parser)
           then [SetApis [(schema_name Examples.close_schema,
                           Examples.close_args)]] else []) /\
     apis (handler_of p')
     = (if has_set_apis (handler_of Examples.taught_parser)
        then apis (handler_of Examples.taught_parser)
             ++ [(schema_name Examples.close_schema,
                  delete (VStr "retval")
                         (delete (VStr "is_success") Examples.close_args))]
        else apis (handler_of Examples.taught_parser)) /\
     evaluated (handler_of p')
     = evaluated (handler_of Examples.taught_parser) /\
     infomap p' = infomap Examples.taught_parser).
Proof.
  assert (Hplain : schema_name Examples.close_schema ∉ branch_names).
  { intros Hin. apply list_elem_of_In in Hin. cbn in Hin.
    repeat (destruct Hin as [Hin|Hin]; [discriminate Hin|]). exact Hin. }
  split.
  - apply (proj1 (regular_call_moves_status_to_context Examples.quiet_env
                    Examples.call_7 (VInt 7) (VInt 1) (VInt 2)
                    Examples.taught_parser Examples.close_schema
                    Examples.close_args eq_refl Hplain eq_refl eq_refl) []).
    reflexivity.
  - apply (proj2 (regular_call_moves_status_to_context Examples.quiet_env
                    Examples.call_7_array_aux (VInt 7) (VInt 1) (VInt 2)
                    Examples.taught_parser Examples.close_schema
                    Examples.close_args eq_refl Hplain eq_refl eq_refl)
                 AttributeError).
    reflexivity.
Defined.

(** ** The two-step chains and the memory write *)

Lemma first_named_none name l :
  first_named name l = None <-> forall w, (name, w) ∉ l.
Proof.
  induction l as [|[n a] l IH]; cbn.
  - split; [|done]. intros _ w Hw. by apply elem_of_nil in Hw.
  - destruct (decide (n = name)) as [->|Hne].
    + split; [done|]. intros Hno. exfalso. apply (Hno a).
      apply elem_of_cons. by left.
    + rewrite IH. split.
      * intros Hno w Hw. apply elem_of_cons in Hw as [[= ? ?]|Hw]; [done|].
        by apply (Hno w).
      * intros Hno w Hw. apply (Hno w). apply elem_of_cons. by right.
Qed.

(** X9. [CreateRemoteThread] evaluates the two-step trigger exactly when
    the handler has a [server] and the history holds some
    [WriteProcessMemory] entry, whatever its handle or process; the history
    is left as it is (neither entry is consumed), and otherwise nothing
    happens at all. *)
Theorem create_remote_thread_needs_any_write (env : environment)
    (d : argdict) (h : handler) :
  (server h = true -> (exists w, ("WriteProcessMemory", w) ∈ apis h) ->
   exists h' acts,
     on_CreateRemoteThread env d h = (Ok tt, h') /\
     evaluated h'
     = evaluated h ++ [("WriteProcessMemory -> CreateRemoteThread", d)] /\
     apis h' = apis h /\ events h' = events h ++ acts) /\
  (server h = false \/ (forall w, ("WriteProcessMemory", w) ∉ apis h) ->
   on_CreateRemoteThread env d h = (Ok tt, h)).
Proof.
  unfold on_CreateRemoteThread. unfold bind at 1 3. cbn [get]. split.
  - intros -> [w Hw]. unfold bind at 1. cbn [get_apis].
    destruct (first_named "WriteProcessMemory" (apis h)) as [w'|] eqn:E.
    + destruct (execute_trigger_parameters_returns env
                  "WriteProcessMemory -> CreateRemoteThread" d h)
        as (h' & acts & Hrun & Hap & Hev & Hacts).
      by exists h', acts.
    + exfalso. by apply (proj1 (first_named_none _ _) E w).
  - intros [->|Hno]; [done|]. destruct (server h); [|done].
    unfold bind at 1. cbn [get_apis].
    by rewrite (proj2 (first_named_none _ _) Hno).
Qed.

Lemma create_remote_thread_needs_any_write_witness :
  exists h' acts,
    on_CreateRemoteThread Examples.quiet_env (Examples.ldr 9)
      (Examples.with_history [Examples.wpm 1]) = (Ok tt, h') /\
    evaluated h'
    = evaluated (Examples.with_history [Examples.wpm 1])
      ++ [("WriteProcessMemory -> CreateRemoteThread", Examples.ldr 9)] /\
    apis h' = apis (Examples.with_history [Examples.wpm 1]) /\
    events h' = events (Examples.with_history [Examples.wpm 1]) ++ acts.
Proof.
  apply (proj1 (create_remote_thread_needs_any_write Examples.quiet_env
                  (Examples.ldr 9) (Examples.with_history [Examples.wpm 1]))).
  - reflexivity.
  - exists (snd (Examples.wpm 1)). apply elem_of_cons. by left.
Defined.

(** X10. [NtResumeThread] looks at the first [NtSetContextThread] entry of
    the history only: with a [server], the two-step trigger is evaluated
    when that entry's [ThreadHandle] is the call's and not otherwise,
    whatever later entries hold; the history is left as it is. *)
Theorem resume_thread_first_context_decides (env : environment)
    (d set_thread_args : argdict) (a b : element) (h : handler) :
  server h = true ->
  first_named "NtSetContextThread" (apis h) = Some set_thread_args ->
  set_thread_args !! VStr "ThreadHandle" = Some a ->
  d !! VStr "ThreadHandle" = Some b ->
  exists h' acts,
    on_NtResumeThread env d h = (Ok tt, h') /\
    evaluated h'
    = evaluated h
      ++ (if decide (a = b)
          then [("NtSetContextThread -> NtResumeThread", d)] else []) /\
    apis h' = apis h /\ events h' = events h ++ acts.
Proof.
  intros Hs Hfirst Ha Hb. unfold on_NtResumeThread.
  unfold bind at 1. cbn [get]. rewrite Hs.
  unfold bind at 1. cbn [get_apis]. rewrite Hfirst.
  unfold bind at 1. unfold lift, arg. rewrite Ha.
  unfold bind at 1. rewrite Hb.
  destruct (decide (a = b)) as [->|Hne].
  - destruct (execute_trigger_parameters_returns env
                "NtSetContextThread -> NtResumeThread" d h)
      as (h' & acts & Hrun & Hap & Hev & Hacts).
    by exists h', acts.
  - exists h, []. by rewrite !app_nil_r.
Qed.

Lemma resume_thread_first_context_decides_witness :
  exists h' acts,
    on_NtResumeThread Examples.quiet_env (Examples.resume 6)
      (Examples.with_history [Examples.sct 5; Examples.sct 6]) = (Ok tt, h') /\
    evaluated h'
    = evaluated (Examples.with_history [Examples.sct 5; Examples.sct 6])
      ++ (if decide (Scalar (VInt 5) = Scalar (VInt 6))
          then [("NtSetContextThread -> NtResumeThread", Examples.resume 6)]
          else []) /\
    apis h' = apis (Examples.with_history [Examples.sct 5; Examples.sct 6]) /\
    events h'
    = events (Examples.with_history [Examples.sct 5; Examples.sct 6]) ++ acts.
Proof.
  apply (resume_thread_first_context_decides Examples.quiet_env
           (Examples.resume 6) (snd (Examples.sct 5))).
  - reflexivity.
  - reflexivity.
  - reflexivity.
  - reflexivity.
Defined.




(** ** One trigger evaluation per call *)

Lemma keeps_evaluated_ret {A} (a : A) : keeps_evaluated (ret a).
Proof. done. Qed.

Lemma keeps_evaluated_raise {A} e : keeps_evaluated (@raise handler A e).
Proof. done. Qed.

Lemma keeps_evaluated_lift {A} (r : res A) : keeps_evaluated (lift r).
Proof. done. Qed.

Lemma keeps_evaluated_emit e : keeps_evaluated (emit e).
Proof. done. Qed.

Lemma keeps_evaluated_update_alias apiname d :
  keeps_evaluated (update_alias apiname d).
Proof. intros h. cbn. by destruct (has_set_apis h). Qed.

Lemma keeps_evaluated_remove_from_apis x : keeps_evaluated (remove_from_apis x).
Proof.
  intros h. unfold remove_from_apis, emit, bind, modify. cbn.
  by destruct (remove_first x (apis h)).
Qed.

Lemma keeps_evaluated_bind {A B} (m : M handler A) (k : A -> M handler B) :
  keeps_evaluated m -> (forall a, keeps_evaluated (k a)) ->
  keeps_evaluated (bind m k).
Proof.
  intros Hm Hk h. unfold bind. specialize (Hm h).
  destruct (m h) as [[a|e] h1]; cbn in Hm; [|done].
  by rewrite Hk.
Qed.

Lemma evaluates_once_keeps {A} rules (m : M handler A) :
  keeps_evaluated m -> evaluates_once rules m.
Proof. intros Hm h. left. apply Hm. Qed.

Lemma evaluates_once_then {A B} rules (m : M handler A)
    (k : A -> M handler B) :
  evaluates_once rules m -> (forall a, keeps_evaluated (k a)) ->
  evaluates_once rules (bind m k).
Proof.
  intros Hm Hk h. unfold bind. pose proof (Hm h) as Hh.
  destruct (m h) as [[a|e] h1]; [|exact Hh].
  destruct Hh as [Hh|(rule & d & Hin & Hh)].
  - left. rewrite Hk. exact Hh.
  - right. exists rule, d. split; [done|]. rewrite Hk. exact Hh.
Qed.

Lemma evaluates_once_after {A B} rules (m : M handler A)
    (k : A -> M handler B) :
  keeps_evaluated m -> (forall a, evaluates_once rules (k a)) ->
  evaluates_once rules (bind m k).
Proof.
  intros Hm Hk h. unfold bind. pose proof (Hm h) as Hh.
  destruct (m h) as [[a|e] h1]; [|left; exact Hh].
  change (evaluated h1 = evaluated h) in Hh.
  destruct (Hk a h1) as [Hk1|(rule & d & Hin & Hk1)].
  - left. by rewrite Hk1.
  - right. exists rule, d. split; [done|]. by rewrite Hk1, Hh.
Qed.

Lemma evaluates_once_get {B} rules (k : handler -> M handler B) :
  (forall a, evaluates_once rules (k a)) -> evaluates_once rules (bind get k).
Proof. intros Hk h. apply Hk. Qed.

Lemma evaluates_once_execute env rules rule d :
  rule ∈ rules -> evaluates_once rules (execute_trigger_parameters env rule d).
Proof.
  intros Hin h. right. exists rule, d. split; [done|].
  destruct (execute_trigger_parameters_returns env rule d h)
    as (h' & acts & -> & _ & Hev & _). done.
Qed.

Lemma evaluates_once_lift {A B} rules (r : res A) (k : A -> M handler B) :
  (forall a, evaluates_once rules (k a)) ->
  evaluates_once rules (bind (lift r) k).
Proof.
  intros Hk. apply evaluates_once_after; [apply keeps_evaluated_lift|done].
Qed.

Lemma evaluates_once_continue rules (m : M handler unit) (d : argdict) :
  evaluates_once rules m ->
  evaluates_once rules (bind m (fun _ => ret (Continue d))).
Proof.
  intros Hm. apply evaluates_once_then; [done|].
  intros; apply keeps_evaluated_ret.
Qed.

(** X12. The chain of a regular call evaluates at most one trigger: the
    rule of the call's own name or one of the three chain rules; whatever
    the branch and whether it returns or raises, at most one evaluation is
    added and none is removed. *)
Theorem dispatch_evaluates_at_most_one_rule (env : environment)
    (context : list bson) (apiname : string) (d : argdict) (h : handler) :
  evaluated (snd (dispatch env context apiname d h)) = evaluated h \/
  exists rule d',
    rule ∈ [apiname; "NtSetContextThread -> NtResumeThread";
            "WriteProcessMemory -> CreateRemoteThread";
            "WriteProcessMemory -> CreateRemoteThread -> LoadLibrary"] /\
    evaluated (snd (dispatch env context apiname d h))
    = evaluated h ++ [(rule, d')].
Proof.
  set (rules := [apiname; "NtSetContextThread -> NtResumeThread";
                 "WriteProcessMemory -> CreateRemoteThread";
                 "WriteProcessMemory -> CreateRemoteThread -> LoadLibrary"]).
  assert (Hown : forall d0, evaluates_once rules
                   (execute_trigger_parameters env apiname d0)).
  { intros d0. apply evaluates_once_execute, elem_of_cons. by left. }
  assert (Hquiet : forall A (a : A), evaluates_once rules (ret a)).
  { intros. apply evaluates_once_keeps, keeps_evaluated_ret. }
  revert h. change (evaluates_once rules (dispatch env context apiname d)).
  unfold dispatch.
  destruct (decide (apiname = "__process__")).
  { unfold on___process__.
    do 4 (apply evaluates_once_lift; intros ?).
    destruct (negb _);
      [apply evaluates_once_keeps, keeps_evaluated_raise|].
    do 4 (apply evaluates_once_lift; intros ?).
    apply evaluates_once_after; [apply keeps_evaluated_emit|]. intros _.
    apply evaluates_once_then; [apply Hown|].
    intros; apply keeps_evaluated_ret. }
  destruct (decide (apiname = "__thread__")).
  { apply evaluates_once_lift; intros ?.
    apply evaluates_once_keeps, keeps_evaluated_bind;
      [apply keeps_evaluated_emit|intros; apply keeps_evaluated_ret]. }
  destruct (decide (apiname = "VirtualProtectEx")).
  { apply evaluates_once_get. intros h0. destruct (server h0); [|apply Hquiet].
    do 2 (apply evaluates_once_lift; intros ?).
    apply evaluates_once_continue.
    destruct (decide _); [apply Hown|apply Hquiet]. }
  case_bool_decide.
  { apply evaluates_once_continue, Hown. }
  destruct (decide (apiname = "NtCreateFile")).
  { apply evaluates_once_continue. unfold on_NtCreateFile.
    do 2 (apply evaluates_once_lift; intros ?).
    apply evaluates_once_get. intros h0.
    destruct (_ && _); [apply Hown|apply Hquiet]. }
  destruct (decide (apiname = "NtCreateMutant")).
  { apply evaluates_once_continue, Hown. }
  destruct (decide (apiname = "WriteProcessMemory")).
  { apply evaluates_once_then; [|intros; apply keeps_evaluated_ret].
    unfold on_WriteProcessMemory.
    do 2 (apply evaluates_once_lift; intros ?).
    apply evaluates_once_after; [apply keeps_evaluated_update_alias|].
    intros _. do 2 (apply evaluates_once_lift; intros ?).
    apply evaluates_once_then; [|intros; apply keeps_evaluated_ret].
    destruct (decide _); [apply Hown|apply Hquiet]. }
  destruct (decide (apiname = "NtResumeThread")).
  { apply evaluates_once_continue. unfold on_NtResumeThread.
    apply evaluates_once_get. intros h0. destruct (server h0); [|apply Hquiet].
    apply evaluates_once_after; [done|]. intros l.
    destruct (first_named _ l); [|apply Hquiet].
    do 2 (apply evaluates_once_lift; intros ?).
    destruct (decide _); [|apply Hquiet].
    apply evaluates_once_execute. subst rules.
    apply elem_of_cons. right. apply elem_of_cons. by left. }
  destruct (decide (apiname = "CreateRemoteThread")).
  { apply evaluates_once_continue. unfold on_CreateRemoteThread.
    apply evaluates_once_get. intros h0. destruct (server h0); [|apply Hquiet].
    apply evaluates_once_after; [done|]. intros l.
    destruct (first_named _ l); [|apply Hquiet].
    apply evaluates_once_execute. subst rules.
    do 2 (apply elem_of_cons; right). apply elem_of_cons. by left. }
  destruct (decide (apiname = "LdrLoadDll")); [|apply Hquiet].
  apply evaluates_once_continue. unfold on_LdrLoadDll.
  apply evaluates_once_get. intros h0. destruct (server h0); [|apply Hquiet].
  apply evaluates_once_after; [done|]. intros l.
  destruct (first_named _ l); [|apply Hquiet].
  apply evaluates_once_lift. intros [[name args]|]; [|apply Hquiet].
  apply evaluates_once_then.
  - apply evaluates_once_execute. subst rules.
    do 3 (apply elem_of_cons; right). apply elem_of_cons. by left.
  - intros _. apply keeps_evaluated_bind;
      [apply keeps_evaluated_remove_from_apis|].
    intros _. apply keeps_evaluated_remove_from_apis.
Qed.

(** ** Announcements *)

Lemma actions_no_log_call apiname d o h :
  Forall (fun e => is_log_call e = false) (actions apiname d o h).
Proof.
  unfold actions.
  destruct (TriggersConf.dump_memory o), (_ || _), (_ || _); cbn;
    repeat constructor.
Qed.

Lemma execute_trigger_parameters_no_log_call env apiname d h :
  exists h' acts,
    execute_trigger_parameters env apiname d h = (Ok tt, h') /\
    events h' = events h ++ acts /\
    Forall (fun e => is_log_call e = false) acts.
Proof.
  assert (Hinert :
    execute_trigger_parameters env apiname d h
    = (Ok tt, with_evaluated (evaluated h ++ [(apiname, d)]) h) ->
    exists h' acts,
      execute_trigger_parameters env apiname d h = (Ok tt, h') /\
      events h' = events h ++ acts /\
      Forall (fun e => is_log_call e = false) acts).
  { intros ->. eexists. exists []. by rewrite app_nil_r. }
  destruct (triggers env !! apiname) as [o|] eqn:Ht.
  2: { apply Hinert, execute_trigger_parameters_inert. by left. }
  destruct (TriggersConf.enabled o) eqn:He.
  2: { apply Hinert, execute_trigger_parameters_inert. right. left.
       by exists o. }
  destruct (Z_lt_le_dec 0 (get_times apiname h)) as [Hn|Hn].
  2: { apply Hinert, execute_trigger_parameters_inert. tauto. }
  destruct (triggered_dumps env) eqn:Hd.
  2: { apply Hinert, execute_trigger_parameters_inert. tauto. }
  destruct (server h) eqn:Hs.
  2: { apply Hinert, execute_trigger_parameters_inert. tauto. }
  destruct (execute_trigger_parameters_fires env apiname d h o)
    as (h' & Hrun & _ & Hev & _); [done..|].
  exists h', (ReduceTimes apiname :: actions apiname d o h).
  split; [done|]. split; [done|].
  constructor; [done|apply actions_no_log_call].
Qed.

Lemma announced_lift {A} (r : res A) (k : A -> M handler flow) h :
  (forall a, announced h (k a h)) -> announced h (bind (lift r) k h).
Proof.
  intros Hk. unfold bind, lift. destruct r as [a|e]; [apply Hk|].
  split; [|done]. exists []. by rewrite app_nil_r.
Qed.

Lemma announced_emit e (k : unit -> M handler flow) h :
  is_log_call e = false ->
  announced (with_events (events h ++ [e]) h)
            (k tt (with_events (events h ++ [e]) h)) ->
  announced h (bind (emit e) k h).
Proof.
  intros He [(acts & Hev & Hacts) Hf]. split; [|exact Hf].
  exists (e :: acts). unfold bind, emit, modify.
  cbn [snd] in *. rewrite Hev. cbn [events with_events].
  rewrite <- app_assoc. split; [done|]. by constructor.
Qed.

Lemma announced_dispatch env context apiname d h :
  apiname = "__process__" \/ apiname = "__thread__" ->
  announced h (dispatch env context apiname d h).
Proof.
  intros [->| ->]; unfold dispatch.
  - rewrite decide_True by done. unfold on___process__.
    do 4 (apply announced_lift; intros ?).
    destruct (negb _).
    { split; [|done]. exists []. by rewrite app_nil_r. }
    do 4 (apply announced_lift; intros ?).
    apply announced_emit; [done|].
    set (h1 := with_events _ h).
    destruct (execute_trigger_parameters_no_log_call env "__process__" d h1)
      as (h' & acts & Hrun & Hev & Hacts).
    unfold bind. rewrite Hrun. unfold ret. split.
    + by exists acts.
    + by intros f [= <-].
  - rewrite decide_False by done. rewrite decide_True by done.
    apply announced_lift; intros pid.
    apply announced_emit; [done|]. unfold ret. split.
    + exists []. by rewrite app_nil_r.
    + by intros f [= <-].
Qed.

(** X14. The announcements [__process__] and [__thread__] are never logged
    as calls: for a message whose index was registered under one of these
    names, whatever the outcome (dropped for its arity, a missing argument,
    returned), the handler sees no [log_call]. *)
Theorem announcements_are_no_calls (env : environment) (dec : document)
    (key tid time : value) (p : parser) (sch : schema) :
  infomap p !! key = Some sch ->
  schema_name sch = "__process__" \/ schema_name sch = "__thread__" ->
  exists acts,
    events (handler_of (snd (regular_call env dec (BVal key) tid time p)))
    = events (handler_of p) ++ acts /\
    Forall (fun e => is_log_call e = false) acts /\
    (forall b, fst (regular_call env dec (BVal key) tid time p) = Ok b ->
               b = true).
Proof.
  intros Hsch Hname.
  destruct (regular_call env dec (BVal key) tid time p) as [r p'] eqn:Hrun.
  cbn [fst snd]. revert Hrun.
  unfold regular_call. unfold bind at 1. cbn [get].
  unfold bind at 1. unfold lift at 1. cbn [hashable].
  rewrite Hsch.
  unfold bind at 1. unfold lift at 1.
  destruct (py_len _) as [n|e].
  2: { intros [= <- <-]. exists []. rewrite app_nil_r. done. }
  destruct (negb _).
  { intros [= <- <-]. exists []. rewrite app_nil_r. split; [done|].
    split; [done|]. by intros b [= <-]. }
  unfold bind at 1. unfold lift at 1.
  destruct (build_call_argdict _ _ _) as [d|e].
  2: { intros [= <- <-]. exists []. rewrite app_nil_r. done. }
  unfold bind at 1.
  set (m0 := on_handler _).
  assert (Hm0 : exists acts0 h0,
            m0 p = (Ok tt, {| handler_of := h0; infomap := infomap p |}) /\
            events h0 = events (handler_of p) ++ acts0 /\
            Forall (fun e => is_log_call e = false) acts0).
  { subst m0. unfold on_handler, bind, get, set_apis, emit, modify, ret.
    cbn. destruct (has_set_apis (handler_of p)); cbn.
    - eexists [_], _. split; [done|]. split; [done|]. by repeat constructor.
    - exists [], (handler_of p). by rewrite app_nil_r. }
  destruct Hm0 as (acts0 & h0 & -> & Hev0 & Hacts0).
  unfold bind at 1. unfold on_handler at 1. cbn [handler_of].
  destruct (announced_dispatch env
              [BVal key; BVal (VInt 1); BVal (VInt 0); BVal tid; BVal time]
              (schema_name sch) d h0 Hname)
    as [(acts & Hev & Hacts) Hf].
  destruct (dispatch _ _ _ _ h0) as [[f|e] h1]; cbn [fst snd] in *.
  - rewrite (Hf f eq_refl). unfold ret. intros [= <- <-]. cbn.
    exists (acts0 ++ acts). rewrite Hev, Hev0, <- app_assoc.
    split; [done|]. split; [by apply Forall_app|]. by intros b [= <-].
  - intros [= <- <-]. cbn. exists (acts0 ++ acts).
    rewrite Hev, Hev0, <- app_assoc.
    split; [done|]. split; [by apply Forall_app|]. done.
Qed.

Lemma announcements_are_no_calls_witness :
  exists acts,
    events (handler_of
              (snd (regular_call Examples.quiet_env Examples.call_7
                      (BVal (VInt 7)) (VInt 1) (VInt 2)
                      Examples.announcing_parser)))
    = events (handler_of Examples.announcing_parser) ++ acts /\
    Forall (fun e => is_log_call e = false) acts /\
    (forall b, fst (regular_call Examples.quiet_env Examples.call_7
                      (BVal (VInt 7)) (VInt 1) (VInt 2)
                      Examples.announcing_parser) = Ok b ->
               b = true).
Proof.
  apply (announcements_are_no_calls Examples.quiet_env Examples.call_7
           (VInt 7) (VInt 1) (VInt 2) Examples.announcing_parser
           Examples.thread_schema).
  - reflexivity.
  - right. reflexivity.
Defined.

(** ** Teaching an index *)




End NetlogFacts.
